(** * react-express: the declarative-tree compiler and the dispatch engine

    A shallow embedding of [src/index.tsx] (with the builder functions of
    [src/lib]) and the properties of its specification.

    - [Js]        : the JavaScript values the engine inspects dynamically.
    - [Transport] : the response object of the HTTP transport, as far as the
                    engine drives it ([status], [setHeader], [json], ...).
    - [Ambient]   : [routeContext], [globalContext], [useSetContext],
                    [useContext], the bodies of middlewares and handlers, and
                    [executeNextMiddleware].
    - [Compiler]  : [processElement], the builder functions, the shape of a
                    tree.
    - [Engine]    : [serve]: [sendResponseFromOutput], [createExpressHandler],
                    the 405 pass, wildcard and 404 handlers.
    - [Examples]  : the example application and its middlewares.

    The properties follow: output normalization, the middleware chain, the
    route table, the request scope, the port, method and path resolution;
    then the two context stores, what a request handler does to the
    response, more on the compiled tree, the methods of a path, requests
    that no route takes, the continuation called again, the example
    middlewares in the chain, a Route whose children is no function, the
    order of the table, and a middleware that drops the result.

    Asynchrony is not modelled: every [await] is taken at the point where the
    awaited computation has completed, one request at a time. What is said
    of a run is said of a request that is served alone: [routeContext] is
    one variable of the module, and a request whose handler waits while
    another is served finds it reassigned or null.

    The transport is Express on Node's HTTP server; [Transport] and
    [Engine.handed_on] say what the engine's calls on it do. *)

From Stdlib Require Import ZArith String Ascii List DecimalString Lia.
From stdpp Require Import base gmap strings list.

Local Open Scope string_scope.
Local Open Scope list_scope.
Set Warnings "-register-all".

(* ===================================================================== *)
(** ** JavaScript values *)
(* ===================================================================== *)

Module Js.

(** Host objects handed over by the transport; the engine stores them in the
    request scope and never looks inside. *)
Inductive HostObj : Type := HReq | HRes.

(** Numbers are the integral ones (status codes, ports). A function value
    carries its [name] and the text [String(f)] produces. *)
Inductive JsValue : Type :=
| JUndefined
| JNull
| JBool (b : bool)
| JNum (n : Z)
| JStr (s : string)
| JArr (items : list JsValue)
| JObj (fields : list (string * JsValue))
| JFun (name : string) (src : string)
| JHost (h : HostObj).

(** [if (v)], [!v], [v && ...], [v || ...]. *)
Definition truthy (v : JsValue) : bool :=
  match v with
  | JUndefined | JNull => false
  | JBool b => b
  | JNum n => negb (n =? 0)%Z
  | JStr s => negb (String.eqb s "")
  | JArr _ | JObj _ | JFun _ _ | JHost _ => true
  end.

(** [a || b] *)
Definition js_or (a b : JsValue) : JsValue := if truthy a then a else b.

(** [typeof v === "object"] *)
Definition typeof_object (v : JsValue) : bool :=
  match v with
  | JNull | JArr _ | JObj _ | JHost _ => true
  | _ => false
  end.

(** [typeof v === "number"] *)
Definition typeof_number (v : JsValue) : bool :=
  match v with JNum _ => true | _ => false end.

(** [v !== undefined] *)
Definition defined (v : JsValue) : bool :=
  match v with JUndefined => false | _ => true end.

(** [v === "s"] *)
Definition is_str (v : JsValue) (s : string) : bool :=
  match v with JStr t => String.eqb t s | _ => false end.

Fixpoint assoc (k : string) (fields : list (string * JsValue)) : JsValue :=
  match fields with
  | [] => JUndefined
  | (k', v) :: rest => if String.eqb k' k then v else assoc k rest
  end.

(** Property read [v.k] (also [v?.k]) on a value that is not null or
    undefined: own fields of an object, the [name] of a function, and
    [undefined] for everything else. *)
Definition get (v : JsValue) (k : string) : JsValue :=
  match v with
  | JObj fields => assoc k fields
  | JFun name _ => if String.eqb k "name" then JStr name else JUndefined
  | _ => JUndefined
  end.

Definition string_of_Z (n : Z) : string := NilZero.string_of_int (Z.to_int n).

Fixpoint join (sep : string) (l : list string) : string :=
  match l with
  | [] => ""
  | [x] => x
  | x :: rest => x +:+ sep +:+ join sep rest
  end.

(** [String(v)] *)
Fixpoint js_String (v : JsValue) : string :=
  match v with
  | JUndefined => "undefined"
  | JNull => "null"
  | JBool true => "true"
  | JBool false => "false"
  | JNum n => string_of_Z n
  | JStr s => s
  | JArr items =>
      join "," (map (fun x => match x with
                              | JUndefined | JNull => ""
                              | _ => js_String x
                              end) items)
  | JObj _ => "[object Object]"
  | JFun _ src => src
  | JHost _ => "[object Object]"
  end.

Fixpoint indexed (i : nat) (items : list JsValue) : list (string * JsValue) :=
  match items with
  | [] => []
  | x :: rest => (string_of_Z (Z.of_nat i), x) :: indexed (S i) rest
  end.

(** [Object.entries(v)] for a truthy [v] with [typeof v === "object"]. *)
Definition entries (v : JsValue) : list (string * JsValue) :=
  match v with
  | JObj fields => fields
  | JArr items => indexed 0 items
  | _ => []
  end.

(** [s.toUpperCase()] and [s.toLowerCase()], on ASCII letters. *)
Definition upper_ascii (c : ascii) : ascii :=
  let n := nat_of_ascii c in
  if (97 <=? n)%nat && (n <=? 122)%nat then ascii_of_nat (n - 32) else c.

Definition lower_ascii (c : ascii) : ascii :=
  let n := nat_of_ascii c in
  if (65 <=? n)%nat && (n <=? 90)%nat then ascii_of_nat (n + 32) else c.

Fixpoint map_string (f : ascii -> ascii) (s : string) : string :=
  match s with
  | EmptyString => EmptyString
  | String c rest => String (f c) (map_string f rest)
  end.

Definition toUpperCase (s : string) : string := map_string upper_ascii s.
Definition toLowerCase (s : string) : string := map_string lower_ascii s.

(** [l.includes(s)] on an array of strings. *)
Definition includes (l : list string) (s : string) : bool :=
  existsb (String.eqb s) l.

(** A thrown [new Error(msg)]. *)
Definition js_Error (msg : string) : JsValue :=
  JObj [("name", JStr "Error"); ("message", JStr msg)].

End Js.

Import Js.

(* ===================================================================== *)
(** ** The transport's response object *)
(* ===================================================================== *)

Module Transport.

Inductive Body : Type :=
| BodyEmpty
| BodyText (s : string)
| BodyJson (v : JsValue)
| BodyRedirect (url : JsValue).

(** What the client is sent, as far as the engine decides it. [sent] is
    [None] until the response is sent; [headersSent] is the transport's
    getter of that name. *)
Record Res : Type := mkRes {
  headersSent : bool;
  statusCode : JsValue;
  headers : gmap string JsValue;
  sent : option Body
}.

Definition fresh : Res :=
  {| headersSent := false; statusCode := JNum 200; headers := ∅; sent := None |}.

(** The transport refuses header writes once the response is on the wire. *)
Definition ERR_HTTP_HEADERS_SENT : JsValue :=
  JObj [("name", JStr "Error"); ("code", JStr "ERR_HTTP_HEADERS_SENT")].

(** It refuses a header whose name is no HTTP token, whose value is
    undefined, or whose value has a character that a header may not hold. *)
Definition ERR_INVALID_HTTP_TOKEN : JsValue :=
  JObj [("name", JStr "TypeError"); ("code", JStr "ERR_INVALID_HTTP_TOKEN")].

Definition ERR_HTTP_INVALID_HEADER_VALUE : JsValue :=
  JObj [("name", JStr "TypeError"); ("code", JStr "ERR_HTTP_INVALID_HEADER_VALUE")].

Definition ERR_INVALID_CHAR : JsValue :=
  JObj [("name", JStr "TypeError"); ("code", JStr "ERR_INVALID_CHAR")].

(** And it refuses a status code that is not an integer from 100 to 999:
    a [RangeError] for a number, a [TypeError] for anything else. The
    message, which quotes the code, is cut short. *)
Definition invalid_status (code : JsValue) : JsValue :=
  JObj [("name", JStr (if typeof_number code then "RangeError" else "TypeError"));
        ("message", JStr "Invalid status code")].

Definition valid_status (code : JsValue) : bool :=
  match code with
  | JNum n => (100 <=? n)%Z && (n <=? 999)%Z
  | _ => false
  end.

Fixpoint all_chars (ok : ascii -> bool) (s : string) : bool :=
  match s with
  | EmptyString => true
  | String c rest => ok c && all_chars ok rest
  end.

(** The characters of an HTTP token: letters, digits, and
    [! # $ % & ' * + - . ^ _ ` | ~]. *)
Definition token_char (c : ascii) : bool :=
  let n := nat_of_ascii c in
  ((48 <=? n)%nat && (n <=? 57)%nat) ||
  ((65 <=? n)%nat && (n <=? 90)%nat) ||
  ((97 <=? n)%nat && (n <=? 122)%nat) ||
  existsb (Nat.eqb n) [33; 35; 36; 37; 38; 39; 42; 43; 45; 46; 94; 95; 96; 124; 126]%nat.

(** The characters of a header value: the tab, and everything from the
    space on except DEL. *)
Definition header_char (c : ascii) : bool :=
  let n := nat_of_ascii c in
  (n =? 9)%nat || ((32 <=? n)%nat && (n <=? 126)%nat) || (128 <=? n)%nat.

Definition valid_header_name (h : string) : bool :=
  negb (String.eqb h "") && all_chars token_char h.

(** What [res.setHeader(h, v)] throws on a response not yet sent, if
    anything: the name is checked first, then the value, which is tested
    as the string [String(v)]. *)
Definition refused (h : string) (v : JsValue) : option JsValue :=
  if negb (valid_header_name h) then Some ERR_INVALID_HTTP_TOKEN
  else if negb (defined v) then Some ERR_HTTP_INVALID_HEADER_VALUE
  else if negb (all_chars header_char (js_String v)) then Some ERR_INVALID_CHAR
  else None.

Definition accepts (h : string) (v : JsValue) : bool :=
  match refused h v with
  | None => true
  | Some _ => false
  end.

(** A transport call: it completes with a value or throws, and leaves the
    response object in a new state. *)
Definition T (A : Type) : Type := Res -> (JsValue + A) * Res.

Definition ret {A} (a : A) : T A := fun r => (inr a, r).
Definition bind {A B} (m : T A) (f : A -> T B) : T B :=
  fun r => match m r with
           | (inl e, r') => (inl e, r')
           | (inr a, r') => f a r'
           end.

(** [if (c) m;] *)
Definition when (c : bool) (m : T unit) : T unit := if c then m else ret tt.

(** [res.status(code)] *)
Definition status (code : JsValue) : T unit :=
  fun r => if valid_status code
           then (inr tt, {| headersSent := headersSent r; statusCode := code;
                            headers := headers r; sent := sent r |})
           else (inl (invalid_status code), r).

(** [res.setHeader(h, v)], and [res.set(h, v)] for a string [v]. The table
    has one entry for a name, whatever the case of its letters. *)
Definition setHeader (h : string) (v : JsValue) : T unit :=
  fun r => if headersSent r then (inl ERR_HTTP_HEADERS_SENT, r)
           else match refused h v with
                | Some e => (inl e, r)
                | None =>
                    (inr tt, {| headersSent := false; statusCode := statusCode r;
                                headers := <[toLowerCase h := v]> (headers r);
                                sent := sent r |})
                end.

(** [res.type(t)]; the charset the transport adds to the value is left out. *)
Definition type (t : string) : T unit := setHeader "Content-Type" (JStr t).

Definition put (b : Body) : T unit :=
  fun r => if headersSent r then (inl ERR_HTTP_HEADERS_SENT, r)
           else (inr tt, {| headersSent := true; statusCode := statusCode r;
                            headers := headers r; sent := Some b |}).

(** [res.send(s)] *)
Definition send (s : string) : T unit := put (BodyText s).

(** [res.json(v)] *)
Definition json (v : JsValue) : T unit := put (BodyJson v).

(** [res.end()]: ending twice is harmless. *)
Definition end_ : T unit :=
  fun r => if headersSent r then (inr tt, r)
           else (inr tt, {| headersSent := true; statusCode := statusCode r;
                            headers := headers r; sent := Some BodyEmpty |}).

(** [res.redirect(code, url)]: the status is set as by [res.status]. The
    headers of a redirect ([Location] and those of its body) are part of
    [BodyRedirect], not of the table. *)
Definition redirect (code : JsValue) (url : JsValue) : T unit :=
  fun r => if headersSent r then (inl ERR_HTTP_HEADERS_SENT, r)
           else if valid_status code
           then (inr tt, {| headersSent := true; statusCode := code;
                            headers := headers r; sent := Some (BodyRedirect url) |})
           else (inl (invalid_status code), r).

(** The header table after [entries] have been set on it, in order. *)
Definition set_all (es : list (string * JsValue)) (hs : gmap string JsValue)
    : gmap string JsValue :=
  fold_left (fun acc kv => <[toLowerCase (fst kv) := snd kv]> acc) es hs.

(** [for (const [h, v] of entries) res.setHeader(h, v)] *)
Fixpoint setHeaders (es : list (string * JsValue)) : T unit :=
  match es with
  | [] => ret tt
  | (h, v) :: rest => bind (setHeader h v) (fun _ => setHeaders rest)
  end.

End Transport.

Declare Scope transport_scope.
Delimit Scope transport_scope with transport.
Notation "m ;; k" := (Transport.bind m (fun _ => k))
  (at level 100, k at level 200, right associativity) : transport_scope.

(* ===================================================================== *)
(** ** Ambient context, middlewares and handlers *)
(* ===================================================================== *)

Module Ambient.

(** The transport's request object, as far as the engine reads it. *)
Record Request : Type := mkRequest {
  req_method : string;
  req_path : string;
  req_originalUrl : string;
  req_params : JsValue;
  req_query : JsValue;
  req_body : JsValue;
  req_headers : JsValue
}.

(** [RouteContext & { middlewareContext: Map<string, any> }]; the [req] and
    [res] fields are the request's two host objects. *)
Record RouteContext : Type := mkRouteContext {
  rc_req : Request;
  rc_params : JsValue;
  rc_query : JsValue;
  rc_body : JsValue;
  middlewareContext : gmap string JsValue
}.

(** The module-level variables [routeContext] and [globalContext], and the
    response object of the request being served. *)
Record World : Type := mkWorld {
  routeContext : option RouteContext;
  globalContext : gmap string JsValue;
  res : Transport.Res
}.

Definition set_routeContext (rc : option RouteContext) (w : World) : World :=
  {| routeContext := rc; globalContext := globalContext w; res := res w |}.

Definition set_res (r : Transport.Res) (w : World) : World :=
  {| routeContext := routeContext w; globalContext := globalContext w; res := r |}.

(** [map.get(k)] of a JavaScript [Map]: [undefined] when the key is absent. *)
Definition map_get (m : gmap string JsValue) (k : string) : JsValue :=
  default JUndefined (m !! k).

(** [routeContext.middlewareContext.set(k, v)] *)
Definition ctx_set (k : string) (v : JsValue) (rc : RouteContext) : RouteContext :=
  {| rc_req := rc_req rc; rc_params := rc_params rc; rc_query := rc_query rc;
     rc_body := rc_body rc; middlewareContext := <[k := v]> (middlewareContext rc) |}.

Definition set_body (v : JsValue) (rc : RouteContext) : RouteContext :=
  {| rc_req := rc_req rc; rc_params := rc_params rc; rc_query := rc_query rc;
     rc_body := v; middlewareContext := middlewareContext rc |}.

Definition set_query (v : JsValue) (rc : RouteContext) : RouteContext :=
  {| rc_req := rc_req rc; rc_params := rc_params rc; rc_query := v;
     rc_body := rc_body rc; middlewareContext := middlewareContext rc |}.

Definition set_params (v : JsValue) (rc : RouteContext) : RouteContext :=
  {| rc_req := rc_req rc; rc_params := v; rc_query := rc_query rc;
     rc_body := rc_body rc; middlewareContext := middlewareContext rc |}.

(** [useSetContext(key, value)], [key] already resolved to its string. *)
Definition useSetContext (resolvedKey : string) (value : JsValue) (w : World) : World :=
  match routeContext w with
  | Some rc =>
      let rc1 := ctx_set resolvedKey value rc in
      let rc2 :=
        if String.eqb resolvedKey "body" then set_body value rc1
        else if String.eqb resolvedKey "query" then set_query value rc1
        else if String.eqb resolvedKey "params" then set_params value rc1
        else rc1 in
      set_routeContext (Some rc2) w
  | None =>
      {| routeContext := None;
         globalContext := <[resolvedKey := value]> (globalContext w);
         res := res w |}
  end.

(** [getFromContext(k)], which is also [useContext(key)] *)
Definition useContext (k : string) (w : World) : JsValue :=
  match routeContext w with
  | Some rc =>
      let routeValue := map_get (middlewareContext rc) k in
      if defined routeValue then routeValue else map_get (globalContext w) k
  | None => map_get (globalContext w) k
  end.

(** [useContext()] and [useContext(ctx)]: the convenience object. *)
Definition useContextAll (w : World) : JsValue :=
  JObj (map (fun k => (k, useContext k w))
            ["body"; "query"; "params"; "req"; "res"; "path"; "method"; "headers"]).

(** [useRoute()] *)
Definition useRoute (w : World) : JsValue + RouteContext :=
  match routeContext w with
  | None => inl (js_Error "useRoute must be used inside a Route")
  | Some rc => inr rc
  end.

(** How an awaited call ended: it returned [v] or threw [e]. *)
Inductive Completion : Type :=
| Normal (v : JsValue)
| Abrupt (e : JsValue).

(** Calls on the [res] object that user code may issue itself. *)
Inductive ResOp : Type :=
| OpStatus (code : JsValue)
| OpSetHeader (h : string) (v : JsValue)
| OpType (t : string)
| OpSend (s : string)
| OpJson (v : JsValue)
| OpEnd
| OpRedirect (code url : JsValue).

Definition run_op (op : ResOp) : Transport.T unit :=
  match op with
  | OpStatus c => Transport.status c
  | OpSetHeader h v => Transport.setHeader h v
  | OpType t => Transport.type t
  | OpSend s => Transport.send s
  | OpJson v => Transport.json v
  | OpEnd => Transport.end_
  | OpRedirect c u => Transport.redirect c u
  end.

(** The body of a user function, as the engine sees it run: it returns,
    throws, uses the ambient context, writes to [res], or awaits its
    continuation. [N] is what the function was given to continue with:
    [unit] for a middleware (its [next]), [Empty_set] for a handler, which
    takes no argument. *)
Inductive Script (N : Type) : Type :=
| Return (v : JsValue)
| Throw (e : JsValue)
| CallNext (n : N) (k : Completion -> Script N)
| UseSetContext (key : string) (value : JsValue) (k : Script N)
| UseContext (key : string) (k : JsValue -> Script N)
| UseContextAll (k : JsValue -> Script N)
| UseRoute (k : RouteContext -> Script N)
| OnRes (op : ResOp) (k : Script N).

Arguments Return {N} v.
Arguments Throw {N} e.
Arguments CallNext {N} n k.
Arguments UseSetContext {N} key value k.
Arguments UseContext {N} key k.
Arguments UseContextAll {N} k.
Arguments UseRoute {N} k.
Arguments OnRes {N} op k.

(** [(req, next, res) => ...] *)
Abbreviation Middleware := (Request -> Script unit).

(** [() => ...] *)
Definition Handler : Type := Script Empty_set.

(** Finish with the completion of an awaited call: [return await next()]. *)
Definition Done {N} (c : Completion) : Script N :=
  match c with
  | Normal v => Return v
  | Abrupt e => Throw e
  end.

(** What ran, in order: middleware number [i] of the chain, or the handler.
    This record is kept for the proofs; the code has no such variable. *)
Inductive Ran : Type :=
| RanMiddleware (i : nat)
| RanHandler.

(** The closure state of one request: [middlewareIndex], and the world. *)
Record St : Type := mkSt {
  middlewareIndex : nat;
  ran : list Ran;
  world : World
}.

Definition on_world (f : World -> World) (st : St) : St :=
  {| middlewareIndex := middlewareIndex st; ran := ran st; world := f (world st) |}.

(** Run a body; [next] is what a call of the continuation does. [None] only
    when [next] gives [None]. *)
Fixpoint interp {N} (next : N -> St -> option (Completion * St))
    (p : Script N) (st : St) : option (Completion * St) :=
  match p with
  | Return v => Some (Normal v, st)
  | Throw e => Some (Abrupt e, st)
  | CallNext n k =>
      match next n st with
      | None => None
      | Some (c, st') => interp next (k c) st'
      end
  | UseSetContext key value k =>
      interp next k (on_world (useSetContext key value) st)
  | UseContext key k => interp next (k (useContext key (world st))) st
  | UseContextAll k => interp next (k (useContextAll (world st))) st
  | UseRoute k =>
      match useRoute (world st) with
      | inl e => Some (Abrupt e, st)
      | inr rc => interp next (k rc) st
      end
  | OnRes op k =>
      match run_op op (res (world st)) with
      | (inl e, r') => Some (Abrupt e, on_world (set_res r') st)
      | (inr _, r') => interp next k (on_world (set_res r') st)
      end
  end.

Definition no_next (n : Empty_set) (st : St) : option (Completion * St) :=
  match n with end.

(** [executeNextMiddleware], the closure over [middlewareIndex]. Every call
    either runs the handler or takes the middleware at [middlewareIndex] and
    increments it; [fuel] bounds the nesting of calls, and
    [S (length middlewares)] is always enough ([ChainFacts.exec_ordered]). *)
Fixpoint executeNextMiddleware (fuel : nat) (req : Request) (handler : Handler)
    (middlewares : list Middleware) (st : St) : option (Completion * St) :=
  match fuel with
  | O => None
  | S fuel' =>
      let i := middlewareIndex st in
      if (length middlewares <=? i)%nat then
        interp no_next handler
          {| middlewareIndex := i; ran := ran st ++ [RanHandler]; world := world st |}
      else
        let st' := {| middlewareIndex := S i; ran := ran st ++ [RanMiddleware i];
                      world := world st |} in
        match middlewares !! i with
        | Some currentMiddleware =>
            interp (fun _ => executeNextMiddleware fuel' req handler middlewares)
                   (currentMiddleware req) st'
        | None => Some (Normal JUndefined, st')
        end
  end.

(** The structured field of the scope that goes with a reserved key. *)
Definition field (key : string) (rc : RouteContext) : JsValue :=
  if String.eqb key "body" then rc_body rc
  else if String.eqb key "query" then rc_query rc
  else rc_params rc.

(** [Afterwards key w w']: [w'] is [w] after any number of context writes
    to keys other than [key] and of calls on the response object, which is
    all that middlewares and handlers do to the world. *)
Inductive Afterwards (key : string) : World -> World -> Prop :=
| at_once (w : World) : Afterwards key w w
| then_set (w w' : World) (k : string) (v : JsValue) :
    Afterwards key w w' -> k <> key -> Afterwards key w (useSetContext k v w')
| then_res (w w' : World) (r : Transport.Res) :
    Afterwards key w w' -> Afterwards key w (set_res r w').

(** [Quiet key p]: the body [p] does not itself write [key]. *)
Inductive Quiet {N : Type} (key : string) : Script N -> Prop :=
| quiet_return (v : JsValue) : Quiet key (Return v)
| quiet_throw (e : JsValue) : Quiet key (Throw e)
| quiet_next (n : N) (k : Completion -> Script N) :
    (forall c, Quiet key (k c)) -> Quiet key (CallNext n k)
| quiet_set (k' : string) (v : JsValue) (p : Script N) :
    k' <> key -> Quiet key p -> Quiet key (UseSetContext k' v p)
| quiet_get (k' : string) (k : JsValue -> Script N) :
    (forall x, Quiet key (k x)) -> Quiet key (UseContext k' k)
| quiet_all (k : JsValue -> Script N) :
    (forall x, Quiet key (k x)) -> Quiet key (UseContextAll k)
| quiet_route (k : RouteContext -> Script N) :
    (forall rc, Quiet key (k rc)) -> Quiet key (UseRoute k)
| quiet_res (op : ResOp) (p : Script N) :
    Quiet key p -> Quiet key (OnRes op p).

(** [knowing key value p]: the body [p] with every [useContext(key)]
    answered by [value] on the spot. *)
Fixpoint knowing {N : Type} (key : string) (value : JsValue) (p : Script N) : Script N :=
  match p with
  | Return v => Return v
  | Throw e => Throw e
  | CallNext n k => CallNext n (fun c => knowing key value (k c))
  | UseSetContext k' v p' => UseSetContext k' v (knowing key value p')
  | UseContext k' k =>
      if String.eqb k' key then knowing key value (k value)
      else UseContext k' (fun x => knowing key value (k x))
  | UseContextAll k => UseContextAll (fun x => knowing key value (k x))
  | UseRoute k => UseRoute (fun rc => knowing key value (k rc))
  | OnRes op p' => OnRes op (knowing key value p')
  end.

Definition knowing_all (key : string) (value : JsValue)
    (middlewares : list Middleware) : list Middleware :=
  map (fun (m : Middleware) req => knowing key value (m req)) middlewares.

(** The state in which [executeNextMiddleware], called in [st], runs the
    body of the middleware at [middlewareIndex st], and the state in which
    it runs the handler. *)
Definition started (st : St) : St :=
  {| middlewareIndex := S (middlewareIndex st);
     ran := ran st ++ [RanMiddleware (middlewareIndex st)];
     world := world st |}.

Definition at_handler (st : St) : St :=
  {| middlewareIndex := middlewareIndex st; ran := ran st ++ [RanHandler];
     world := world st |}.

(** The two ways a middleware may behave (specification, 4.4), for a body
    [p] run in the state [st]; how [p] behaves may depend on [st].
    [PassesOn p st pre post]: [p] does [pre] to the world, calls its
    continuation once, and finishes the way the continuation did, having
    done [post] to the world. *)
Definition PassesOn (p : Script unit) (st : St) (pre : World -> World)
    (post : Completion -> World -> World) : Prop :=
  forall next,
    interp next p st =
      match next tt (on_world pre st) with
      | Some (c, st') => Some (c, on_world (post c) st')
      | None => None
      end.

(** [AnswersWith p st v f]: [p] returns [v] without calling its
    continuation, having done [f] to the world. *)
Definition AnswersWith (p : Script unit) (st : St) (v : JsValue)
    (f : World -> World) : Prop :=
  forall next, interp next p st = Some (Normal v, on_world f st).

(** [PassedOn req middlewares st st' post]: [executeNextMiddleware] is
    called in [st]; the middlewares from [middlewareIndex st] up to, and
    without, [middlewareIndex st'] pass on, each in the state it is started
    in; [st'] is the state in which the last of them calls
    [executeNextMiddleware], and [post] is what they do to the world on the
    way back, the innermost first. *)
Inductive PassedOn (req : Request) (middlewares : list Middleware)
    : St -> St -> (Completion -> World -> World) -> Prop :=
| passed_none (st : St) : PassedOn req middlewares st st (fun _ w => w)
| passed_one (st st' : St) (m : Middleware) (pre : World -> World)
    (post post' : Completion -> World -> World) :
    middlewares !! middlewareIndex st = Some m ->
    PassesOn (m req) (started st) pre post ->
    PassedOn req middlewares (on_world pre (started st)) st' post' ->
    PassedOn req middlewares st st' (fun c w => post c (post' c w)).


(** The middlewares ran in chain order without a gap, and the handler only
    after the last of the [n] had started. *)
Definition ordered (n : nat) (st : St) : Prop :=
  (middlewareIndex st <= n)%nat /\
  exists h : nat,
    ran st = map RanMiddleware (seq 0 (middlewareIndex st)) ++ repeat RanHandler h /\
    (h <> 0%nat -> middlewareIndex st = n).


End Ambient.

(* ===================================================================== *)
(** ** The tree compiler *)
(* ===================================================================== *)

Module Compiler.

Import Ambient.

(** A [middleware] or [use] prop: absent, one function, or an array. *)
Inductive MwProp : Type :=
| MwAbsent
| MwOne (m : Middleware)
| MwMany (ms : list Middleware).

(** [if (p) { if (Array.isArray(p)) acc.push(...p); else acc.push(p); }]
    (for [use], the second test is [typeof p === "function"]). *)
Definition pushed (p : MwProp) : list Middleware :=
  match p with
  | MwAbsent => []
  | MwOne m => [m]
  | MwMany ms => ms
  end.

(** The props of the builder functions [App], [RouteGroup], [Route] and
    [Middleware]; an absent string prop is [None], an absent value
    [JUndefined]. [E] is the type of elements. *)
Record Props (E : Type) : Type := mkProps {
  children : E;
  port : JsValue;
  cors : JsValue;
  middleware : MwProp;
  prefix : option string;
  path : option string;
  method : option string;
  query : JsValue;
  body : JsValue;
  use : MwProp
}.

Arguments mkProps {E}.
Arguments children {E}.
Arguments port {E}.
Arguments cors {E}.
Arguments middleware {E}.
Arguments prefix {E}.
Arguments path {E}.
Arguments method {E}.
Arguments query {E}.
Arguments body {E}.
Arguments use {E}.

(** [element.type] when it is not a function: absent, a string, or an object
    with a [name]. *)
Inductive NodeType : Type :=
| TyAbsent
| TyStr (s : string)
| TyObj (name : JsValue).

(** What [processElement] may be handed. [EComp name props rendered] is an
    element whose [type] is a function called [name]; [rendered] is what
    [element.type(element.props || {})] returns. An absent [props] is the
    record of absent props, which is what [element.props || {}] reads. *)
Inductive Element : Type :=
| ENone
| EText (s : string)
| EFun (h : Handler)
| EArr (items : list Element)
| ENode (type : NodeType) (props : Props Element)
| EComp (name : string) (props : Props Element) (rendered : Element).

(** [if (s)] on an optional string. *)
Definition present (s : option string) : bool :=
  match s with
  | Some t => negb (String.eqb t "")
  | None => false
  end.

(** [`${s}`] for a present string. *)
Definition text (s : option string) : string := default "undefined" s.

(** [if (element)] *)
Definition elem_truthy (e : Element) : bool :=
  match e with
  | ENone => false
  | EText s => negb (String.eqb s "")
  | _ => true
  end.

(** [if (element.type)] *)
Definition type_truthy (ty : NodeType) : bool :=
  match ty with
  | TyAbsent => false
  | TyStr s => negb (String.eqb s "")
  | TyObj _ => true
  end.

(** [element.type === k || (element.type && element.type.name === k)] *)
Definition is_kind (ty : NodeType) (k : string) : bool :=
  match ty with
  | TyAbsent => false
  | TyStr s => String.eqb s k
  | TyObj name => is_str name k
  end.

(** [child && typeof child === "object" && (child.type === "Middleware" ||
    (child.type && child.type.name === "Middleware"))] *)
Definition is_middleware_node (child : Element) : bool :=
  match child with
  | ENode ty _ => is_kind ty "Middleware"
  | EComp name _ _ => String.eqb name "Middleware"
  | _ => false
  end.

(** First pass over a RouteGroup's children: what one child pushes. *)
Definition collected (child : Element) : list Middleware :=
  match child with
  | ENode ty props => if is_kind ty "Middleware" then pushed (use props) else []
  | EComp name props _ => if String.eqb name "Middleware" then pushed (use props) else []
  | _ => []
  end.

(** [Array.isArray(c) ? c : [c]] *)
Definition as_array (c : Element) : list Element :=
  match c with
  | EArr items => items
  | _ => [c]
  end.

(** An entry of the module-level [routes] array. *)
Record RouteDefinition : Type := mkRoute {
  r_method : string;
  r_path : string;
  r_handler : Element;
  r_middlewares : list Middleware;
  r_querySchema : JsValue;
  r_bodySchema : JsValue
}.

(** [appConfig]; [{}] has both fields undefined. *)
Record AppConfig : Type := mkAppConfig {
  cfg_port : JsValue;
  cfg_cors : JsValue
}.

(** The module-level [routes] and [appConfig]. *)
Record Store : Type := mkStore {
  routes : list RouteDefinition;
  appConfig : AppConfig
}.

Definition empty_store : Store :=
  {| routes := []; appConfig := {| cfg_port := JUndefined; cfg_cors := JUndefined |} |}.

(** A compilation step: [Some e] when it threw [e]. *)
Definition Outcome : Type := (option JsValue * Store)%type.

(** What a step of compilation added to [routes]. *)
Definition Adds (Q : RouteDefinition -> Prop) (st st' : Store) : Prop :=
  exists new, routes st' = routes st ++ new /\ Forall Q new.

Definition quote : string := String (ascii_of_nat 34) EmptyString.

Definition bodyAllowedMethods : list string := ["POST"; "PUT"; "PATCH"; "DELETE"].

Definition missing_method (p : option string) : JsValue :=
  js_Error ("Route with path " +:+ quote +:+ text p +:+ quote +:+
            " is missing a required " +:+ quote +:+ "method" +:+ quote +:+ " property").

Definition body_not_allowed (m fullPath : string) : JsValue :=
  js_Error ("Route " +:+ toUpperCase m +:+ " " +:+ fullPath +:+
            " cannot declare a body schema. Allowed only for " +:+
            join ", " bodyAllowedMethods +:+ ".").

(** The [Route] branch of [processElement]. *)
Definition processRoute (props : Props Element) (pathPrefix : string)
    (middlewares : list Middleware) (st : Store) : Outcome :=
  if present (path props) && elem_truthy (children props) then
    if negb (present (method props)) then (Some (missing_method (path props)), st)
    else
      let fullPath := pathPrefix +:+ text (path props) in
      let routeMiddlewares := middlewares ++ pushed (middleware props) in
      if truthy (body props) &&
         negb (includes bodyAllowedMethods (toUpperCase (text (method props))))
      then (Some (body_not_allowed (text (method props)) fullPath), st)
      else
        (None,
         {| routes := routes st ++
              [{| r_method := toLowerCase (text (method props));
                  r_path := fullPath;
                  r_handler := children props;
                  r_middlewares := routeMiddlewares;
                  r_querySchema := query props;
                  r_bodySchema := body props |}];
            appConfig := appConfig st |})
  else (None, st).

(** [items.forEach(f)], stopping at the first call that throws. *)
Section Loops.
Variable f : Element -> Store -> Outcome.

Fixpoint forEach (items : list Element) (st : Store) : Outcome :=
  match items with
  | [] => (None, st)
  | el :: rest =>
      match f el st with
      | (Some e, st') => (Some e, st')
      | (None, st') => forEach rest st'
      end
  end.

(** The second pass over a RouteGroup's children: [forEach] with the
    Middleware nodes skipped. *)
Fixpoint others (items : list Element) (st : Store) : Outcome :=
  match items with
  | [] => (None, st)
  | child :: rest =>
      if is_middleware_node child then others rest st
      else
        match f child st with
        | (Some e, st') => (Some e, st')
        | (None, st') => others rest st'
        end
  end.
End Loops.

(** [processElement(element, pathPrefix, middlewares)] on the store. *)
Fixpoint processElement (element : Element) (pathPrefix : string)
    (middlewares : list Middleware) (st : Store) {struct element} : Outcome :=
  match element with
  | ENone | EText _ | EFun _ => (None, st)
  | EArr items =>
      forEach (fun el => processElement el pathPrefix middlewares) items st
  | EComp _ _ rendered => processElement rendered pathPrefix middlewares st
  | ENode ty props =>
      if type_truthy ty && is_kind ty "App" then
        let st1 := {| routes := routes st;
                      appConfig := {| cfg_port := js_or (port props) (JNum 9000);
                                      cfg_cors := cors props |} |} in
        let appMiddlewares := middlewares ++ pushed (middleware props) in
        match children props with
        | EArr items =>
            forEach (fun child => processElement child pathPrefix appMiddlewares)
                    items st1
        | _ => if elem_truthy (children props)
               then processElement (children props) pathPrefix appMiddlewares st1
               else (None, st1)
        end
      else if type_truthy ty && is_kind ty "RouteGroup" then
        let groupPrefix :=
          if present (prefix props) then pathPrefix +:+ text (prefix props)
          else pathPrefix in
        let groupMiddlewares :=
          (middlewares ++ pushed (middleware props)) ++
          (if elem_truthy (children props)
           then flat_map collected (as_array (children props)) else []) in
        match children props with
        | EArr items =>
            others (fun child => processElement child groupPrefix groupMiddlewares)
                   items st
        | _ => if elem_truthy (children props) &&
                  negb (is_middleware_node (children props))
               then processElement (children props) groupPrefix groupMiddlewares st
               else (None, st)
        end
      else if type_truthy ty && is_kind ty "Route" then
        processRoute props pathPrefix middlewares st
      else
        match children props with
        | EArr items =>
            forEach (fun child => processElement child pathPrefix middlewares)
                    items st
        | _ => if elem_truthy (children props)
               then processElement (children props) pathPrefix middlewares st
               else (None, st)
        end
  end.

(** [serve] starts from the empty store: [routes.length = 0; appConfig = {};
    processElement(element);] *)
Definition compile (element : Element) : Outcome :=
  processElement element "" [] empty_store.

(** *** The builder functions of [src/lib] *)

Definition no_props : Props Element :=
  {| children := ENone; port := JUndefined; cors := JUndefined;
     middleware := MwAbsent; prefix := None; path := None; method := None;
     query := JUndefined; body := JUndefined; use := MwAbsent |}.

Definition App (p : Props Element) : Element :=
  ENode (TyStr "App")
    {| children := children p; port := port p; cors := cors p;
       middleware := middleware p; prefix := None; path := None; method := None;
       query := JUndefined; body := JUndefined; use := MwAbsent |}.

Definition RouteGroup (p : Props Element) : Element :=
  ENode (TyStr "RouteGroup")
    {| children := children p; port := JUndefined; cors := JUndefined;
       middleware := middleware p; prefix := prefix p; path := None;
       method := None; query := JUndefined; body := JUndefined; use := MwAbsent |}.

Definition Route (p : Props Element) : Element :=
  ENode (TyStr "Route")
    {| children := children p; port := JUndefined; cors := JUndefined;
       middleware := middleware p; prefix := None; path := path p;
       method := method p; query := query p; body := body p; use := MwAbsent |}.

Definition MiddlewareNode (p : Props Element) : Element :=
  ENode (TyStr "Middleware")
    {| children := ENone; port := JUndefined; cors := JUndefined;
       middleware := MwAbsent; prefix := None; path := None; method := None;
       query := JUndefined; body := JUndefined; use := use p |}.

(** [<Name {...props} />]: the element JSX builds for a function component. *)
Definition jsx (name : string) (component : Props Element -> Element)
    (p : Props Element) : Element :=
  EComp name p (component p).

(** [Response({...})] gives [{ type: "Response", props }]. *)
Definition Response (props : list (string * JsValue)) : JsValue :=
  JObj [("type", JStr "Response"); ("props", JObj props)].

(** [{ ...p, children: c }] *)
Definition with_children (p : Props Element) (c : Element) : Props Element :=
  {| children := c; port := port p; cors := cors p; middleware := middleware p;
     prefix := prefix p; path := path p; method := method p;
     query := query p; body := body p; use := use p |}.

(** *** The shape of a tree *)

(** The elements one level below [e]: the items of an array, what a function
    component renders, the children of a node. A Route has none (its
    [children] is its handler), and the Middleware nodes of a RouteGroup are
    not elements of the tree but part of the group. *)
Definition below (e : Element) : list Element :=
  match e with
  | EArr items => items
  | EComp _ _ rendered => [rendered]
  | ENode ty props =>
      if is_kind ty "Route" then []
      else if is_kind ty "RouteGroup"
      then List.filter (fun c => negb (is_middleware_node c)) (as_array (children props))
      else as_array (children props)
  | _ => []
  end.

(** [Encloses root ancestors e]: [e] sits in the tree of [root] below the
    elements [ancestors], outermost first. *)
Inductive Encloses : Element -> list Element -> Element -> Prop :=
| here (e : Element) : Encloses e [] e
| down (e c : Element) (ancestors : list Element) (target : Element) :
    In c (below e) -> Encloses c ancestors target ->
    Encloses e (e :: ancestors) target.

(** The prefixes of the RouteGroups among [ancestors]. *)
Definition group_prefixes (ancestors : list Element) : list string :=
  flat_map (fun e => match e with
                     | ENode ty props =>
                         if is_kind ty "RouteGroup"
                         then match prefix props with Some p => [p] | None => [] end
                         else []
                     | _ => []
                     end) ancestors.

Definition concatenation (l : list string) : string :=
  fold_right String.append "" l.

(** App-level middlewares: the [middleware] prop of an App node. *)
Definition app_level (e : Element) : list Middleware :=
  match e with
  | ENode ty props => if is_kind ty "App" then pushed (middleware props) else []
  | _ => []
  end.

(** The middlewares of a RouteGroup: its [middleware] prop, then the [use]
    of its Middleware children. *)
Definition group_level (e : Element) : list Middleware :=
  match e with
  | ENode ty props =>
      if is_kind ty "RouteGroup"
      then pushed (middleware props) ++ flat_map collected (as_array (children props))
      else []
  | _ => []
  end.

Definition level (e : Element) : list Middleware := app_level e ++ group_level e.

Definition is_app (e : Element) : bool :=
  match e with ENode ty _ => is_kind ty "App" | _ => false end.

Definition is_group (e : Element) : bool :=
  match e with ENode ty _ => is_kind ty "RouteGroup" | _ => false end.

(** No App node sits inside a RouteGroup. *)
Fixpoint apps_outermost (ancestors : list Element) : bool :=
  match ancestors with
  | [] => true
  | e :: rest =>
      (if is_group e then forallb (fun a => negb (is_app a)) rest else true) &&
      apps_outermost rest
  end.

(** [cfg] is what an App node of the tree of [root] assigns to [appConfig]. *)
Definition FromApp (root : Element) (cfg : AppConfig) : Prop :=
  exists ancestors ty props,
    Encloses root ancestors (ENode ty props) /\
    is_kind ty "App" = true /\
    cfg = {| cfg_port := js_or (port props) (JNum 9000); cfg_cors := cors props |}.

(** What a step of compilation did to [appConfig]: nothing, or the
    assignment of an App node. *)
Definition Configures (root : Element) (st st' : Store) : Prop :=
  appConfig st' = appConfig st \/ FromApp root (appConfig st').

(** The root of the tree is an App node, written as a node or in JSX. *)
Inductive AppRooted : Element -> Prop :=
| app_node (ty : NodeType) (props : Props Element) :
    is_kind ty "App" = true -> AppRooted (ENode ty props)
| app_component (name : string) (props : Props Element) (rendered : Element) :
    AppRooted rendered -> AppRooted (EComp name props rendered).

(** [r] is the RouteDefinition of a Route node of the tree of [root],
    compiled with [root] reached under [pathPrefix] and [middlewares]. *)
Definition Emitted (root : Element) (pathPrefix : string)
    (middlewares : list Middleware) (r : RouteDefinition) : Prop :=
  exists ancestors ty props,
    Encloses root ancestors (ENode ty props) /\
    is_kind ty "Route" = true /\
    present (path props) = true /\
    elem_truthy (children props) = true /\
    present (method props) = true /\
    (truthy (body props) = true ->
     includes bodyAllowedMethods (toUpperCase (text (method props))) = true) /\
    r = {| r_method := toLowerCase (text (method props));
           r_path := pathPrefix +:+ concatenation (group_prefixes ancestors) +:+
                     text (path props);
           r_handler := children props;
           r_middlewares := middlewares ++ flat_map level ancestors ++
                            pushed (middleware props);
           r_querySchema := query props;
           r_bodySchema := body props |}.

End Compiler.

(* ===================================================================== *)
(** ** The dispatch engine: [serve] *)
(* ===================================================================== *)

Module Engine.

Import Ambient Compiler.
Import Transport (T, Res, headersSent, statusCode, headers, sent).

Local Open Scope transport_scope.

(** [res.headersSent] *)
Definition getHeadersSent : T bool := fun r => (inr (headersSent r), r).

Definition error_body (msg : string) : JsValue := JObj [("error", JStr msg)].

(** [Boolean(output.type && (output.type === "Response" ||
    output.type?.name === "Response"))] *)
Definition isResponseElement (output : JsValue) : bool :=
  let type := get output "type" in
  truthy type && (is_str type "Response" || is_str (get type "name") "Response").

(** The branch of [sendResponseFromOutput] for a Response node with the
    destructured [output.props || {}]. *)
Definition sendResponseNode (props : JsValue) : T unit :=
  let status := get props "status" in
  let json := get props "json" in
  let text := get props "text" in
  let html := get props "html" in
  let headers := get props "headers" in
  let redirect := get props "redirect" in
  Transport.when (truthy headers && typeof_object headers)
    (Transport.setHeaders (entries headers)) ;;
  if truthy redirect then
    if truthy status && typeof_number status
    then Transport.redirect status redirect
    else Transport.redirect (JNum 302) redirect
  else if defined text then
    Transport.when (truthy status) (Transport.status status) ;;
    Transport.type "text/plain" ;; Transport.send (js_String text)
  else if defined html then
    Transport.when (truthy status) (Transport.status status) ;;
    Transport.type "text/html" ;; Transport.send (js_String html)
  else if defined json then
    Transport.when (truthy status) (Transport.status status) ;;
    Transport.json json
  else if truthy status then
    Transport.status status ;; Transport.end_
  else
    Transport.status (JNum 200) ;; Transport.end_.

(** [sendResponseFromOutput(res, output)] *)
Definition sendResponseFromOutput (output : JsValue) : T unit :=
  if negb (truthy output) then
    Transport.bind getHeadersSent (fun wasSent =>
      Transport.when (negb wasSent)
        (Transport.status (JNum 500) ;;
         Transport.json (error_body "No response generated")))
  else if typeof_object output then
    if isResponseElement output then
      sendResponseNode (js_or (get output "props") (JObj []))
    else
      Transport.bind getHeadersSent (fun wasSent =>
        Transport.when (negb wasSent)
          (Transport.status (JNum 500) ;;
           Transport.json (error_body "Invalid response format")))
  else
    Transport.send (js_String output).

(** [handler()] for the [children] a Route was declared with. *)
Definition call (handler : Element) : Handler :=
  match handler with
  | EFun h => h
  | _ => Throw (JObj [("name", JStr "TypeError");
                      ("message", JStr "handler is not a function")])
  end.

(** The scope a request starts with, seeds included. *)
Definition seeded (req : Request) (schemas : list (string * JsValue)) : RouteContext :=
  let rc0 := {| rc_req := req; rc_params := req_params req; rc_query := req_query req;
                rc_body := req_body req; middlewareContext := ∅ |} in
  let rc1 := ctx_set "req" (JHost HReq) rc0 in
  let rc2 := ctx_set "res" (JHost HRes) rc1 in
  let rc3 := ctx_set "params" (req_params req) rc2 in
  let rc4 := ctx_set "path" (JStr (req_path req)) rc3 in
  let rc5 := ctx_set "method" (JStr (req_method req)) rc4 in
  let rc6 := ctx_set "headers" (req_headers req) rc5 in
  let rc7 := ctx_set "query" (rc_query rc6) rc6 in
  let rc8 := ctx_set "body" (rc_body rc7) rc7 in
  fold_left (fun rc kv => if truthy (snd kv) then ctx_set (fst kv) (snd kv) rc else rc)
            schemas rc8.

(** [await executeNextMiddleware()] with [middlewareIndex = 0]. *)
Definition runChain (req : Request) (handler : Element)
    (middlewares : list Middleware) (w : World) : option (Completion * St) :=
  executeNextMiddleware (S (length middlewares)) req (call handler) middlewares
    {| middlewareIndex := 0; ran := []; world := w |}.

(** The [catch] block of a request handler. *)
Definition catchBlock : T unit :=
  Transport.bind getHeadersSent (fun wasSent =>
    Transport.when (negb wasSent)
      (Transport.status (JNum 500) ;;
       Transport.json (error_body "Internal server error"))).

(** The body of a request handler, from the assignment of [routeContext] to
    the [finally] block. [Some e] is an error that escaped the handler. *)
Definition scoped (req : Request) (handler : Element)
    (middlewares : list Middleware) (schemas : list (string * JsValue))
    (w : World) : option (option JsValue * World) :=
  let w1 := set_routeContext (Some (seeded req schemas)) w in
  match runChain req handler middlewares w1 with
  | None => None
  | Some (c, st) =>
      let w2 := world st in
      let afterTry :=
        match c with
        | Normal output => sendResponseFromOutput output (res w2)
        | Abrupt e => (inl e, res w2)
        end in
      let afterCatch :=
        match afterTry with
        | (inr _, r) => (inr tt, r)
        | (inl _, r) => catchBlock r
        end in
      (* finally *)
      let w3 := set_routeContext None (set_res (snd afterCatch) w2) in
      Some (match fst afterCatch with inl e => Some e | inr _ => None end, w3)
  end.

(** [createExpressHandler(handler, middlewares, bodySchema, querySchema)] *)
Definition createExpressHandler (handler : Element) (middlewares : list Middleware)
    (bodySchema querySchema : JsValue) (req : Request) (w : World)
    : option (option JsValue * World) :=
  scoped req handler middlewares
    [("_bodySchema", bodySchema); ("_querySchema", querySchema)] w.

(** [methodSpecificWildcardHandler] once its method test has passed. *)
Definition wildcardHandler (route : RouteDefinition) (req : Request) (w : World)
    : option (option JsValue * World) :=
  scoped req (r_handler route) (r_middlewares route) [] w.

(** One step of the loop that fills [methodsByPath]. *)
Definition addMethod (methodsByPath : gmap string (list string))
    (route : RouteDefinition) : gmap string (list string) :=
  let m1 := match methodsByPath !! r_path route with
            | None => <[r_path route := []]> methodsByPath
            | Some _ => methodsByPath
            end in
  let allowed := default [] (m1 !! r_path route) in
  if negb (includes allowed (toUpperCase (r_method route)))
  then <[r_path route := allowed ++ [toUpperCase (r_method route)]]> m1
  else m1.

Definition collectMethods (regularRoutes : list RouteDefinition)
    : gmap string (list string) :=
  fold_left addMethod regularRoutes ∅.

(** The methods allowed for [p]: the upper-cased methods of the routes
    declared with path [p], each once, in order of declaration. *)
Definition once (acc : list string) (m : string) : list string :=
  if includes acc m then acc else acc ++ [m].

Definition allowedFor (p : string) (regularRoutes : list RouteDefinition)
    : list string :=
  fold_left once
    (map (fun r => toUpperCase (r_method r))
         (List.filter (fun r => String.eqb (r_path r) p) regularRoutes))
    [].

(** The keys of [registrar]. *)
Definition registrar : list string :=
  ["get"; "post"; "put"; "patch"; "delete"; "options"; "head"; "all"].

(** What [serve] registers on the transport's application for the routes,
    in order. Two layers of the transport's own come before them:
    [express.json()] and, when [appConfig.cors] is truthy, [cors(...)]; see
    [handed_on]. *)
Inductive Layer : Type :=
| OnMethod (verb : string) (route : RouteDefinition)
| MethodNotAllowed (methodsByPath : gmap string (list string))
| Wildcard (route : RouteDefinition)
| NotFound.

Record Server : Type := mkServer {
  listening : JsValue;
  corsOptions : JsValue;
  stack : list Layer
}.

Definition is_wildcard (route : RouteDefinition) : bool := String.eqb (r_path route) "*".

(** The loop that registers each regular route under its method; a method
    that is no key of [registrar] is only warned about. *)
Definition registered (regularRoutes : list RouteDefinition) : list Layer :=
  flat_map (fun route =>
              let method := toLowerCase (r_method route) in
              if includes registrar method then [OnMethod method route] else [])
           regularRoutes.

(** The registrations of [serve] for a compiled store. *)
Definition register (st : Store) : Server :=
  let port := js_or (cfg_port (appConfig st)) (JNum 6969) in
  let regularRoutes := List.filter (fun r => negb (is_wildcard r)) (routes st) in
  let wildcardRoutes := List.filter (fun r => is_wildcard r) (routes st) in
  let methodsByPath := collectMethods regularRoutes in
  let hasCustomWildcard := negb (length wildcardRoutes =? 0)%nat in
  {| listening := port;
     corsOptions := cfg_cors (appConfig st);
     stack := registered regularRoutes ++ [MethodNotAllowed methodsByPath] ++
              (if hasCustomWildcard then map Wildcard wildcardRoutes else [NotFound]) |}.

(** [serve(element)]: the store is reset, the tree compiled, the handlers
    registered. [inl e] when compilation threw [e]. *)
Definition serve (element : Element) : JsValue + Server :=
  match compile element with
  | (Some e, _) => inl e
  | (None, st) => inr (register st)
  end.

(** The request reaches the layers of [stack] from the transport's own two.
    [express.json()] hands on the request with its body parsed, which is
    the [req] the layers are given. The [cors] layer is installed when
    [corsOptions] is truthy; with [cors={true}] it has its default options,
    under which it answers a preflight (a request whose method is OPTIONS)
    itself, and hands on every other request.
    [handed_on server req]: no [cors] layer is installed, or the one with
    the default options and [req] is no preflight. *)
Definition handed_on (server : Server) (req : Request) : bool :=
  match corsOptions server with
  | JBool true => negb (String.eqb (toUpperCase (req_method req)) "OPTIONS")
  | options => negb (truthy options)
  end.

(** The 405 pass, when it answers. *)
Definition methodNotAllowed (allowed : list string) (req : Request) : T unit :=
  Transport.setHeader "Allow" (JStr (join ", " allowed)) ;;
  Transport.status (JNum 405) ;;
  Transport.json
    (JObj [("error", JStr "Method Not Allowed");
           ("message", JStr ("Method " +:+ req_method req +:+
                             " is not allowed for path " +:+ req_path req));
           ("path", JStr (req_path req));
           ("method", JStr (req_method req))]).

(** The default 404 handler. *)
Definition notFound (req : Request) : T unit :=
  Transport.status (JNum 404) ;;
  Transport.json
    (JObj [("error", JStr "Not Found");
           ("message", JStr ("Route " +:+ req_method req +:+ " " +:+
                             req_originalUrl req +:+ " not found"));
           ("path", JStr (req_originalUrl req));
           ("method", JStr (req_method req))]).

Definition onRes (m : T unit) (w : World) : option JsValue * World :=
  match m (res w) with
  | (inl e, r) => (Some e, set_res r w)
  | (inr _, r) => (None, set_res r w)
  end.

Section Dispatch.

(** The transport's routing: whether a handler registered with
    [app.<verb>(path, ...)] is the one a request is given to. *)
Variable matches : string -> string -> Request -> bool.

(** A request going down the stack; a layer that does not answer calls
    [next()]. [Some e] is an error left to the transport. *)
Fixpoint dispatch (layers : list Layer) (req : Request) (w : World)
    : option (option JsValue * World) :=
  match layers with
  | [] => Some (None, w)
  | OnMethod verb route :: rest =>
      if matches verb (r_path route) req
      then createExpressHandler (r_handler route) (r_middlewares route)
             (r_bodySchema route) (r_querySchema route) req w
      else dispatch rest req w
  | MethodNotAllowed methodsByPath :: rest =>
      match methodsByPath !! req_path req with
      | Some allowed =>
          if negb (includes allowed (req_method req))
          then Some (onRes (methodNotAllowed allowed req) w)
          else dispatch rest req w
      | None => dispatch rest req w
      end
  | Wildcard route :: rest =>
      let method := toLowerCase (r_method route) in
      if String.eqb method "all" || String.eqb (toLowerCase (req_method req)) method
      then wildcardHandler route req w
      else dispatch rest req w
  | NotFound :: _ => Some (onRes (notFound req) w)
  end.

End Dispatch.

(** *** The course of a request *)

(** [r'] is a response already sent, as [r] was: same body, same headers. *)
Definition stands (r r' : Res) : Prop :=
  headersSent r' = true /\ sent r' = sent r /\ headers r' = headers r.

(** A transport computation that leaves a sent response standing. *)
Definition Keeps {A} (m : T A) : Prop :=
  forall r x r', headersSent r = true -> m r = (x, r') -> stands r r'.

(** A transport computation that, when it completes, has sent the
    response. *)
Definition Sends {A} (m : T A) : Prop :=
  forall r a r', m r = (inr a, r') -> headersSent r' = true.

End Engine.

(* ===================================================================== *)
(** ** The example application *)
(* ===================================================================== *)

Module Examples.

Import Ambient Compiler Engine.

(** [src/examples/middleware/logging-middleware.tsx]; [now] is what
    [Date.now()] gave. *)
Definition loggingMiddleware (now : Z) : Middleware :=
  fun req => UseSetContext "requestTimestamp" (JNum now) (CallNext tt Done).

(** [src/examples/middleware/slow-route-middleware.tsx] *)
Definition slowRouteMiddleware (now : Z) : Middleware :=
  fun req => UseSetContext "processStartTime" (JNum now) (CallNext tt Done).

(** [adminLogMiddleware] *)
Definition adminLogMiddleware : Middleware :=
  fun req => UseSetContext "adminAccess" (JBool true) (CallNext tt Done).

(** [s.split(" ")[1]]: the second of the pieces between spaces. *)
Fixpoint piece (s : string) : string :=
  match s with
  | EmptyString => EmptyString
  | String c rest => if Ascii.eqb c " " then EmptyString else String c (piece rest)
  end.

Fixpoint second_piece (s : string) : option string :=
  match s with
  | EmptyString => None
  | String c rest => if Ascii.eqb c " " then Some (piece rest) else second_piece rest
  end.

(** [src/examples/middleware/auth-middleware.tsx] *)
Definition authMiddleware : Middleware :=
  fun req =>
    let token := match get (req_headers req) "authorization" with
                 | JStr s => second_piece s
                 | _ => None
                 end in
    match token with
    | None | Some "" =>
        Return (Response [("status", JNum 401);
                          ("json", JObj [("error", JStr "Unauthorized")])])
    | Some t =>
        if negb (String.eqb t "valid-token") then
          Return (Response [("status", JNum 401);
                            ("json", JObj [("error", JStr "Invalid token")])])
        else
          UseSetContext "user"
            (JObj [("id", JNum 1); ("name", JStr "Titanium");
                   ("email", JStr "admin@example.com")])
            (CallNext tt Done)
    end.

Definition route_props (p m : string) (mw : MwProp) (schema : JsValue)
    (handler : Handler) : Props Element :=
  {| children := EFun handler; port := JUndefined; cors := JUndefined;
     middleware := mw; prefix := None; path := Some p; method := Some m;
     query := JUndefined; body := schema; use := MwAbsent |}.

Definition group_props (pre : option string) (mw : MwProp) (kids : list Element)
    : Props Element :=
  {| children := EArr kids; port := JUndefined; cors := JUndefined;
     middleware := mw; prefix := pre; path := None; method := None;
     query := JUndefined; body := JUndefined; use := MwAbsent |}.

Definition app_props (p : JsValue) (mw : MwProp) (kids : list Element)
    : Props Element :=
  {| children := EArr kids; port := p; cors := JBool true;
     middleware := mw; prefix := None; path := None; method := None;
     query := JUndefined; body := JUndefined; use := MwAbsent |}.

Definition use_props (mw : MwProp) : Props Element :=
  {| children := ENone; port := JUndefined; cors := JUndefined;
     middleware := MwAbsent; prefix := None; path := None; method := None;
     query := JUndefined; body := JUndefined; use := mw |}.

(** [GET /api/protected/me]: the handler reads what the auth middleware
    left in the context. *)
Definition me : Handler :=
  UseContext "user" (fun user => Return (Response [("json", user)])).

(** [POST /hello]: the handler answers with the body it reads from the
    context. *)
Definition greet : Handler :=
  UseContext "body" (fun b => Return (Response [("json", b)])).

Definition user42 : Handler :=
  UseRoute (fun rc =>
    Return (Response [("json", JObj [("id", get (rc_params rc) "id")])])).

(** An application in the manner of the example: an App without a port
    and with the logging middleware, a group of user routes, and a
    protected group. *)
Definition users_p : Props Element :=
  route_props "/users/:id" "GET" (MwOne (slowRouteMiddleware 7)) JUndefined user42.

Definition users_route : Element := jsx "Route" Route users_p.

Definition me_p : Props Element :=
  route_props "/me" "GET" MwAbsent JUndefined me.

Definition me_route : Element := jsx "Route" Route me_p.

Definition api_p : Props Element :=
  group_props (Some "/api") (MwOne adminLogMiddleware) [users_route].

Definition api_group : Element := jsx "RouteGroup" RouteGroup api_p.

Definition protected_p : Props Element :=
  group_props (Some "/api/protected") MwAbsent
    [jsx "Middleware" MiddlewareNode (use_props (MwOne authMiddleware)); me_route].

Definition protected_group : Element := jsx "RouteGroup" RouteGroup protected_p.

Definition app_p : Props Element :=
  app_props JUndefined (MwMany [loggingMiddleware 5]) [api_group; protected_group].

Definition app : Element := jsx "App" App app_p.

(** A Route that declares a body schema with method GET, and one that has
    no path. *)
Definition schema : JsValue := JObj [("name", JStr "string")].

Definition get_with_body_p : Props Element :=
  route_props "/hello" "GET" MwAbsent schema me.

Definition get_with_body : Element := Route get_with_body_p.

Definition pathless_p : Props Element :=
  {| children := EFun me; port := JUndefined; cors := JUndefined;
     middleware := MwAbsent; prefix := None; path := None; method := Some "GET";
     query := JUndefined; body := schema; use := MwAbsent |}.

Definition pathless : Element := ENode (TyStr "Route") pathless_p.

Definition request (m p : string) (hs : list (string * JsValue)) : Request :=
  {| req_method := m; req_path := p; req_originalUrl := p;
     req_params := JObj [("id", JStr "42")]; req_query := JObj [];
     req_body := JUndefined; req_headers := JObj hs |}.

Definition idle : World :=
  {| routeContext := None; globalContext := ∅; res := Transport.fresh |}.

(** [Response({ json: {msg:"x"}, status: 201, headers: {"X-A":"1"} })] *)
Definition created : JsValue :=
  Response [("json", JObj [("msg", JStr "x")]);
            ("status", JNum 201);
            ("headers", JObj [("X-A", JStr "1")])].

(** [Response({ text: "hi", status: 1000 })] *)
Definition too_high : JsValue :=
  Response [("text", JStr "hi"); ("status", JNum 1000)].

(** The table [app] compiles to. *)
Definition users_def : RouteDefinition :=
  {| r_method := "get"; r_path := "/api/users/:id"; r_handler := EFun user42;
     r_middlewares := [loggingMiddleware 5; adminLogMiddleware; slowRouteMiddleware 7];
     r_querySchema := JUndefined; r_bodySchema := JUndefined |}.

Definition me_def : RouteDefinition :=
  {| r_method := "get"; r_path := "/api/protected/me"; r_handler := EFun me;
     r_middlewares := [loggingMiddleware 5; authMiddleware];
     r_querySchema := JUndefined; r_bodySchema := JUndefined |}.

Definition app_store : Store :=
  {| routes := [users_def; me_def];
     appConfig := {| cfg_port := JNum 9000; cfg_cors := JBool true |} |}.

Definition unauthorized : JsValue :=
  Response [("status", JNum 401); ("json", JObj [("error", JStr "Unauthorized")])].

(** A handler that throws. *)
Definition failing : Handler := Throw (js_Error "boom").

(** A request scope, as [createExpressHandler] opens it. *)
Definition in_request : World :=
  set_routeContext (Some (seeded (request "POST" "/hello" []) [])) idle.

(** A request being served, after [useSetContext("body", 7)] was called
    outside any request. *)
Definition global_body : World :=
  set_routeContext (Some (seeded (request "POST" "/hello" []) []))
    (useSetContext "body" (JNum 7) idle).

(** The transport's routing, for the examples: the verb as Express takes
    it, and the path segment by segment, [:name] matching any segment. *)
Fixpoint segments_go (cur : string) (s : string) : list string :=
  match s with
  | EmptyString => [cur]
  | String c rest =>
      if Ascii.eqb c "/" then cur :: segments_go "" rest
      else segments_go (cur +:+ String c EmptyString) rest
  end.

Definition segments (s : string) : list string := segments_go "" s.

Definition segment_matches (pattern actual : string) : bool :=
  match pattern with
  | String ":" _ => negb (String.eqb actual "")
  | _ => String.eqb pattern actual
  end.

Fixpoint all_match (ps xs : list string) : bool :=
  match ps, xs with
  | [], [] => true
  | p :: ps', x :: xs' => segment_matches p x && all_match ps' xs'
  | _, _ => false
  end.

Definition express (verb pattern : string) (req : Request) : bool :=
  (String.eqb verb "all" ||
   String.eqb verb (toLowerCase (req_method req)) ||
   (String.eqb verb "get" && String.eqb (req_method req) "HEAD")) &&
  all_match (segments pattern) (segments (req_path req)).

(** *** [src/examples/middleware/validation-middleware.tsx] *)

(** An issue of a schema library's error: where, what, and its code. *)
Record ZodIssue : Type := mkIssue {
  issue_path : list JsValue;
  issue_message : string;
  issue_code : string
}.

(** What [schema.safeParse(input)] returns: [{ success: true, data }] or
    [{ success: false, error }], the error with its [issues]. *)
Inductive SafeParseResult : Type :=
| ParseSuccess (data : JsValue)
| ParseFailure (issues : list ZodIssue).

(** An item of an array under [join]: null and undefined give the empty
    string. *)
Definition item_string (x : JsValue) : string :=
  match x with
  | JUndefined | JNull => ""
  | _ => js_String x
  end.

(** [(err) => ({ path: err.path.join("."), message: err.message,
    code: err.code })] *)
Definition formatted (err : ZodIssue) : JsValue :=
  JObj [("path", JStr (join "." (map item_string (issue_path err))));
        ("message", JStr (issue_message err));
        ("code", JStr (issue_code err))].

(** [if (errors.k) formattedErrors.k = errors.k.issues.map(...)] *)
Definition part (k : string) (error : option (list ZodIssue)) : list (string * JsValue) :=
  match error with
  | Some issues => [(k, JArr (map formatted issues))]
  | None => []
  end.

(** [formattedErrors] *)
Definition formattedErrors (body params query : option (list ZodIssue)) : JsValue :=
  JObj (part "body" body ++ part "params" params ++ part "query" query).

(** The response of a failed validation. *)
Definition validation_failed (details : JsValue) : JsValue :=
  Response [("status", JNum 400);
            ("json", JObj [("error", JStr "Validation failed");
                           ("message", JStr "One or more validation errors occurred");
                           ("details", details)])].

Section Validation.

(** The schema library: [schema.safeParse(input)], which throws [inl e]
    when [schema] is not one of its schemas. *)
Variable safeParse : JsValue -> JsValue -> JsValue + SafeParseResult.

(** One of the three blocks [if (schema) { const result =
    schema.safeParse(input); if (!result.success) errors.key = result.error;
    else useSetContext(key, result.data); }]; [k] is the rest of the body,
    given [errors.key]. *)
Definition validated (schema input : JsValue) (key : string)
    (k : option (list ZodIssue) -> Script unit) : Script unit :=
  if truthy schema then
    match safeParse schema input with
    | inl e => Throw e
    | inr (ParseFailure issues) => k (Some issues)
    | inr (ParseSuccess data) => UseSetContext key data (k None)
    end
  else k None.

Definition validationMiddleware : Middleware :=
  fun req =>
    UseContext "_bodySchema" (fun bodySchema =>
    UseContext "_querySchema" (fun querySchema =>
    UseContext "_paramsSchema" (fun paramsSchema =>
    validated bodySchema (req_body req) "body" (fun body =>
    validated paramsSchema (req_params req) "params" (fun params =>
    validated querySchema (req_query req) "query" (fun query =>
      match body, params, query with
      | None, None, None => CallNext tt Done
      | _, _, _ => Return (validation_failed (formattedErrors body params query))
      end)))))).

End Validation.

(** The schema library on the schema [z.object({ name: z.string() })] of
    the example application, for an input that is an object: the parsed
    data keeps the name alone. *)
Definition parse_name (schema input : JsValue) : JsValue + SafeParseResult :=
  match get input "name" with
  | JStr s => inr (ParseSuccess (JObj [("name", JStr s)]))
  | JUndefined => inr (ParseFailure [mkIssue [JStr "name"] "Required" "invalid_type"])
  | _ => inr (ParseFailure
                [mkIssue [JStr "name"] "Expected string" "invalid_type"])
  end.

(** [POST /hello] with the body [b]. *)
Definition hello (b : JsValue) : Request :=
  {| req_method := "POST"; req_path := "/hello"; req_originalUrl := "/hello";
     req_params := JObj []; req_query := JObj [];
     req_body := b; req_headers := JObj [] |}.

(** [POST /hello] behind the logging middleware of the App and the
    validation middleware of the Route, with the schema of the example. *)
Definition hello_p : Props Element :=
  route_props "/hello" "POST" (MwOne (validationMiddleware parse_name)) schema greet.

Definition hello_app : Element :=
  App (app_props JUndefined (MwMany [loggingMiddleware 5]) [Route hello_p]).

Definition hello_def : RouteDefinition :=
  {| r_method := "post"; r_path := "/hello"; r_handler := EFun greet;
     r_middlewares := [loggingMiddleware 5; validationMiddleware parse_name];
     r_querySchema := JUndefined; r_bodySchema := schema |}.

Definition hello_store : Store :=
  {| routes := [hello_def];
     appConfig := {| cfg_port := JNum 9000; cfg_cors := JBool true |} |}.

(** An App inside a RouteGroup. *)
Definition app_in_group : Element :=
  RouteGroup
    (group_props (Some "/api") (MwOne adminLogMiddleware)
       [App (app_props JUndefined (MwMany [loggingMiddleware 5]) [Route users_p])]).

(** *** Middlewares for the edge cases of the chain *)


(** [async (req, next) => { await next(); }]: the result of the rest of
    the chain is dropped. *)
Definition forgetful : Middleware :=
  fun req => CallNext tt (fun rest =>
               match rest with
               | Normal _ => Return JUndefined
               | Abrupt e => Throw e
               end).

(** A handler that answers on [res] itself and returns nothing. *)
Definition answers_itself : Handler :=
  OnRes (OpStatus (JNum 204)) (OnRes OpEnd (Return JUndefined)).

(** An App that names its port. *)
Definition app_on_3000_p : Props Element :=
  app_props (JNum 3000) MwAbsent [me_route].

Definition app_on_3000 : Element := jsx "App" App app_on_3000_p.

(** The protected group with its Middleware node after its Route. *)
Definition auth_node : Element :=
  jsx "Middleware" MiddlewareNode (use_props (MwOne authMiddleware)).

Definition protected_late : Element :=
  ENode (TyStr "RouteGroup") (with_children protected_p (EArr [me_route; auth_node])).

(** A Route with a path and a handler and no method, inside a group. *)
Definition methodless_p : Props Element :=
  {| children := EFun me; port := JUndefined; cors := JUndefined;
     middleware := MwAbsent; prefix := None; path := Some "/me"; method := None;
     query := JUndefined; body := JUndefined; use := MwAbsent |}.

Definition methodless_group : Element :=
  RouteGroup (group_props (Some "/api") MwAbsent [Route methodless_p]).

(** An application with a catch-all Route, for every method. *)
Definition fallback_p : Props Element :=
  route_props "*" "ALL" MwAbsent JUndefined greet.

Definition fallback_def : RouteDefinition :=
  {| r_method := "all"; r_path := "*"; r_handler := EFun greet;
     r_middlewares := []; r_querySchema := JUndefined; r_bodySchema := JUndefined |}.

(** A Route whose children is a text, not a function. *)
Definition text_route_p : Props Element :=
  {| children := EText "hello"; port := JUndefined; cors := JUndefined;
     middleware := MwAbsent; prefix := None; path := Some "/hello";
     method := Some "GET"; query := JUndefined; body := JUndefined;
     use := MwAbsent |}.

(** A Route with a method that the transport has no registrar for. *)
Definition trace_p : Props Element :=
  route_props "/debug" "TRACE" MwAbsent JUndefined me.

Definition trace_def : RouteDefinition :=
  {| r_method := "trace"; r_path := "/debug"; r_handler := EFun me;
     r_middlewares := []; r_querySchema := JUndefined; r_bodySchema := JUndefined |}.

Definition trace_store : Store :=
  {| routes := [trace_def]; appConfig := appConfig empty_store |}.

(** The user route declared a second time, with another handler. *)
Definition users_again : RouteDefinition :=
  {| r_method := "get"; r_path := "/api/users/:id"; r_handler := EFun failing;
     r_middlewares := []; r_querySchema := JUndefined; r_bodySchema := JUndefined |}.

Definition me_def_bare : RouteDefinition :=
  {| r_method := "get"; r_path := "/me"; r_handler := EFun me;
     r_middlewares := []; r_querySchema := JUndefined; r_bodySchema := JUndefined |}.

Definition app_with_fallback : Element :=
  App (app_props JUndefined MwAbsent [Route me_p; Route fallback_p]).

End Examples.

(* ===================================================================== *)
(** ** Properties of the transport calls *)
(* ===================================================================== *)

Module TransportFacts.

Import Transport.

Lemma setHeaders_unsent (es : list (string * JsValue)) (r : Res) :
  headersSent r = false ->
  forallb (fun kv => accepts (fst kv) (snd kv)) es = true ->
  setHeaders es r =
    (inr tt, mkRes false (statusCode r) (set_all es (headers r)) (sent r)).
Proof.
  revert r. induction es as [|[h v] es IH]; intros r Hr Hok.
  - destruct r; simpl in *; subst; reflexivity.
  - cbn [forallb fst snd] in Hok. apply andb_prop in Hok as [Hhv Hes].
    unfold accepts in Hhv.
    simpl. unfold bind, setHeader. rewrite Hr.
    destruct (refused h v); [discriminate Hhv|].
    rewrite IH by (reflexivity || exact Hes). reflexivity.
Qed.

(** The loop stops at the first header the transport refuses, with
    nothing sent. *)
Lemma setHeaders_refused (es : list (string * JsValue)) (r : Res) :
  headersSent r = false ->
  forallb (fun kv => accepts (fst kv) (snd kv)) es = false ->
  exists e r', setHeaders es r = (inl e, r') /\
               headersSent r' = false /\ sent r' = sent r.
Proof.
  revert r. induction es as [|[h v] es IH]; intros r Hr Hbad; [discriminate Hbad|].
  cbn [forallb fst snd] in Hbad.
  simpl. unfold bind, setHeader. rewrite Hr. unfold accepts in Hbad.
  destruct (refused h v) as [e|].
  - exists e, r. auto.
  - cbn [andb] in Hbad.
    destruct (IH (mkRes false (statusCode r) (<[toLowerCase h := v]> (headers r)) (sent r))
                eq_refl Hbad) as (e & r' & -> & Hs & Hb).
    exists e, r'. auto.
Qed.

Lemma set_all_other (es : list (string * JsValue)) (hs : gmap string JsValue)
    (h : string) :
  ~ In h (map (fun kv => toLowerCase (fst kv)) es) -> set_all es hs !! h = hs !! h.
Proof.
  revert hs. induction es as [|[k x] es IH]; intros hs Hn; [reflexivity|].
  unfold set_all in *; simpl in *. rewrite IH by tauto.
  apply lookup_insert_ne. intros Heq. apply Hn. left. exact Heq.
Qed.

(** Each entry of an object whose keys differ by more than the case of
    their letters ends up in the table, under its name in lower case. *)
Lemma set_all_lookup (es : list (string * JsValue)) (hs : gmap string JsValue)
    (h : string) (v : JsValue) :
  List.NoDup (map (fun kv => toLowerCase (fst kv)) es) -> In (h, v) es ->
  set_all es hs !! toLowerCase h = Some v.
Proof.
  revert hs. induction es as [|[k x] es IH]; intros hs Hnd Hin; [destruct Hin|].
  inversion Hnd as [|? ? Hk Hnd']; subst.
  destruct Hin as [Heq|Hin].
  - inversion Heq; subst.
    change (set_all ((h, v) :: es) hs) with (set_all es (<[toLowerCase h := v]> hs)).
    rewrite set_all_other by exact Hk. apply lookup_insert_eq.
  - change (set_all ((k, x) :: es) hs) with (set_all es (<[toLowerCase k := x]> hs)).
    apply IH; assumption.
Qed.

End TransportFacts.

(* ===================================================================== *)
(** ** Output normalization *)
(* ===================================================================== *)

Module Normalization.

Import Transport Engine TransportFacts.

Lemma isResponseElement_object (output : JsValue) :
  isResponseElement output = true -> exists fields, output = JObj fields.
Proof.
  destruct output; unfold isResponseElement; simpl; try discriminate; eauto.
Qed.

(** C3, as stated, fails: the transport has the last word on a status
    and on a header. A handler returns the node [Examples.too_high],
    [Response({ text: "hi", status: 1000 })]: [res.status(1000)] throws, so
    no text is sent with the provided status; the [catch] block answers
    500 with [{ error: "Internal server error" }]. *)
Lemma status_out_of_range_answers_500 :
  isResponseElement Examples.too_high = true /\
  sendResponseFromOutput Examples.too_high fresh =
    (inl (invalid_status (JNum 1000)), fresh) /\
  scoped (Examples.request "GET" "/hi" [])
    (Compiler.EFun (Ambient.Return Examples.too_high)) [] [] Examples.idle =
    Some (None,
          Ambient.mkWorld None ∅
            (mkRes true (JNum 500) ∅
               (Some (BodyJson (error_body "Internal server error"))))).
Proof.
  split; [reflexivity|]. split; [reflexivity|].
  unfold scoped, runChain. reflexivity.
Qed.

(** C3, amended. A Response node on a response not yet sent, when the
    transport accepts what the node asks for: every provided header (its
    name an HTTP token, its value not undefined and made of header
    characters) and the status where one is applied (an integer from 100 to
    999). The provided headers are set first (each entry of the [headers]
    object is in the table [hs], under its name in lower case), and then
    exactly the first branch that applies decides status and body: a
    (truthy) [redirect] redirects with [status] when that is a (non-zero)
    number and with 302 otherwise; else a [text] that is not undefined is
    sent as text/plain; else [html] as text/html; else [json] as JSON, each
    with the (truthy) [status] when one is provided; else a lone [status]
    ends the response without a body; else it ends with 200. When the
    transport refuses a header or the status, the call throws and nothing
    is sent, so that the [catch] block of the request handler answers
    500. *)
Theorem response_node_first_match (output : JsValue) (r : Res) :
  isResponseElement output = true ->
  headersSent r = false ->
  let props := js_or (get output "props") (JObj []) in
  let status := get props "status" in
  let json := get props "json" in
  let text := get props "text" in
  let html := get props "html" in
  let redirect := get props "redirect" in
  let provided :=
    if truthy (get props "headers") && typeof_object (get props "headers")
    then entries (get props "headers") else [] in
  let hs := set_all provided (headers r) in
  let code := if truthy status then status else statusCode r in
  let applied := truthy status && (negb (truthy redirect) || typeof_number status) in
  let accepted :=
    forallb (fun kv => accepts (fst kv) (snd kv)) provided &&
    (negb applied || valid_status status) in
  (accepted = true ->
   sendResponseFromOutput output r =
     (inr tt,
      if truthy redirect then
        mkRes true (if truthy status && typeof_number status then status else JNum 302)
              hs (Some (BodyRedirect redirect))
      else if defined text then
        mkRes true code (<["content-type" := JStr "text/plain"]> hs)
              (Some (BodyText (js_String text)))
      else if defined html then
        mkRes true code (<["content-type" := JStr "text/html"]> hs)
              (Some (BodyText (js_String html)))
      else if defined json then
        mkRes true code hs (Some (BodyJson json))
      else if truthy status then
        mkRes true status hs (Some BodyEmpty)
      else
        mkRes true (JNum 200) hs (Some BodyEmpty))) /\
  (accepted = false ->
   exists e r', sendResponseFromOutput output r = (inl e, r') /\
                headersSent r' = false /\ sent r' = sent r /\
                catchBlock r' =
                  (inr tt, mkRes true (JNum 500) (headers r')
                             (Some (BodyJson (error_body "Internal server error"))))) /\
  (List.NoDup (map (fun kv => toLowerCase (fst kv)) provided) ->
   forall h v, In (h, v) provided -> hs !! toLowerCase h = Some v).
Proof.
  intros Hresp Hunsent. cbv zeta.
  split; [|split]; [| |intros Hkeys h v Hin; now apply set_all_lookup].
  - intros Hacc. apply andb_prop in Hacc as [Hhs Hst].
    destruct (isResponseElement_object _ Hresp) as [fields ->].
    unfold sendResponseFromOutput.
    change (truthy (JObj fields)) with true.
    change (typeof_object (JObj fields)) with true.
    change (negb true) with false. cbv iota. rewrite Hresp.
    revert Hhs Hst.
    generalize (js_or (get (JObj fields) "props") (JObj [])). intros props Hhs Hst.
    unfold sendResponseNode, bind, when.
    assert (Hset : (if truthy (get props "headers") && typeof_object (get props "headers")
                    then setHeaders (entries (get props "headers")) else ret tt) r =
                   (inr tt, mkRes false (statusCode r)
                      (set_all (if truthy (get props "headers") &&
                                   typeof_object (get props "headers")
                                then entries (get props "headers") else [])
                               (headers r)) (sent r))).
    { destruct (truthy (get props "headers") && typeof_object (get props "headers")).
      - apply setHeaders_unsent; assumption.
      - destruct r; simpl in *; subst; reflexivity. }
    rewrite Hset. clear Hset Hhs.
    destruct (truthy (get props "redirect")).
    { cbn [negb orb] in Hst. unfold redirect. cbn [headersSent].
      destruct (truthy (get props "status")), (typeof_number (get props "status"));
        cbn [andb negb orb] in Hst |- *; try rewrite Hst; reflexivity. }
    cbn [negb orb] in Hst. rewrite Bool.andb_true_r in Hst.
    assert (Hstatus : forall r0,
              (if truthy (get props "status") then Transport.status (get props "status")
               else ret tt) r0 =
              (inr tt, mkRes (headersSent r0)
                         (if truthy (get props "status") then get props "status"
                          else statusCode r0) (headers r0) (sent r0))).
    { intros r0. destruct (truthy (get props "status")).
      - cbn [negb orb] in Hst. unfold Transport.status. now rewrite Hst.
      - destruct r0; reflexivity. }
    destruct (defined (get props "text")).
    { rewrite Hstatus. reflexivity. }
    destruct (defined (get props "html")).
    { rewrite Hstatus. reflexivity. }
    destruct (defined (get props "json")).
    { rewrite Hstatus. reflexivity. }
    destruct (truthy (get props "status")).
    + cbn [negb orb] in Hst. unfold Transport.status. rewrite Hst. reflexivity.
    + reflexivity.
  - intros Hacc.
    assert (Hthrows : exists e r', sendResponseFromOutput output r = (inl e, r') /\
                                   headersSent r' = false /\ sent r' = sent r).
    { destruct (isResponseElement_object _ Hresp) as [fields ->].
      unfold sendResponseFromOutput.
      change (truthy (JObj fields)) with true.
      change (typeof_object (JObj fields)) with true.
      change (negb true) with false. cbv iota. rewrite Hresp.
      revert Hacc.
      generalize (js_or (get (JObj fields) "props") (JObj [])). intros props Hacc.
      unfold sendResponseNode, bind, when.
      destruct (forallb (fun kv => accepts (fst kv) (snd kv))
                  (if truthy (get props "headers") && typeof_object (get props "headers")
                   then entries (get props "headers") else [])) eqn:Hhs.
      + assert (Hset : (if truthy (get props "headers") &&
                           typeof_object (get props "headers")
                        then setHeaders (entries (get props "headers")) else ret tt) r =
                       (inr tt, mkRes false (statusCode r)
                          (set_all (if truthy (get props "headers") &&
                                       typeof_object (get props "headers")
                                    then entries (get props "headers") else [])
                                   (headers r)) (sent r))).
        { destruct (truthy (get props "headers") && typeof_object (get props "headers")).
          - apply setHeaders_unsent; assumption.
          - destruct r; simpl in *; subst; reflexivity. }
        rewrite Hset. clear Hset Hhs. cbn [andb] in Hacc.
        apply Bool.orb_false_iff in Hacc as [Happlied Hbad].
        apply Bool.negb_false_iff, andb_prop in Happlied as [Ht Hwhere].
        rewrite Ht.
        destruct (truthy (get props "redirect")).
        { cbn [negb orb] in Hwhere. rewrite Hwhere. cbn [andb].
          unfold redirect. cbn [headersSent]. rewrite Hbad. eauto. }
        unfold Transport.status. rewrite Hbad.
        destruct (defined (get props "text")); [eauto|].
        destruct (defined (get props "html")); [eauto|].
        destruct (defined (get props "json")); eauto.
      + destruct (truthy (get props "headers") && typeof_object (get props "headers")).
        * destruct (setHeaders_refused _ r Hunsent Hhs) as (e & r' & -> & Hs & Hb).
          eauto.
        * discriminate Hhs. }
    destruct Hthrows as (e & r' & Hrun & Hs & Hb).
    exists e, r'. repeat (split; [assumption|]).
    destruct r' as [was code hs b]. cbn in Hs. subst was. reflexivity.
Qed.

(** The scenario of the specification: the node gives status 201, header
    [X-A: 1] and the JSON body. *)
Lemma response_node_first_match_witness :
  sendResponseFromOutput Examples.created fresh =
    (inr tt, mkRes true (JNum 201) (<["x-a" := JStr "1"]> ∅)
                   (Some (BodyJson (JObj [("msg", JStr "x")])))).
Proof.
  exact (proj1 (response_node_first_match Examples.created fresh eq_refl eq_refl)
           eq_refl).
Defined.



End Normalization.

(* ===================================================================== *)
(** ** The middleware chain *)
(* ===================================================================== *)

Module ChainFacts.

Import Ambient.

(** A handler has no continuation: it always completes, and touches
    neither [middlewareIndex] nor the record of what ran. *)
Lemma interp_handler (h : Handler) (st : St) :
  exists c w', interp no_next h st =
                 Some (c, mkSt (middlewareIndex st) (ran st) w').
Proof.
  revert st. induction h as [v|e|n k IH|key value k IH|key k IH|k IH|k IH|op k IH];
    intros st; simpl.
  - destruct st; eauto.
  - destruct st; eauto.
  - destruct n.
  - destruct (IH (on_world (useSetContext key value) st)) as (c & w' & ->). eauto.
  - apply IH.
  - apply IH.
  - destruct (useRoute (world st)); [destruct st; eauto|apply IH].
  - destruct (run_op op (res (world st))) as [[e|[]] r'].
    + destruct st; simpl; eauto.
    + destruct (IH (on_world (set_res r') st)) as (c & w' & ->). eauto.
Qed.

(** A body keeps every invariant that its continuation keeps and that does
    not depend on the world. *)
Lemma interp_keeps {N} (I : St -> Prop) (next : N -> St -> option (Completion * St)) :
  (forall f st, I st -> I (on_world f st)) ->
  (forall n st, I st -> exists c st', next n st = Some (c, st') /\ I st') ->
  forall p st, I st -> exists c st', interp next p st = Some (c, st') /\ I st'.
Proof.
  intros Hworld Hnext.
  induction p as [v|e|n k IH|key value k IH|key k IH|k IH|k IH|op k IH];
    intros st Hst; simpl; eauto.
  - destruct (Hnext n st Hst) as (c & st' & -> & Hst'). eauto.
  - destruct (useRoute (world st)); eauto.
  - destruct (run_op op (res (world st))) as [[e|[]] r']; eauto.
Qed.

Section Run.

Variable req : Request.
Variable handler : Handler.
Variable middlewares : list Middleware.

Let n := length middlewares.
Let exec (fuel : nat) := executeNextMiddleware fuel req handler middlewares.

Lemma exec_S (fuel : nat) (st : St) :
  exec (S fuel) st =
    if (n <=? middlewareIndex st)%nat then
      interp no_next handler
        (mkSt (middlewareIndex st) (ran st ++ [RanHandler]) (world st))
    else
      match middlewares !! middlewareIndex st with
      | Some currentMiddleware =>
          interp (fun _ => exec fuel) (currentMiddleware req)
            (mkSt (S (middlewareIndex st))
                  (ran st ++ [RanMiddleware (middlewareIndex st)]) (world st))
      | None =>
          Some (Normal JUndefined,
                mkSt (S (middlewareIndex st))
                     (ran st ++ [RanMiddleware (middlewareIndex st)]) (world st))
      end.
Proof. reflexivity. Qed.

Lemma repeat_snoc {A} (x : A) (h : nat) : repeat x h ++ [x] = repeat x (S h).
Proof. induction h; simpl; [reflexivity|]. now rewrite IHh. Qed.

(** [executeNextMiddleware] returns whenever the fuel covers the
    middlewares not yet started, and it keeps the run ordered. *)
Lemma exec_ordered (fuel : nat) :
  forall st, ordered n st -> (n < fuel + middlewareIndex st)%nat ->
    exists c st', exec fuel st = Some (c, st') /\ ordered n st' /\
                  (middlewareIndex st <= middlewareIndex st')%nat.
Proof.
  induction fuel as [|fuel IH]; intros st Hord Hfuel.
  - destruct Hord as [Hle _]. lia.
  - rewrite exec_S.
    destruct Hord as (Hle & h & Hran & Hh).
    destruct (Nat.leb_spec n (middlewareIndex st)) as [Hdone|Hmore].
    + destruct (interp_handler handler
                  (mkSt (middlewareIndex st) (ran st ++ [RanHandler]) (world st)))
        as (c & w' & ->). simpl.
      exists c, (mkSt (middlewareIndex st) (ran st ++ [RanHandler]) w').
      split; [reflexivity|]. split; [|simpl; lia].
      split; [exact Hle|]. exists (S h). simpl middlewareIndex. simpl ran.
      split; [|intros _; lia].
      rewrite Hran. rewrite <- app_assoc. now rewrite repeat_snoc.
    + assert (Hh0 : h = 0%nat) by (destruct h; [reflexivity|]; specialize (Hh ltac:(lia)); lia).
      subst h. simpl in Hran. rewrite app_nil_r in Hran.
      set (st1 := mkSt (S (middlewareIndex st))
                       (ran st ++ [RanMiddleware (middlewareIndex st)]) (world st)).
      assert (Hord1 : ordered n st1 /\ (S (middlewareIndex st) <= middlewareIndex st1)%nat).
      { split; [|simpl; lia]. split; [simpl; lia|]. exists 0%nat.
        unfold st1. cbn [middlewareIndex ran repeat].
        split; [|intros Hc; now destruct Hc].
        rewrite app_nil_r, Hran. rewrite seq_S, map_app. reflexivity. }
      destruct (middlewares !! middlewareIndex st) as [m|].
      * destruct (interp_keeps
                    (fun s => ordered n s /\
                              (S (middlewareIndex st) <= middlewareIndex s)%nat)
                    (fun _ : unit => exec fuel))
          with (p := m req) (st := st1) as (c & st' & Hrun & Hord' & Hidx).
        -- intros f s Hs. exact Hs.
        -- intros _ s [Hs Hi]. destruct (IH s Hs ltac:(lia)) as (c & s' & Hex & Hs' & Hi').
           exists c, s'. split; [exact Hex|]. split; [exact Hs'|lia].
        -- exact Hord1.
        -- exists c, st'. split; [exact Hrun|]. split; [exact Hord'|lia].
      * exists (Normal JUndefined), st1. split; [reflexivity|].
        split; [apply Hord1|simpl; lia].
Qed.


(** While the middlewares pass on, the run goes down the chain: what
    [executeNextMiddleware] gives in [st] is what it gives in [st'], with
    the world as the middlewares leave it on the way back. *)
Lemma exec_passed (st st' : St) (post : Completion -> World -> World) :
  PassedOn req middlewares st st' post ->
  (middlewareIndex st <= middlewareIndex st')%nat /\
  ran st' = ran st ++
            map RanMiddleware
                (seq (middlewareIndex st) (middlewareIndex st' - middlewareIndex st)) /\
  forall fuel,
    exec ((middlewareIndex st' - middlewareIndex st) + fuel) st =
      match exec fuel st' with
      | Some (c, s) => Some (c, on_world (post c) s)
      | None => None
      end.
Proof.
  induction 1 as [st|st st' m pre post post' Hm Hpass Hrest IH].
  - split; [lia|]. rewrite Nat.sub_diag. cbn [seq map]. rewrite app_nil_r.
    split; [reflexivity|]. intros fuel. cbn [Nat.add].
    destruct (exec fuel st) as [[c [i t w]]|]; reflexivity.
  - destruct IH as (Hle & Hran & Hexec).
    cbn [on_world started middlewareIndex ran world] in Hle, Hran, Hexec.
    pose proof (lookup_lt_Some _ _ _ Hm) as Hlt. fold n in Hlt.
    split; [lia|]. split.
    + rewrite Hran.
      replace (middlewareIndex st' - middlewareIndex st)%nat
        with (S (middlewareIndex st' - S (middlewareIndex st))) by lia.
      rewrite <- app_assoc. reflexivity.
    + intros fuel.
      replace (middlewareIndex st' - middlewareIndex st + fuel)%nat
        with (S (middlewareIndex st' - S (middlewareIndex st) + fuel)) by lia.
      rewrite exec_S.
      destruct (Nat.leb_spec n (middlewareIndex st)) as [Hdone|_]; [lia|].
      rewrite Hm. fold (started st). rewrite (Hpass _), Hexec.
      destruct (exec fuel st') as [[c s]|]; reflexivity.
Qed.

End Run.

End ChainFacts.

(* ===================================================================== *)
(** ** The compiled route table *)
(* ===================================================================== *)

Module CompilerFacts.

Import Ambient Compiler.

Section Element_induction.

Variable P : Element -> Prop.
Hypothesis HNone : P ENone.
Hypothesis HText : forall s, P (EText s).
Hypothesis HFun : forall h, P (EFun h).
Hypothesis HArr : forall items, Forall P items -> P (EArr items).
Hypothesis HNode : forall ty props,
    Forall P (as_array (children props)) -> P (ENode ty props).
Hypothesis HComp : forall name props rendered,
    P rendered -> P (EComp name props rendered).

Fixpoint Element_nested_ind (e : Element) : P e :=
  match e with
  | ENone => HNone
  | EText s => HText s
  | EFun h => HFun h
  | EArr items =>
      HArr items
        ((fix all (l : list Element) : Forall P l :=
            match l with
            | [] => List.Forall_nil P
            | x :: l' => @List.Forall_cons _ P x l' (Element_nested_ind x) (all l')
            end) items)
  | ENode ty props =>
      HNode ty props
        (match children props as c return P c -> Forall P (as_array c) with
         | EArr items => fun _ =>
             (fix all (l : list Element) : Forall P l :=
                match l with
                | [] => List.Forall_nil P
                | x :: l' => @List.Forall_cons _ P x l' (Element_nested_ind x) (all l')
                end) items
         | _ => fun H => @List.Forall_cons _ P _ [] H (List.Forall_nil P)
         end (Element_nested_ind (children props)))
  | EComp name props rendered => HComp name props rendered (Element_nested_ind rendered)
  end.

End Element_induction.

Lemma append_assoc (a b c : string) : (a +:+ b) +:+ c = a +:+ (b +:+ c).
Proof.
  induction a as [|x a IH]; [reflexivity|].
  change (String x ((a +:+ b) +:+ c) = String x (a +:+ (b +:+ c))).
  now rewrite IH.
Qed.

Lemma append_nil_r (a : string) : a +:+ "" = a.
Proof.
  induction a as [|x a IH]; [reflexivity|].
  change (String x (a +:+ "") = String x a). now rewrite IH.
Qed.

Lemma is_kind_only (ty : NodeType) (a b : string) :
  is_kind ty a = true -> a <> b -> is_kind ty b = false.
Proof.
  destruct ty as [|s|name]; simpl; try discriminate.
  - intros Ha Hab. apply String.eqb_eq in Ha. subst. now apply String.eqb_neq.
  - destruct name; simpl; try discriminate.
    intros Ha Hab. apply String.eqb_eq in Ha. subst. now apply String.eqb_neq.
Qed.

Lemma is_kind_truthy (ty : NodeType) (k : string) :
  is_kind ty k = true -> k <> "" -> type_truthy ty = true.
Proof.
  destruct ty as [|s|name]; simpl; try discriminate; [|reflexivity].
  intros Hk Hne. apply String.eqb_eq in Hk. subst.
  apply Bool.negb_true_iff. now apply String.eqb_neq.
Qed.

Lemma forEach_one (f : Element -> Store -> Outcome) (c : Element) (st : Store) :
  forEach f [c] st = f c st.
Proof. simpl. destruct (f c st) as [[e|] st']; reflexivity. Qed.

(** [if (Array.isArray(c)) c.forEach(f); else f(c);] under [if (c)] is the
    loop over [as_array c]. *)
Lemma children_forEach (c : Element) pathPrefix middlewares st :
  match c with
  | EArr items => forEach (fun el => processElement el pathPrefix middlewares) items st
  | _ => if elem_truthy c then processElement c pathPrefix middlewares st else (None, st)
  end = forEach (fun el => processElement el pathPrefix middlewares) (as_array c) st.
Proof.
  destruct c; simpl as_array; try rewrite forEach_one; try reflexivity.
  simpl. destruct (negb (s =? "")%string); reflexivity.
Qed.

Lemma others_one (f : Element -> Store -> Outcome) (c : Element) (st : Store) :
  others f [c] st = if is_middleware_node c then (None, st) else f c st.
Proof.
  unfold others. destruct (is_middleware_node c); [reflexivity|].
  destruct (f c st) as [[e|] st']; reflexivity.
Qed.

Lemma children_others (c : Element) pathPrefix middlewares st :
  match c with
  | EArr items => others (fun el => processElement el pathPrefix middlewares) items st
  | _ => if elem_truthy c && negb (is_middleware_node c)
         then processElement c pathPrefix middlewares st else (None, st)
  end = others (fun el => processElement el pathPrefix middlewares) (as_array c) st.
Proof.
  destruct c; try reflexivity; cbn [as_array]; rewrite others_one;
    cbn [elem_truthy andb];
    match goal with
    | |- context [is_middleware_node ?c] => destruct (is_middleware_node c)
    end; cbn [negb andb]; try reflexivity.
  - rewrite Bool.andb_false_r. reflexivity.
  - rewrite Bool.andb_true_r. destruct (negb (s =? "")%string); reflexivity.
Qed.

(** The second pass is the loop over the children that are not Middleware
    nodes. *)
Lemma others_filter (f : Element -> Store -> Outcome) (items : list Element) (st : Store) :
  others f items st =
    forEach f (List.filter (fun c => negb (is_middleware_node c)) items) st.
Proof.
  revert st. induction items as [|c items IH]; intros st; [reflexivity|].
  simpl. destruct (is_middleware_node c); simpl; [apply IH|].
  destruct (f c st) as [[e|] st']; [reflexivity|apply IH].
Qed.

Lemma Adds_nothing Q st : Adds Q st st.
Proof. exists []. split; [now rewrite app_nil_r|constructor]. Qed.

Lemma Adds_weaken (Q Q' : RouteDefinition -> Prop) st st' :
  (forall r, Q r -> Q' r) -> Adds Q st st' -> Adds Q' st st'.
Proof.
  intros HQ (new & Hr & Hall). exists new. split; [exact Hr|].
  eapply List.Forall_impl; [|exact Hall]. exact HQ.
Qed.

Lemma Adds_trans Q st1 st2 st3 : Adds Q st1 st2 -> Adds Q st2 st3 -> Adds Q st1 st3.
Proof.
  intros (n1 & H1 & A1) (n2 & H2 & A2). exists (n1 ++ n2).
  split; [rewrite H2, H1; now rewrite app_assoc|].
  apply Forall_app; split; assumption.
Qed.

Lemma forEach_adds (f : Element -> Store -> Outcome)
    (Q : Element -> RouteDefinition -> Prop) (items : list Element) :
  Forall (fun el => forall st out st', f el st = (out, st') -> Adds (Q el) st st') items ->
  forall st out st', forEach f items st = (out, st') ->
    Adds (fun r => exists el, In el items /\ Q el r) st st'.
Proof.
  induction 1 as [|el items Hel Hitems IH]; intros st out st' Hrun; simpl in Hrun.
  - inversion Hrun; subst. apply Adds_nothing.
  - destruct (f el st) as [[e|] st1] eqn:Hf.
    + inversion Hrun; subst. eapply Adds_weaken; [|apply (Hel _ _ _ Hf)].
      intros r Hr. exists el. split; [now left|exact Hr].
    + eapply Adds_trans.
      * eapply Adds_weaken; [|apply (Hel _ _ _ Hf)].
        intros r Hr. exists el. split; [now left|exact Hr].
      * eapply Adds_weaken; [|apply (IH _ _ _ Hrun)].
        intros r (el' & Hin & Hr). exists el'. split; [now right|exact Hr].
Qed.

(** [processElement] on a node, with the loops over [as_array]. *)
Lemma processElement_node ty props pathPrefix middlewares st :
  processElement (ENode ty props) pathPrefix middlewares st =
    if type_truthy ty && is_kind ty "App" then
      forEach (fun c => processElement c pathPrefix
                          (middlewares ++ pushed (middleware props)))
              (as_array (children props))
              {| routes := routes st;
                 appConfig := {| cfg_port := js_or (port props) (JNum 9000);
                                 cfg_cors := cors props |} |}
    else if type_truthy ty && is_kind ty "RouteGroup" then
      others (fun c => processElement c
                         (if present (prefix props)
                          then pathPrefix +:+ text (prefix props) else pathPrefix)
                         ((middlewares ++ pushed (middleware props)) ++
                          (if elem_truthy (children props)
                           then flat_map collected (as_array (children props))
                           else [])))
             (as_array (children props)) st
    else if type_truthy ty && is_kind ty "Route" then
      processRoute props pathPrefix middlewares st
    else
      forEach (fun c => processElement c pathPrefix middlewares)
              (as_array (children props)) st.
Proof.
  cbn [processElement].
  destruct (type_truthy ty && is_kind ty "App"); [apply children_forEach|].
  destruct (type_truthy ty && is_kind ty "RouteGroup"); [apply children_others|].
  destruct (type_truthy ty && is_kind ty "Route"); [reflexivity|].
  apply children_forEach.
Qed.

Lemma concatenation_app (a b : list string) :
  concatenation (a ++ b) = concatenation a +:+ concatenation b.
Proof.
  induction a as [|x a IH]; [reflexivity|].
  change (x +:+ concatenation (a ++ b) = (x +:+ concatenation a) +:+ concatenation b).
  now rewrite IH, append_assoc.
Qed.

(** A definition emitted for a child is one emitted for its parent, with
    the parent's own prefix and middlewares accounted for. *)
Lemma Emitted_below (e c : Element) pathPrefix middlewares pathPrefix' middlewares' r :
  In c (below e) ->
  pathPrefix' = pathPrefix +:+ concatenation (group_prefixes [e]) ->
  middlewares' = middlewares ++ level e ->
  Emitted c pathPrefix' middlewares' r ->
  Emitted e pathPrefix middlewares r.
Proof.
  intros Hin -> -> (anc & ty & props & Henc & Hk & Hp & Hc & Hm & Hb & ->).
  exists (e :: anc), ty, props.
  split; [eapply down; eassumption|].
  repeat (split; [assumption|]).
  assert (Hgp : group_prefixes (e :: anc) = group_prefixes [e] ++ group_prefixes anc)
    by (unfold group_prefixes; cbn [flat_map]; now rewrite app_nil_r).
  f_equal.
  - rewrite Hgp, concatenation_app, !append_assoc. reflexivity.
  - cbn [flat_map]. now rewrite <- !app_assoc.
Qed.

Lemma collected_falsy (c : Element) :
  elem_truthy c = false -> flat_map collected (as_array c) = [].
Proof. destruct c; simpl; try discriminate; reflexivity. Qed.

Lemma loop_emits (items : list Element) pathPrefix middlewares :
  Forall (fun el => forall pathPrefix middlewares st out st',
            processElement el pathPrefix middlewares st = (out, st') ->
            Adds (Emitted el pathPrefix middlewares) st st') items ->
  forall st out st',
    forEach (fun c => processElement c pathPrefix middlewares) items st = (out, st') ->
    Adds (fun r => exists el, In el items /\ Emitted el pathPrefix middlewares r) st st'.
Proof.
  intros IH.
  apply (forEach_adds _ (fun el => Emitted el pathPrefix middlewares)).
  eapply List.Forall_impl; [|exact IH].
  intros el Hel st0 out0 st0' H0. eapply Hel; exact H0.
Qed.

(** Everything [processElement] adds to [routes] is the definition of a
    Route node of the tree, with the prefixes and middlewares of the nodes
    that enclose it. *)
Lemma processElement_emits (e : Element) :
  forall pathPrefix middlewares st out st',
    processElement e pathPrefix middlewares st = (out, st') ->
    Adds (Emitted e pathPrefix middlewares) st st'.
Proof.
  induction e as [|s|h|items IH|ty props IH|name props rendered IH]
    using Element_nested_ind; intros pfx mws st out st' Hrun.
  - inversion Hrun; subst. apply Adds_nothing.
  - inversion Hrun; subst. apply Adds_nothing.
  - inversion Hrun; subst. apply Adds_nothing.
  - cbn [processElement] in Hrun.
    eapply Adds_weaken; [|eapply loop_emits; [exact IH|exact Hrun]].
    intros r (el & Hin & Hr).
    eapply (Emitted_below (EArr items) el); [exact Hin| | |exact Hr].
    + cbn. now rewrite append_nil_r.
    + cbn. now rewrite app_nil_r.
  - rewrite processElement_node in Hrun.
    destruct (type_truthy ty && is_kind ty "App") eqn:Happ.
    { apply andb_prop in Happ as [_ Happ].
      pose proof (is_kind_only _ _ "RouteGroup" Happ ltac:(discriminate)) as Hng.
      pose proof (is_kind_only _ _ "Route" Happ ltac:(discriminate)) as Hnr.
      destruct (loop_emits _ _ _ IH _ _ _ Hrun) as (new & Hnew & Hall).
      exists new. split; [exact Hnew|].
      eapply List.Forall_impl; [|exact Hall]. intros r (el & Hin & Hr).
      eapply (Emitted_below (ENode ty props) el); [| | |exact Hr].
      - cbn [below]. rewrite Hnr, Hng. exact Hin.
      - cbn. rewrite Hng. cbn. now rewrite append_nil_r.
      - unfold level. cbn. rewrite Happ, Hng. now rewrite app_nil_r. }
    destruct (type_truthy ty && is_kind ty "RouteGroup") eqn:Hgrp.
    { apply andb_prop in Hgrp as [_ Hgrp].
      pose proof (is_kind_only _ _ "App" Hgrp ltac:(discriminate)) as Hna.
      pose proof (is_kind_only _ _ "Route" Hgrp ltac:(discriminate)) as Hnr.
      rewrite others_filter in Hrun.
      assert (IH' : Forall (fun el => forall pathPrefix middlewares st out st',
                        processElement el pathPrefix middlewares st = (out, st') ->
                        Adds (Emitted el pathPrefix middlewares) st st')
                      (List.filter (fun c => negb (is_middleware_node c))
                                   (as_array (children props)))).
      { apply List.Forall_forall. intros el Hel.
        apply List.filter_In in Hel as [Hel _].
        rewrite List.Forall_forall in IH. apply IH. exact Hel. }
      destruct (loop_emits _ _ _ IH' _ _ _ Hrun) as (new & Hnew & Hall).
      exists new. split; [exact Hnew|].
      eapply List.Forall_impl; [|exact Hall]. intros r (el & Hin & Hr).
      eapply (Emitted_below (ENode ty props) el); [| | |exact Hr].
      - cbn [below]. rewrite Hnr, Hgrp. exact Hin.
      - cbn. rewrite Hgrp. destruct (prefix props) as [p|]; cbn.
        + destruct (negb (p =? "")%string) eqn:Hp; cbn.
          * now rewrite append_nil_r.
          * apply Bool.negb_false_iff, String.eqb_eq in Hp. subst.
            cbn. now rewrite append_nil_r.
        + now rewrite append_nil_r.
      - unfold level. cbn. rewrite Hna, Hgrp. cbn.
        destruct (elem_truthy (children props)) eqn:Hc.
        + now rewrite app_assoc.
        + rewrite (collected_falsy _ Hc). now rewrite !app_nil_r. }
    destruct (type_truthy ty && is_kind ty "Route") eqn:Hroute.
    { apply andb_prop in Hroute as [_ Hroute].
      unfold processRoute in Hrun.
      destruct (present (path props) && elem_truthy (children props)) eqn:Hpc;
        [|inversion Hrun; subst; apply Adds_nothing].
      apply andb_prop in Hpc as [Hp Hc].
      destruct (present (method props)) eqn:Hm; cbn [negb] in Hrun;
        [|inversion Hrun; subst; apply Adds_nothing].
      destruct (truthy (body props) &&
                negb (includes bodyAllowedMethods (toUpperCase (text (method props)))))
        eqn:Hb; [inversion Hrun; subst; apply Adds_nothing|].
      inversion Hrun; subst. eexists. split; [reflexivity|].
      constructor; [|constructor].
      exists [], ty, props. split; [constructor|].
      repeat (split; [assumption|]).
      split.
      - intros Hbody. rewrite Hbody in Hb. cbn in Hb.
        now apply Bool.negb_false_iff in Hb.
      - cbn. reflexivity. }
    destruct (loop_emits _ _ _ IH _ _ _ Hrun) as (new & Hnew & Hall).
    exists new. split; [exact Hnew|].
    eapply List.Forall_impl; [|exact Hall]. intros r (el & Hin & Hr).
    assert (Hnr : is_kind ty "Route" = false).
    { destruct (is_kind ty "Route") eqn:E; [|reflexivity].
      rewrite (is_kind_truthy _ _ E) in Hroute by discriminate. discriminate. }
    assert (Hng : is_kind ty "RouteGroup" = false).
    { destruct (is_kind ty "RouteGroup") eqn:E; [|reflexivity].
      rewrite (is_kind_truthy _ _ E) in Hgrp by discriminate. discriminate. }
    assert (Hna : is_kind ty "App" = false).
    { destruct (is_kind ty "App") eqn:E; [|reflexivity].
      rewrite (is_kind_truthy _ _ E) in Happ by discriminate. discriminate. }
    eapply (Emitted_below (ENode ty props) el); [| | |exact Hr].
    + cbn [below]. rewrite Hnr, Hng. exact Hin.
    + cbn. rewrite Hng. cbn. now rewrite append_nil_r.
    + unfold level. cbn. rewrite Hna, Hng. now rewrite app_nil_r.
  - cbn [processElement] in Hrun.
    eapply Adds_weaken; [|eapply IH; exact Hrun].
    intros r Hr. eapply (Emitted_below (EComp name props rendered) rendered);
      [| | |exact Hr].
    + cbn. now left.
    + cbn. now rewrite append_nil_r.
    + cbn. now rewrite app_nil_r.
Qed.

(** [routes] only grows. *)
Lemma processElement_grows e pathPrefix middlewares st out st' :
  processElement e pathPrefix middlewares st = (out, st') ->
  exists new, routes st' = routes st ++ new.
Proof.
  intros H. destruct (processElement_emits _ _ _ _ _ _ H) as (new & Hnew & _). eauto.
Qed.

(** A loop that did not throw ran on every item, and what an item added
    is still there at the end. *)
Lemma forEach_visits (f : Element -> Store -> Outcome) (items : list Element) :
  (forall el st out st', f el st = (out, st') -> exists new, routes st' = routes st ++ new) ->
  forall st st' c, forEach f items st = (None, st') -> In c items ->
    exists st1 st2 new, f c st1 = (None, st2) /\ routes st' = routes st2 ++ new.
Proof.
  intros Hgrow. induction items as [|el items IH]; intros st st' c Hrun Hin;
    [destruct Hin|].
  simpl in Hrun. destruct (f el st) as [[e|] st1] eqn:Hf; [discriminate|].
  destruct Hin as [<-|Hin].
  - exists st, st1.
    assert (Hrest : forall l s s', forEach f l s = (None, s') ->
                      exists new, routes s' = routes s ++ new).
    { clear -Hgrow. induction l as [|x l IHl]; intros s s' Hl; simpl in Hl.
      - inversion Hl; subst. exists []. now rewrite app_nil_r.
      - destruct (f x s) as [[e|] s1] eqn:Hx; [discriminate|].
        destruct (Hgrow _ _ _ _ Hx) as (n1 & H1).
        destruct (IHl _ _ Hl) as (n2 & H2).
        exists (n1 ++ n2). now rewrite H2, H1, app_assoc. }
    destruct (Hrest _ _ _ Hrun) as (new & Hnew). eauto.
  - eapply IH; eassumption.
Qed.

(** When [processElement] did not throw, it went on to every element below,
    with the element's own prefix and middlewares added. *)
Lemma below_processed (e c : Element) pathPrefix middlewares st st' :
  processElement e pathPrefix middlewares st = (None, st') ->
  In c (below e) ->
  exists st1 st2 new,
    processElement c (pathPrefix +:+ concatenation (group_prefixes [e]))
                     (middlewares ++ level e) st1 = (None, st2) /\
    routes st' = routes st2 ++ new.
Proof.
  intros Hrun Hin.
  assert (Hloop : forall items p m s s', In c items ->
            forEach (fun el => processElement el p m) items s = (None, s') ->
            exists st1 st2 new, processElement c p m st1 = (None, st2) /\
                                routes s' = routes st2 ++ new).
  { intros items p m s s' Hc Hl.
    eapply (forEach_visits (fun el => processElement el p m)); [|exact Hl|exact Hc].
    intros el s0 o s0' H0. eapply processElement_grows; exact H0. }
  destruct e as [| | |items|ty props|name props rendered];
    try (now destruct Hin).
  - cbn [processElement] in Hrun. cbn. rewrite append_nil_r, app_nil_r.
    eapply Hloop; eassumption.
  - rewrite processElement_node in Hrun. cbn [below] in Hin.
    destruct (is_kind ty "Route") eqn:Hr; [destruct Hin|].
    destruct (is_kind ty "RouteGroup") eqn:Hg.
    + pose proof (is_kind_only _ _ "App" Hg ltac:(discriminate)) as Hna.
      rewrite Hna, Bool.andb_false_r in Hrun.
      rewrite (is_kind_truthy _ _ Hg) in Hrun by discriminate. cbn [andb] in Hrun.
      rewrite others_filter in Hrun.
      destruct (Hloop _ _ _ _ _ Hin Hrun) as (st1 & st2 & new & Hc & Hnew).
      exists st1, st2, new. split; [|exact Hnew].
      unfold level. cbn. rewrite Hna, Hg. cbn. rewrite <- Hc. f_equal.
      * destruct (prefix props) as [p|]; cbn.
        -- destruct (negb (p =? "")%string) eqn:Hp; cbn.
           ++ now rewrite append_nil_r.
           ++ apply Bool.negb_false_iff, String.eqb_eq in Hp. subst.
              cbn. now rewrite append_nil_r.
        -- now rewrite append_nil_r.
      * destruct (elem_truthy (children props)) eqn:Hch.
        -- now rewrite app_assoc.
        -- rewrite (collected_falsy _ Hch). now rewrite !app_nil_r.
    + rewrite !Bool.andb_false_r in Hrun.
      unfold level. cbn. rewrite Hg. cbn. rewrite append_nil_r.
      destruct (type_truthy ty && is_kind ty "App") eqn:Ha.
      * apply andb_prop in Ha as [_ Ha]. rewrite Ha. rewrite app_nil_r.
        eapply Hloop; eassumption.
      * assert (Hna : is_kind ty "App" = false).
        { destruct (is_kind ty "App") eqn:E; [|reflexivity].
          rewrite (is_kind_truthy _ _ E) in Ha by discriminate. discriminate. }
        rewrite Hna. cbn. rewrite app_nil_r. eapply Hloop; eassumption.
  - destruct Hin as [<-|[]].
    cbn [processElement] in Hrun. cbn. rewrite append_nil_r, app_nil_r.
    exists st, st'. exists []. split; [exact Hrun|now rewrite app_nil_r].
Qed.

(** Every Route node of the tree that has a path and a handler is in the
    table once compilation has succeeded. *)
Lemma processElement_complete (e : Element) (ancestors : list Element) (target : Element) :
  Encloses e ancestors target ->
  forall ty props pathPrefix middlewares st st',
    target = ENode ty props ->
    is_kind ty "Route" = true ->
    present (path props) = true ->
    elem_truthy (children props) = true ->
    processElement e pathPrefix middlewares st = (None, st') ->
    exists r, In r (routes st') /\ Emitted e pathPrefix middlewares r /\
      r_path r = pathPrefix +:+ concatenation (group_prefixes ancestors) +:+
                 text (path props) /\
      r_middlewares r = middlewares ++ flat_map level ancestors ++
                        pushed (middleware props) /\
      r_handler r = children props.
Proof.
  induction 1 as [e|e c anc target Hin Henc IH];
    intros ty props pfx mws st st' -> Hroute Hp Hc Hrun.
  - pose proof Hrun as Hrun0.
    rewrite processElement_node in Hrun.
    rewrite (is_kind_only _ _ "App" Hroute), (is_kind_only _ _ "RouteGroup" Hroute),
      !Bool.andb_false_r in Hrun by discriminate.
    rewrite Hroute, (is_kind_truthy _ _ Hroute) in Hrun by discriminate.
    cbn [andb] in Hrun. unfold processRoute in Hrun. rewrite Hp, Hc in Hrun.
    cbn [andb] in Hrun.
    destruct (present (method props)) eqn:Hm; [|discriminate]. cbn [negb] in Hrun.
    destruct (truthy (body props) &&
              negb (includes bodyAllowedMethods (toUpperCase (text (method props)))))
      eqn:Hb; [discriminate|].
    inversion Hrun; subst. eexists. split; [apply in_or_app; right; now left|].
    split; [|cbn; auto].
    exists [], ty, props. split; [constructor|].
    repeat (split; [assumption|]). split; [|reflexivity].
    intros Hbody. rewrite Hbody in Hb. cbn in Hb. now apply Bool.negb_false_iff in Hb.
  - destruct (below_processed _ _ _ _ _ _ Hrun Hin) as (st1 & st2 & new & Hrunc & Hnew).
    destruct (IH _ _ _ _ _ _ eq_refl Hroute Hp Hc Hrunc) as (r & Hr & Hem & Hpath & Hmw & Hh).
    exists r. split; [rewrite Hnew; apply in_or_app; now left|].
    split; [eapply Emitted_below; [exact Hin|reflexivity|reflexivity|exact Hem]|].
    assert (Hgp : group_prefixes (e :: anc) = group_prefixes [e] ++ group_prefixes anc)
      by (unfold group_prefixes; cbn [flat_map]; now rewrite app_nil_r).
    split; [|split; [|exact Hh]].
    + rewrite Hpath, Hgp, concatenation_app, !append_assoc. reflexivity.
    + rewrite Hmw. cbn [flat_map]. now rewrite <- !app_assoc.
Qed.

(** With no App node inside a RouteGroup, the chain is the App-level
    middlewares, then those of the RouteGroups. *)
Lemma apps_outermost_split (ancestors : list Element) :
  apps_outermost ancestors = true ->
  flat_map level ancestors =
    flat_map app_level ancestors ++ flat_map group_level ancestors.
Proof.
  induction ancestors as [|e anc IH]; [reflexivity|].
  cbn [apps_outermost flat_map]. intros H. apply andb_prop in H as [He Hrest].
  rewrite (IH Hrest). unfold level. rewrite <- !app_assoc. f_equal.
  rewrite !app_assoc. f_equal.
  destruct (is_group e) eqn:Hg.
  - assert (Hnone : flat_map app_level anc = []).
    { clear -He. induction anc as [|a anc IHa]; [reflexivity|].
      cbn in He. apply andb_prop in He as [Ha He]. cbn. rewrite (IHa He).
      destruct a; cbn in *; try reflexivity.
      destruct (is_kind type "App"); [discriminate|reflexivity]. }
    rewrite Hnone. now rewrite app_nil_r.
  - assert (Hnone : group_level e = []).
    { destruct e; cbn in *; try reflexivity. now rewrite Hg. }
    rewrite Hnone. now rewrite app_nil_r.
Qed.

(** The example application compiles to its two routes. *)
Lemma compile_app : compile Examples.app = (None, Examples.app_store).
Proof. reflexivity. Qed.

End CompilerFacts.

(* ===================================================================== *)
(** ** The route table: paths and build-time checks *)
(* ===================================================================== *)

Module RouteTable.

Import Ambient Compiler CompilerFacts.

Lemma includes_In (l : list string) (s : string) :
  includes l s = true <-> In s l.
Proof.
  unfold includes. rewrite existsb_exists. split.
  - intros (x & Hin & Heq). apply String.eqb_eq in Heq. now subst.
  - intros Hin. exists s. split; [exact Hin|apply String.eqb_refl].
Qed.

Lemma upper_lower_ascii (c : ascii) : upper_ascii (lower_ascii c) = upper_ascii c.
Proof. destruct c as [[|] [|] [|] [|] [|] [|] [|] [|]]; reflexivity. Qed.

Lemma toUpperCase_toLowerCase (s : string) :
  toUpperCase (toLowerCase s) = toUpperCase s.
Proof.
  induction s as [|c s IH]; [reflexivity|].
  unfold toUpperCase, toLowerCase in *. cbn [map_string].
  now rewrite IH, upper_lower_ascii.
Qed.

(** C2. Every RouteDefinition of a compiled table comes from a Route node
    of the tree, and its path is the concatenation of the prefixes of the
    RouteGroups that enclose the node, outermost first, and of the node's
    own path; a RouteGroup without a prefix contributes nothing. And every
    Route node (with a path and a handler) of a tree that compiled has its
    RouteDefinition in the table, with that path. *)
Theorem paths_are_prefix_joined (root : Element) :
  (forall out st' r,
     compile root = (out, st') -> In r (routes st') ->
     exists ancestors ty props p,
       Encloses root ancestors (ENode ty props) /\
       is_kind ty "Route" = true /\
       path props = Some p /\
       r_handler r = children props /\
       r_path r = concatenation (group_prefixes ancestors) +:+ p) /\
  (forall st' ancestors ty props p,
     compile root = (None, st') ->
     Encloses root ancestors (ENode ty props) ->
     is_kind ty "Route" = true ->
     path props = Some p -> p <> "" ->
     elem_truthy (children props) = true ->
     exists r, In r (routes st') /\
               r_handler r = children props /\
               r_path r = concatenation (group_prefixes ancestors) +:+ p).
Proof.
  split.
  - intros out st' r Hc Hin.
    destruct (processElement_emits _ _ _ _ _ _ Hc) as (new & Hnew & Hall).
    cbn in Hnew. subst new. rewrite List.Forall_forall in Hall.
    destruct (Hall r Hin) as (anc & ty & props & Henc & Hk & Hp & _ & _ & _ & ->).
    destruct (path props) as [p|] eqn:Hpath; [|discriminate].
    exists anc, ty, props, p. rewrite Hpath. cbn. auto.
  - intros st' anc ty props p Hc Henc Hk Hpath Hne Hch.
    destruct (processElement_complete _ _ _ Henc ty props "" [] empty_store st'
                eq_refl Hk) as (r & Hin & _ & Hp & _ & Hh); [| |exact Hc|].
    + rewrite Hpath. cbn. apply Bool.negb_true_iff. now apply String.eqb_neq.
    + exact Hch.
    + exists r. rewrite Hpath in Hp. cbn in Hp. auto.
Qed.

Lemma paths_are_prefix_joined_witness :
  (exists ancestors ty props p,
     Encloses Examples.app ancestors (ENode ty props) /\
     is_kind ty "Route" = true /\
     path props = Some p /\
     r_handler Examples.users_def = children props /\
     "/api/users/:id" = concatenation (group_prefixes ancestors) +:+ p) /\
  (exists r, In r (routes Examples.app_store) /\
             r_handler r = EFun Examples.me /\
             r_path r = "/api/protected/me").
Proof.
  split.
  - exact (proj1 (paths_are_prefix_joined Examples.app) None Examples.app_store
             Examples.users_def compile_app (or_introl eq_refl)).
  - destruct (proj2 (paths_are_prefix_joined Examples.app) Examples.app_store
                [Examples.app; App Examples.app_p; Examples.protected_group;
                 RouteGroup Examples.protected_p; Examples.me_route]
                (TyStr "Route") Examples.me_p "/me" compile_app)
      as (r & Hin & Hh & Hp); try reflexivity.
    + eapply down; [left; reflexivity|].
      eapply down; [right; left; reflexivity|].
      eapply down; [left; reflexivity|].
      eapply down; [left; reflexivity|].
      eapply down; [left; reflexivity|].
      apply here.
    + discriminate.
    + exists r. split; [exact Hin|]. split; [exact Hh|exact Hp].
Defined.

(** C10. A Route node without a path, or without a handler as its
    children, is skipped: nothing is added to the table and nothing is
    thrown, whatever its method and body schema are. *)
Theorem incomplete_route_is_skipped (ty : NodeType) (props : Props Element)
    (pathPrefix : string) (middlewares : list Middleware) (st : Store) :
  is_kind ty "Route" = true ->
  present (path props) = false \/ elem_truthy (children props) = false ->
  processElement (ENode ty props) pathPrefix middlewares st = (None, st).
Proof.
  intros Hk Hmiss. rewrite processElement_node.
  rewrite (is_kind_only _ _ "App" Hk), (is_kind_only _ _ "RouteGroup" Hk),
    !Bool.andb_false_r by discriminate.
  rewrite Hk, (is_kind_truthy _ _ Hk) by discriminate. cbn [andb].
  unfold processRoute.
  destruct Hmiss as [-> | ->]; [reflexivity|].
  now rewrite Bool.andb_false_r.
Qed.

Lemma incomplete_route_is_skipped_witness :
  compile Examples.pathless = (None, empty_store).
Proof.
  exact (incomplete_route_is_skipped (TyStr "Route") Examples.pathless_p "" []
           empty_store eq_refl (or_introl eq_refl)).
Defined.

(** C5, as stated, fails: the Route node [Examples.pathless] declares a
    body schema with method GET and has no path; it is skipped, so
    compilation succeeds, with nothing thrown. *)
Lemma pathless_get_with_body_compiles :
  ~ (forall (ty : NodeType) (props : Props Element) (pathPrefix : string)
            (middlewares : list Middleware) (st : Store),
       is_kind ty "Route" = true ->
       truthy (body props) = true ->
       (forall st', processElement (ENode ty props) pathPrefix middlewares st = (None, st') ->
          In (toUpperCase (text (method props))) ["POST"; "PUT"; "PATCH"; "DELETE"]) /\
       (toUpperCase (text (method props)) = "GET" ->
          exists e, processElement (ENode ty props) pathPrefix middlewares st = (Some e, st))).
Proof.
  intros Hclaim.
  destruct (Hclaim (TyStr "Route") Examples.pathless_p "" [] empty_store eq_refl eq_refl)
    as [_ Hthrows].
  destruct (Hthrows eq_refl) as [e He]. discriminate He.
Qed.

(** C5, amended. A Route node with a path and a handler that declares a
    body schema compiles only if its upper-cased method is POST, PUT, PATCH
    or DELETE; with method GET it throws and leaves the table as it was. In
    every table, a RouteDefinition with a body schema has such a method. *)
Theorem body_schema_needs_body_method (ty : NodeType) (props : Props Element)
    (pathPrefix : string) (middlewares : list Middleware) (st : Store) :
  is_kind ty "Route" = true ->
  present (path props) = true ->
  elem_truthy (children props) = true ->
  truthy (body props) = true ->
  (forall st', processElement (ENode ty props) pathPrefix middlewares st = (None, st') ->
     In (toUpperCase (text (method props))) ["POST"; "PUT"; "PATCH"; "DELETE"]) /\
  (toUpperCase (text (method props)) = "GET" ->
     processElement (ENode ty props) pathPrefix middlewares st =
       (Some (body_not_allowed (text (method props))
                               (pathPrefix +:+ text (path props))), st)) /\
  (forall root out st' r,
     compile root = (out, st') -> In r (routes st') ->
     truthy (r_bodySchema r) = true ->
     In (toUpperCase (r_method r)) ["POST"; "PUT"; "PATCH"; "DELETE"]).
Proof.
  intros Hk Hp Hc Hb.
  assert (Hnode : processElement (ENode ty props) pathPrefix middlewares st =
                  processRoute props pathPrefix middlewares st).
  { rewrite processElement_node.
    rewrite (is_kind_only _ _ "App" Hk), (is_kind_only _ _ "RouteGroup" Hk),
      !Bool.andb_false_r by discriminate.
    now rewrite Hk, (is_kind_truthy _ _ Hk) by discriminate. }
  rewrite Hnode. unfold processRoute. rewrite Hp, Hc, Hb. cbn [andb].
  split; [|split].
  - intros st' Hrun.
    destruct (present (method props)); [|discriminate]. cbn [negb] in Hrun.
    destruct (includes bodyAllowedMethods (toUpperCase (text (method props)))) eqn:Hin;
      [|discriminate].
    now apply includes_In in Hin.
  - intros Hget. rewrite Hget.
    assert (Hm : present (method props) = true).
    { destruct (method props) as [m|]; [|discriminate Hget].
      destruct m; [discriminate Hget|reflexivity]. }
    rewrite Hm. reflexivity.
  - intros root out st' r Hrun Hin Hbody.
    destruct (processElement_emits _ _ _ _ _ _ Hrun) as (new & Hnew & Hall).
    cbn in Hnew. subst new. rewrite List.Forall_forall in Hall.
    destruct (Hall r Hin) as (anc & ty' & props' & _ & _ & _ & _ & _ & Hok & ->).
    cbn [r_bodySchema r_method] in *. rewrite toUpperCase_toLowerCase.
    apply includes_In. now apply Hok.
Qed.

Lemma body_schema_needs_body_method_witness :
  compile Examples.get_with_body =
    (Some (js_Error "Route GET /hello cannot declare a body schema. Allowed only for POST, PUT, PATCH, DELETE."),
     empty_store).
Proof.
  exact (proj1 (proj2 (body_schema_needs_body_method (TyStr "Route")
                         Examples.get_with_body_p "" [] empty_store
                         eq_refl eq_refl eq_refl eq_refl)) eq_refl).
Defined.

End RouteTable.

(* ===================================================================== *)
(** ** The order of the middleware chain *)
(* ===================================================================== *)

Module Chain.

Import Ambient Compiler Engine CompilerFacts ChainFacts.

Lemma interp_Done {N} (next : N -> St -> option (Completion * St)) c st :
  interp next (Done c) st = Some (c, st).
Proof. destruct c; reflexivity. Qed.

(** A middleware that writes to the context and returns [next()]. *)
Lemma PassesOn_set (key : string) (value : JsValue) (st : St) :
  PassesOn (UseSetContext key value (CallNext tt Done)) st
    (useSetContext key value) (fun _ w => w).
Proof.
  intros next. cbn [interp].
  destruct (next tt _) as [[c [i t w']]|]; [|reflexivity].
  apply interp_Done.
Qed.

(** A middleware that sets a header and returns [next()] passes on while
    the response is not sent and the transport accepts the header; one
    that takes what it writes from [useRoute()] passes on inside a
    request. *)
Lemma PassesOn_header (h : string) (v : JsValue) (st : St) :
  Transport.headersSent (res (world st)) = false ->
  Transport.accepts h v = true ->
  PassesOn (OnRes (OpSetHeader h v) (CallNext tt Done)) st
    (fun w => set_res
                (Transport.mkRes false (Transport.statusCode (res w))
                   (<[toLowerCase h := v]> (Transport.headers (res w)))
                   (Transport.sent (res w))) w)
    (fun _ w => w).
Proof.
  intros Hunsent Hok next. cbn [interp run_op].
  unfold Transport.setHeader, Transport.accepts in *. rewrite Hunsent.
  destruct (Transport.refused h v); [discriminate Hok|].
  cbn [interp on_world world].
  destruct (next tt _) as [[c [i t w']]|]; [|reflexivity].
  apply interp_Done.
Qed.

Lemma PassesOn_route (key : string) (value : RouteContext -> JsValue)
    (rc : RouteContext) (st : St) :
  routeContext (world st) = Some rc ->
  PassesOn (UseRoute (fun rc => UseSetContext key (value rc) (CallNext tt Done))) st
    (useSetContext key (value rc)) (fun _ w => w).
Proof.
  intros Hrc next. cbn [interp]. unfold useRoute. rewrite Hrc. cbn [interp].
  destruct (next tt _) as [[c [i t w']]|]; [|reflexivity].
  apply interp_Done.
Qed.


(** C1, as stated, fails: the App-level middlewares are not always the
    first. In [Examples.app_in_group] the App node, with the logging
    middleware, sits inside a RouteGroup with the admin middleware; the
    chain of the route is the group's middleware, then the App's, then the
    Route's own. *)
Lemma App_inside_group_comes_second :
  compile Examples.app_in_group =
    (None,
     {| routes :=
          [{| r_method := "get"; r_path := "/api/users/:id";
              r_handler := EFun Examples.user42;
              r_middlewares := [Examples.adminLogMiddleware;
                                Examples.loggingMiddleware 5;
                                Examples.slowRouteMiddleware 7];
              r_querySchema := JUndefined; r_bodySchema := JUndefined |}];
        appConfig := {| cfg_port := JNum 9000; cfg_cors := JBool true |} |}) /\
  [Examples.adminLogMiddleware; Examples.loggingMiddleware 5;
   Examples.slowRouteMiddleware 7] <>
  [Examples.loggingMiddleware 5; Examples.adminLogMiddleware;
   Examples.slowRouteMiddleware 7].
Proof.
  split; [reflexivity|]. intros H.
  apply (f_equal (fun l => match l with
                           | m :: _ => Some (m (Examples.request "GET" "/" []))
                           | [] => None
                           end)) in H.
  discriminate H.
Qed.

(** C1, amended. The chain of a compiled route is the middlewares of the
    nodes that enclose its Route node, from the outermost in, then the
    Route's own: the App-level ones, then those of each RouteGroup, then
    the Route-level ones, when no App sits inside a RouteGroup. In every
    run the middlewares are started in exactly that order, without a gap,
    and the handler only after the last of them has been started. In a run
    in which each middleware, in the state it is started in, passes on,
    the handler itself runs, in the world the middlewares left, and its
    completion is the result of the chain. When one middleware answers
    instead, those before it passing on, nothing after it runs, the handler
    included: the run ends in the state the middleware left, and its value
    is the result of the chain. *)
Theorem chain_order_and_short_circuit (root : Element) (out : option JsValue)
    (st' : Store) (r : RouteDefinition) (req : Request) (w : World) :
  compile root = (out, st') ->
  In r (routes st') ->
  let chain := r_middlewares r in
  let start := mkSt 0 [] w in
  (exists ancestors ty props,
      Encloses root ancestors (ENode ty props) /\
      is_kind ty "Route" = true /\
      r_handler r = children props /\
      chain = flat_map level ancestors ++ pushed (middleware props) /\
      (apps_outermost ancestors = true ->
       chain =
         flat_map app_level ancestors ++ flat_map group_level ancestors ++
         pushed (middleware props))) /\
  (exists c st,
     runChain req (r_handler r) chain w = Some (c, st) /\
     ordered (length chain) st) /\
  (forall (h : Handler) (st_h : St) (post : Completion -> World -> World),
     r_handler r = EFun h ->
     PassedOn req chain start st_h post ->
     middlewareIndex st_h = length chain ->
     exists c sth,
       interp no_next h (at_handler st_h) = Some (c, sth) /\
       ran sth = map RanMiddleware (seq 0 (length chain)) ++ [RanHandler] /\
       runChain req (r_handler r) chain w = Some (c, on_world (post c) sth)) /\
  (forall (m : Middleware) (st_j : St) (post : Completion -> World -> World)
          (v : JsValue) (f : World -> World),
     PassedOn req chain start st_j post ->
     chain !! middlewareIndex st_j = Some m ->
     AnswersWith (m req) (started st_j) v f ->
     ran (started st_j) = map RanMiddleware (seq 0 (S (middlewareIndex st_j))) /\
     runChain req (r_handler r) chain w =
       Some (Normal v, on_world (post (Normal v)) (on_world f (started st_j)))).
Proof.
  intros Hc Hin chain start. split; [|split; [|split]].
  - destruct (processElement_emits _ _ _ _ _ _ Hc) as (new & Hnew & Hall).
    cbn in Hnew. subst new. rewrite List.Forall_forall in Hall.
    unfold chain. clear chain.
    destruct (Hall r Hin) as (anc & ty & props & Henc & Hk & _ & _ & _ & _ & ->).
    exists anc, ty, props. cbn [r_handler r_middlewares app].
    repeat (split; [assumption || reflexivity|]).
    intros Hout. rewrite (apps_outermost_split _ Hout). now rewrite <- app_assoc.
  - destruct (exec_ordered req (call (r_handler r)) chain (S (length chain)) start)
      as (c & st & Hrun & Hord & _).
    + split; [cbn; lia|]. exists 0%nat. cbn. split; [reflexivity|intros H; now destruct H].
    + cbn. lia.
    + exists c, st. split; [exact Hrun|exact Hord].
  - intros h st_h post Hh Hpassed Hidx.
    destruct (exec_passed req (call (r_handler r)) chain _ _ _ Hpassed)
      as (_ & Hran & Hexec).
    cbn [start middlewareIndex ran app] in Hran, Hexec.
    rewrite Nat.sub_0_r, Hidx in Hran, Hexec.
    destruct (interp_handler h (at_handler st_h)) as (c & w' & Hrun).
    exists c, (mkSt (middlewareIndex (at_handler st_h)) (ran (at_handler st_h)) w').
    split; [exact Hrun|]. split.
    + cbn [ran at_handler]. now rewrite Hran.
    + unfold runChain. fold chain. fold start.
      replace (S (length chain)) with (length chain + 1)%nat by lia.
      rewrite Hexec, exec_S, Hidx, Nat.leb_refl, Hh. cbn [call].
      fold (at_handler st_h). rewrite <- Hidx at 1.
      change (mkSt (middlewareIndex st_h) (ran st_h ++ [RanHandler]) (world st_h))
        with (at_handler st_h).
      now rewrite Hrun.
  - intros m st_j post v f Hpassed Hm Hanswers.
    destruct (exec_passed req (call (r_handler r)) chain _ _ _ Hpassed)
      as (_ & Hran & Hexec).
    cbn [start middlewareIndex ran app] in Hran, Hexec.
    rewrite Nat.sub_0_r in Hran, Hexec.
    pose proof (lookup_lt_Some _ _ _ Hm) as Hlt.
    split.
    + cbn [ran started]. rewrite Hran, seq_S, map_app. reflexivity.
    + unfold runChain. fold chain. fold start.
      replace (S (length chain))
        with (middlewareIndex st_j + S (length chain - middlewareIndex st_j))%nat by lia.
      rewrite Hexec, exec_S.
      destruct (Nat.leb_spec (length chain) (middlewareIndex st_j)) as [Hdone|_]; [lia|].
      rewrite Hm. fold (started st_j). now rewrite (Hanswers _).
Qed.

End Chain.

(* ===================================================================== *)
(** ** The request scope *)
(* ===================================================================== *)

Module Scope.

Import Transport Ambient Compiler Engine ChainFacts.

Lemma catchBlock_spec (r : Res) :
  catchBlock r =
    (inr tt, if headersSent r then r
             else mkRes true (JNum 500) (headers r)
                        (Some (BodyJson (error_body "Internal server error")))).
Proof.
  unfold catchBlock, bind, getHeadersSent, when.
  destruct r as [[|] code hs b]; reflexivity.
Qed.

Lemma runChain_total req handler middlewares w :
  exists c st, runChain req handler middlewares w = Some (c, st).
Proof.
  destruct (exec_ordered req (call handler) middlewares (S (length middlewares))
              (mkSt 0 [] w)) as (c & st & Hrun & _).
  - split; [cbn; lia|]. exists 0%nat. cbn.
    split; [reflexivity|intros H; now destruct H].
  - cbn. lia.
  - eauto.
Qed.

(** C7. A request handler ([createExpressHandler] and the wildcard
    handler are both [scoped]) always completes, lets no error out, and
    leaves [routeContext] null, whichever way it went. When the chain threw
    [e], or sending the output threw, the response is the one already sent
    if there was one, and otherwise 500 with [{ error: "Internal server
    error" }]: [e] is nowhere in it. *)
Theorem errors_are_contained (req : Request) (handler : Element)
    (middlewares : list Middleware) (schemas : list (string * JsValue)) (w : World) :
  exists w',
    scoped req handler middlewares schemas w = Some (None, w') /\
    routeContext w' = None /\
    globalContext w' =
      match runChain req handler middlewares
              (set_routeContext (Some (seeded req schemas)) w) with
      | Some (_, st) => globalContext (world st)
      | None => globalContext w
      end /\
    (forall e st,
       runChain req handler middlewares
         (set_routeContext (Some (seeded req schemas)) w) = Some (Abrupt e, st) ->
       res w' =
         if headersSent (res (world st)) then res (world st)
         else mkRes true (JNum 500) (headers (res (world st)))
                    (Some (BodyJson (error_body "Internal server error")))) /\
    (forall output st e r,
       runChain req handler middlewares
         (set_routeContext (Some (seeded req schemas)) w) = Some (Normal output, st) ->
       sendResponseFromOutput output (res (world st)) = (inl e, r) ->
       res w' =
         if headersSent r then r
         else mkRes true (JNum 500) (headers r)
                    (Some (BodyJson (error_body "Internal server error")))).
Proof.
  unfold scoped.
  destruct (runChain_total req handler middlewares
              (set_routeContext (Some (seeded req schemas)) w)) as (c & st & Hrun).
  rewrite Hrun.
  destruct c as [output|e].
  - destruct (sendResponseFromOutput output (res (world st))) as [[e|[]] r] eqn:Hsend.
    + rewrite catchBlock_spec. cbn [fst snd]. eexists. split; [reflexivity|].
      split; [reflexivity|]. split; [reflexivity|]. split.
      * intros e' st'' H. discriminate H.
      * intros o s e' r' H Hs. inversion H; subst. rewrite Hsend in Hs.
        inversion Hs; subst. reflexivity.
    + cbn [fst snd]. eexists. split; [reflexivity|].
      split; [reflexivity|]. split; [reflexivity|]. split.
      * intros e' st'' H. discriminate H.
      * intros o s e' r' H Hs. inversion H; subst. rewrite Hsend in Hs. discriminate Hs.
  - rewrite catchBlock_spec. cbn [fst snd]. eexists. split; [reflexivity|].
    split; [reflexivity|]. split; [reflexivity|]. split.
    + intros e' st'' H. inversion H; subst. reflexivity.
    + intros o s e' r' H. discriminate H.
Qed.

Lemma errors_are_contained_witness :
  exists w',
    scoped (Examples.request "GET" "/boom" []) (EFun Examples.failing) [] []
      Examples.idle = Some (None, w') /\
    routeContext w' = None /\
    res w' = mkRes true (JNum 500) ∅
               (Some (BodyJson (error_body "Internal server error"))).
Proof.
  destruct (errors_are_contained (Examples.request "GET" "/boom" [])
              (EFun Examples.failing) [] [] Examples.idle)
    as (w' & Hrun & Hnull & _ & Hthrown & _).
  exists w'. split; [exact Hrun|]. split; [exact Hnull|].
  exact (Hthrown (js_Error "boom") _ eq_refl).
Defined.

(** A write to another key leaves the entry and the field of [key]. *)
Lemma write_other_key (key k : string) (v value : JsValue) (rc : RouteContext) (w : World) :
  routeContext w = Some rc ->
  In key ["body"; "query"; "params"] ->
  k <> key ->
  middlewareContext rc !! key = Some value ->
  field key rc = value ->
  exists rc', routeContext (useSetContext k v w) = Some rc' /\
              middlewareContext rc' !! key = Some value /\
              field key rc' = value.
Proof.
  intros Hrc Hkey Hne Hentry Hfield. unfold useSetContext. rewrite Hrc.
  eexists. split; [reflexivity|].
  assert (Hin : forall rc1, middlewareContext rc1 = <[k := v]> (middlewareContext rc) ->
                            middlewareContext rc1 !! key = Some value).
  { intros rc1 ->. now rewrite lookup_insert_ne. }
  destruct (String.eqb_spec k "body") as [->|Hb];
    [|destruct (String.eqb_spec k "query") as [->|Hq];
      [|destruct (String.eqb_spec k "params") as [->|Hp]]];
    (split; [apply Hin; reflexivity|]);
    destruct Hkey as [<-|[<-|[<-|[]]]]; try congruence; exact Hfield.
Qed.

Lemma Afterwards_trans (key : string) (a b c : World) :
  Afterwards key a b -> Afterwards key b c -> Afterwards key a c.
Proof.
  intros Hab Hbc. induction Hbc; [exact Hab| |]; constructor; auto.
Qed.

(** What was written stays readable through everything that happens
    afterwards. *)
Lemma read_afterwards (key : string) (value : JsValue) (w : World) (rc : RouteContext) :
  routeContext w = Some rc ->
  In key ["body"; "query"; "params"] ->
  value <> JUndefined ->
  forall w', Afterwards key (useSetContext key value w) w' ->
    (exists rc', routeContext w' = Some rc' /\
                 middlewareContext rc' !! key = Some value /\
                 field key rc' = value) /\
    useContext key w' = value /\
    get (useContextAll w') key = value.
Proof.
  intros Hrc Hkey Hdef w' Hlater.
  assert (Hscope : exists rc', routeContext w' = Some rc' /\
                     middlewareContext rc' !! key = Some value /\
                     field key rc' = value).
  { remember (useSetContext key value w) as w0 eqn:Hw0.
    induction Hlater as [w1|w1 w2 k v Hl IH Hne|w1 w2 r Hl IH].
    - subst w1. unfold useSetContext. rewrite Hrc. eexists. split; [reflexivity|].
      destruct Hkey as [<-|[<-|[<-|[]]]]; cbn; split;
        try apply lookup_insert_eq; reflexivity.
    - destruct (IH Hw0) as (rc1 & H1 & H2 & H3).
      eapply write_other_key; eassumption.
    - destruct (IH Hw0) as (rc1 & H1 & H2 & H3). exists rc1. cbn. auto. }
  assert (Hread : useContext key w' = value).
  { destruct Hscope as (rc' & H1 & H2 & _). unfold useContext, map_get.
    rewrite H1, H2. cbn. destruct value; try reflexivity. now destruct Hdef. }
  split; [exact Hscope|]. split; [exact Hread|].
  destruct Hkey as [<-|[<-|[<-|[]]]]; cbn; exact Hread.
Qed.

(** A body that does not write [key] only moves the world [Afterwards],
    as long as its continuation does. *)
Lemma interp_afterwards {N} (key : string) (w0 : World)
    (next : N -> St -> option (Completion * St)) :
  (forall n s c s', Afterwards key w0 (world s) -> next n s = Some (c, s') ->
                    Afterwards key w0 (world s')) ->
  forall p, Quiet key p ->
  forall st c st', Afterwards key w0 (world st) -> interp next p st = Some (c, st') ->
    Afterwards key w0 (world st').
Proof.
  intros Hnext p Hq.
  induction Hq as [v|e|n k Hk IH|k' v p Hne Hp IH|k' k Hk IH|k Hk IH|k Hk IH|op p Hp IH];
    intros st c st' Hst Hrun; cbn [interp] in Hrun.
  - now inversion Hrun; subst.
  - now inversion Hrun; subst.
  - destruct (next n st) as [[c1 s1]|] eqn:Hn; [|discriminate].
    eapply IH; [|exact Hrun]. eapply Hnext; eassumption.
  - eapply IH; [|exact Hrun]. cbn. now constructor.
  - eapply IH; eassumption.
  - eapply IH; eassumption.
  - destruct (useRoute (world st)); [now inversion Hrun; subst|].
    eapply IH; eassumption.
  - destruct (run_op op (res (world st))) as [[e|[]] r'].
    + inversion Hrun; subst. cbn. now constructor.
    + eapply IH; [|exact Hrun]. cbn. now constructor.
Qed.

(** The rest of a chain whose middlewares and handler do not write [key]
    only moves the world [Afterwards]. *)
Lemma chain_afterwards (key : string) (w0 : World) (req : Request) (handler : Handler)
    (middlewares : list Middleware) :
  Quiet key handler ->
  Forall (fun m : Middleware => Quiet key (m req)) middlewares ->
  forall fuel st c st',
    Afterwards key w0 (world st) ->
    executeNextMiddleware fuel req handler middlewares st = Some (c, st') ->
    Afterwards key w0 (world st').
Proof.
  intros Hh Hm. induction fuel as [|fuel IH]; intros st c st' Hst Hrun;
    [discriminate|].
  rewrite exec_S in Hrun.
  destruct (length middlewares <=? middlewareIndex st)%nat.
  - eapply (interp_afterwards key w0 no_next); [|exact Hh| |exact Hrun]; [|exact Hst].
    intros [].
  - destruct (middlewares !! middlewareIndex st) as [m|] eqn:Hl.
    + eapply (interp_afterwards key w0); [| | |exact Hrun]; [|..].
      * intros n s c1 s1 Hs H1. eapply IH; eassumption.
      * rewrite List.Forall_forall in Hm. apply Hm. apply list_elem_of_In.
        eapply list_elem_of_lookup_2. exact Hl.
      * exact Hst.
    + inversion Hrun; subst. exact Hst.
Qed.

(** In a body that does not write [key], run after the write, each read of
    [key] gets [value]; the continuation may be replaced by one that does
    the same after the write. *)
Lemma body_reads {N} (key : string) (value : JsValue) (w : World) (rc : RouteContext)
    (next next' : N -> St -> option (Completion * St)) :
  routeContext w = Some rc ->
  In key ["body"; "query"; "params"] ->
  value <> JUndefined ->
  (forall n s, Afterwards key (useSetContext key value w) (world s) ->
               next n s = next' n s) ->
  (forall n s c s',
     Afterwards key (useSetContext key value w) (world s) ->
     next n s = Some (c, s') ->
     Afterwards key (useSetContext key value w) (world s')) ->
  forall p, Quiet key p ->
  forall st, Afterwards key (useSetContext key value w) (world st) ->
    interp next p st = interp next' (knowing key value p) st.
Proof.
  intros Hrc Hkey Hdef Hsame Hnext p Hq.
  induction Hq as [v|e|n k Hk IH|k' v p Hne Hp IH|k' k Hk IH|k Hk IH|k Hk IH|op p Hp IH];
    intros st Hst; cbn [interp knowing].
  - reflexivity.
  - reflexivity.
  - rewrite <- (Hsame n st Hst).
    destruct (next n st) as [[c1 s1]|] eqn:Hn; [|reflexivity].
    apply IH. eapply Hnext; eassumption.
  - apply IH. cbn. now constructor.
  - destruct (String.eqb_spec k' key) as [->|Hne].
    + destruct (read_afterwards key value w rc Hrc Hkey Hdef _ Hst) as (_ & -> & _).
      apply IH. exact Hst.
    + cbn [interp]. apply IH. exact Hst.
  - apply IH. exact Hst.
  - destruct (useRoute (world st)); [reflexivity|]. apply IH. exact Hst.
  - destruct (run_op op (res (world st))) as [[e|[]] r']; [reflexivity|].
    apply IH. cbn. now constructor.
Qed.

(** Writes made while a scope is open leave the global store alone. *)
Lemma afterwards_global (key : string) (w0 w' : World) :
  routeContext w0 <> None ->
  Afterwards key w0 w' ->
  routeContext w' <> None /\ globalContext w' = globalContext w0.
Proof.
  intros Hopen Hlater. induction Hlater as [w1|w1 w2 k v Hl IH Hne|w1 w2 r Hl IH].
  - split; [exact Hopen|reflexivity].
  - destruct (IH Hopen) as [Hrc Hg]. unfold useSetContext.
    destruct (routeContext w2); [|now destruct Hrc].
    split; [discriminate|exact Hg].
  - destruct (IH Hopen) as [Hrc Hg]. split; [exact Hrc|exact Hg].
Qed.

(** C9, as stated, fails for the value [undefined]. In
    [Examples.global_body] the global store has an entry for [body] and a
    request is being served. [useSetContext("body", undefined)] sets the
    entry and the field of the scope to undefined, and the next
    [useContext("body")] gives 7, not what was written: a read takes an
    entry that is undefined for an absent one and falls back to the global
    store. *)
Lemma undefined_write_reads_global :
  exists rc',
    routeContext (useSetContext "body" JUndefined Examples.global_body) = Some rc' /\
    middlewareContext rc' !! "body" = Some JUndefined /\
    field "body" rc' = JUndefined /\
    useContext "body" (useSetContext "body" JUndefined Examples.global_body) = JNum 7 /\
    get (useContextAll (useSetContext "body" JUndefined Examples.global_body)) "body" =
      JNum 7.
Proof. eexists. repeat split; vm_compute; reflexivity. Qed.

(** C9, amended. In an active scope, writing a [value] other than
    undefined under a reserved key ([body], [query] or [params]) updates
    the entry of the scope and the structured field of that name. From then
    on, through any later writes to other keys and calls on the response,
    and as long as the scope is still the one of the request, a read of the
    key gives [value], by key and in the convenience object. So in the rest
    of the chain, run after the write with no other request served
    meanwhile, every [useContext(key)] of the later middlewares and of the
    handler gets [value], as long as none of them writes the key again.
    Once the variable [routeContext] has been assigned again, by the
    handler of another request at its start or (null) at its end, the write
    is out of sight: a read gives what it would have given without it. *)
Theorem reserved_write_is_read_back (key : string) (value : JsValue)
    (w : World) (rc : RouteContext) :
  routeContext w = Some rc ->
  In key ["body"; "query"; "params"] ->
  value <> JUndefined ->
  (forall w', Afterwards key (useSetContext key value w) w' ->
     (exists rc', routeContext w' = Some rc' /\
                  middlewareContext rc' !! key = Some value /\
                  field key rc' = value) /\
     useContext key w' = value /\
     get (useContextAll w') key = value) /\
  (forall (req : Request) (handler : Handler) (middlewares : list Middleware)
          (fuel : nat) (st : St),
     Quiet key handler ->
     Forall (fun m : Middleware => Quiet key (m req)) middlewares ->
     Afterwards key (useSetContext key value w) (world st) ->
     executeNextMiddleware fuel req handler middlewares st =
       executeNextMiddleware fuel req (knowing key value handler)
         (knowing_all key value middlewares) st) /\
  (forall (w' : World) (other : option RouteContext),
     Afterwards key (useSetContext key value w) w' ->
     useContext key (set_routeContext other w') =
       useContext key (set_routeContext other w)).
Proof.
  intros Hrc Hkey Hdef. split; [|split].
  - intros w' Hlater. eapply read_afterwards; eassumption.
  - intros req handler middlewares fuel st Hh Hm. revert st.
    induction fuel as [|fuel IH]; intros st Hst; [reflexivity|].
    rewrite !exec_S. unfold knowing_all at 1. rewrite length_map.
    destruct (length middlewares <=? middlewareIndex st)%nat.
    + apply (body_reads key value w rc no_next no_next Hrc Hkey Hdef);
        [reflexivity|intros []|exact Hh|exact Hst].
    + unfold knowing_all. rewrite list_lookup_fmap.
      destruct (middlewares !! middlewareIndex st) as [m|] eqn:Hl; [|reflexivity].
      cbn [fmap option_fmap option_map].
      apply (body_reads key value w rc
               (fun _ => executeNextMiddleware fuel req handler middlewares)
               (fun _ => executeNextMiddleware fuel req (knowing key value handler)
                           (knowing_all key value middlewares))
               Hrc Hkey Hdef).
      * intros _ s Hs. apply IH. exact Hs.
      * intros n s c s' Hs Hrun. eapply chain_afterwards; eassumption.
      * rewrite List.Forall_forall in Hm. apply Hm. apply list_elem_of_In.
        eapply list_elem_of_lookup_2. exact Hl.
      * cbn. exact Hst.
  - intros w' other Hlater.
    destruct (afterwards_global key (useSetContext key value w) w') as [_ Hg];
      [|exact Hlater|].
    + unfold useSetContext. rewrite Hrc. discriminate.
    + unfold useContext. cbn [routeContext set_routeContext globalContext].
      rewrite Hg. unfold useSetContext. rewrite Hrc. reflexivity.
Qed.

Lemma reserved_write_is_read_back_witness :
  let validated := JObj [("name", JStr "x")] in
  let later :=
    set_res (mkRes false (JNum 201) ∅ None)
      (useSetContext "user" (JNum 1)
         (useSetContext "body" validated Examples.in_request)) in
  useContext "body" later = validated /\
  get (useContextAll later) "body" = validated /\
  (exists rc', routeContext later = Some rc' /\ rc_body rc' = validated) /\
  executeNextMiddleware 2 (Examples.request "POST" "/hello" []) Examples.greet
    [Examples.loggingMiddleware 5] (mkSt 0 [] later) =
    executeNextMiddleware 2 (Examples.request "POST" "/hello" [])
      (Return (Response [("json", validated)]))
      [Examples.loggingMiddleware 5] (mkSt 0 [] later).
Proof.
  intros validated later.
  destruct (reserved_write_is_read_back "body" validated Examples.in_request _
              eq_refl (or_introl eq_refl) ltac:(discriminate))
    as (Hread & Hchain & _).
  assert (Hlater : Afterwards "body"
                     (useSetContext "body" validated Examples.in_request) later)
    by (apply then_res, then_set; [apply at_once|discriminate]).
  destruct (Hread later Hlater) as ((rc' & Hrc & _ & Hfield) & Hkey & Hall).
  split; [exact Hkey|]. split; [exact Hall|].
  split; [exists rc'; split; [exact Hrc|exact Hfield]|].
  apply (Hchain (Examples.request "POST" "/hello" []) Examples.greet
           [Examples.loggingMiddleware 5] 2%nat (mkSt 0 [] later)).
  - unfold Examples.greet. repeat constructor.
  - constructor; [|constructor]. unfold Examples.loggingMiddleware.
    apply quiet_set; [discriminate|]. apply quiet_next.
    intros [v|e]; constructor.
  - exact Hlater.
Defined.

End Scope.

(* ===================================================================== *)
(** ** The port the server listens on *)
(* ===================================================================== *)

Module Port.

Import Ambient Compiler Engine CompilerFacts.

Lemma FromApp_below (e c : Element) (cfg : AppConfig) :
  In c (below e) -> FromApp c cfg -> FromApp e cfg.
Proof.
  intros Hin (anc & ty & props & Henc & Hk & Hcfg).
  exists (e :: anc), ty, props. split; [eapply down; eassumption|auto].
Qed.

Lemma forEach_configures (f : Element -> Store -> Outcome) (items : list Element) :
  Forall (fun el => forall st out st', f el st = (out, st') -> Configures el st st') items ->
  forall st out st', forEach f items st = (out, st') ->
    appConfig st' = appConfig st \/
    exists el, In el items /\ FromApp el (appConfig st').
Proof.
  induction 1 as [|el items Hel Hitems IH]; intros st out st' Hrun; simpl in Hrun.
  - inversion Hrun; subst. now left.
  - destruct (f el st) as [[e|] st1] eqn:Hf.
    + inversion Hrun; subst. destruct (Hel _ _ _ Hf) as [Heq|Hfrom]; [now left|].
      right. exists el. split; [now left|exact Hfrom].
    + destruct (IH _ _ _ Hrun) as [Heq|(el' & Hin & Hfrom)].
      * rewrite Heq. destruct (Hel _ _ _ Hf) as [Heq1|Hfrom]; [now left|].
        right. exists el. split; [now left|exact Hfrom].
      * right. exists el'. split; [now right|exact Hfrom].
Qed.

(** [appConfig] is only ever assigned by the App nodes of the tree. *)
Lemma processElement_configures (e : Element) :
  forall pathPrefix middlewares st out st',
    processElement e pathPrefix middlewares st = (out, st') -> Configures e st st'.
Proof.
  induction e as [|s|h|items IH|ty props IH|name props rendered IH]
    using Element_nested_ind; intros pfx mws st out st' Hrun.
  - inversion Hrun; subst. now left.
  - inversion Hrun; subst. now left.
  - inversion Hrun; subst. now left.
  - cbn [processElement] in Hrun.
    assert (HF : Forall (fun el => forall s o s',
                     processElement el pfx mws s = (o, s') -> Configures el s s') items).
    { eapply List.Forall_impl; [|exact IH]. intros el Hel s o s' H0. eapply Hel, H0. }
    destruct (forEach_configures _ _ HF _ _ _ Hrun) as [Heq|(el & Hin & Hfrom)];
      [now left|].
    right. eapply FromApp_below; [|exact Hfrom]. exact Hin.
  - rewrite processElement_node in Hrun.
    assert (Hloop : forall items p m s o s',
              incl items (as_array (children props)) ->
              forEach (fun el => processElement el p m) items s = (o, s') ->
              appConfig s' = appConfig s \/
              exists el, In el items /\ FromApp el (appConfig s')).
    { intros items p m s o s' Hincl Hl.
      eapply (forEach_configures (fun el => processElement el p m)); [|exact Hl].
      apply List.Forall_forall. intros el Hel s0 o0 s0' H0.
      rewrite List.Forall_forall in IH. eapply IH; [apply Hincl, Hel|exact H0]. }
    destruct (type_truthy ty && is_kind ty "App") eqn:Happ.
    { apply andb_prop in Happ as [_ Happ].
      right.
      destruct (Hloop _ _ _ _ _ _ (incl_refl _) Hrun) as [Heq|(el & Hin & Hfrom)].
      - rewrite Heq. cbn. exists [], ty, props. split; [constructor|auto].
      - eapply FromApp_below; [|exact Hfrom]. cbn [below].
        rewrite (is_kind_only _ _ "Route" Happ), (is_kind_only _ _ "RouteGroup" Happ)
          by discriminate. exact Hin. }
    destruct (type_truthy ty && is_kind ty "RouteGroup") eqn:Hgrp.
    { apply andb_prop in Hgrp as [_ Hgrp]. rewrite others_filter in Hrun.
      destruct (Hloop _ _ _ _ _ _ (incl_filter _ _) Hrun) as [Heq|(el & Hin & Hfrom)];
        [now left|].
      right. eapply FromApp_below; [|exact Hfrom]. cbn [below].
      rewrite (is_kind_only _ _ "Route" Hgrp), Hgrp by discriminate. exact Hin. }
    destruct (type_truthy ty && is_kind ty "Route") eqn:Hroute.
    { left. unfold processRoute in Hrun.
      destruct (present (path props) && elem_truthy (children props));
        [|now inversion Hrun].
      destruct (negb (present (method props))); [now inversion Hrun|].
      destruct (truthy (body props) && _); now inversion Hrun. }
    destruct (Hloop _ _ _ _ _ _ (incl_refl _) Hrun) as [Heq|(el & Hin & Hfrom)];
      [now left|].
    right. eapply FromApp_below; [|exact Hfrom]. cbn [below].
    assert (Hnr : is_kind ty "Route" = false).
    { destruct (is_kind ty "Route") eqn:E; [|reflexivity].
      rewrite (is_kind_truthy _ _ E) in Hroute by discriminate. discriminate. }
    assert (Hng : is_kind ty "RouteGroup" = false).
    { destruct (is_kind ty "RouteGroup") eqn:E; [|reflexivity].
      rewrite (is_kind_truthy _ _ E) in Hgrp by discriminate. discriminate. }
    rewrite Hnr, Hng. exact Hin.
  - cbn [processElement] in Hrun. destruct (IH _ _ _ _ _ Hrun) as [Heq|Hfrom];
      [now left|].
    right. eapply FromApp_below; [|exact Hfrom]. cbn. now left.
Qed.

(** A tree whose root is an App node ends with the configuration some App
    node assigned. *)
Lemma AppRooted_configured (root : Element) :
  AppRooted root ->
  forall pathPrefix middlewares st out st',
    processElement root pathPrefix middlewares st = (out, st') ->
    FromApp root (appConfig st').
Proof.
  induction 1 as [ty props Happ|name props rendered Hr IH];
    intros pfx mws st out st' Hrun.
  - pose proof (processElement_configures _ _ _ _ _ _ Hrun) as Hcfg.
    rewrite processElement_node in Hrun.
    rewrite Happ, (is_kind_truthy _ _ Happ) in Hrun by discriminate. cbn [andb] in Hrun.
    assert (Hloop : Configures (ENode ty props)
                      {| routes := routes st;
                         appConfig := {| cfg_port := js_or (port props) (JNum 9000);
                                         cfg_cors := cors props |} |} st').
    { assert (HF : Forall (fun el => forall s o s',
                       processElement el pfx (mws ++ pushed (middleware props)) s = (o, s') ->
                       Configures el s s') (as_array (children props))).
      { apply List.Forall_forall. intros el _ s o s' H0.
        eapply processElement_configures, H0. }
      destruct (forEach_configures _ _ HF _ _ _ Hrun) as [Heq|(el & Hin & Hfrom)];
        [now left|].
      right. eapply FromApp_below; [|exact Hfrom]. cbn [below].
      rewrite (is_kind_only _ _ "Route" Happ), (is_kind_only _ _ "RouteGroup" Happ)
        by discriminate. exact Hin. }
    destruct Hloop as [Heq|Hfrom]; [|exact Hfrom].
    rewrite Heq. cbn. exists [], ty, props. split; [constructor|auto].
  - cbn [processElement] in Hrun.
    eapply FromApp_below; [|eapply IH, Hrun]. cbn. now left.
Qed.

(** The port of the claim C6, on the code: when the root of the tree is an
    App node and no App node of the tree has a (truthy) [port], the server
    listens on 9000, the default of the App branch of [processElement];
    the 6969 of [serve] is never reached. *)
Theorem App_without_port_listens_on_9000 (root : Element) (server : Server) :
  AppRooted root ->
  (forall ancestors ty props,
     Encloses root ancestors (ENode ty props) -> is_kind ty "App" = true ->
     truthy (port props) = false) ->
  serve root = inr server ->
  listening server = JNum 9000.
Proof.
  intros Hroot Hports Hserve. unfold serve in Hserve.
  destruct (compile root) as [[e|] st] eqn:Hc; [discriminate|].
  inversion Hserve; subst. cbn [listening register].
  destruct (AppRooted_configured _ Hroot _ _ _ _ _ Hc)
    as (anc & ty & props & Henc & Hk & ->).
  cbn [cfg_port]. unfold js_or at 2. rewrite (Hports _ _ _ Henc Hk). reflexivity.
Qed.

Lemma App_without_port_listens_on_9000_witness :
  exists server, serve Examples.app = inr server /\ listening server = JNum 9000.
Proof.
  eexists. split; [reflexivity|].
  apply (App_without_port_listens_on_9000 Examples.app).
  - apply app_component, app_node. reflexivity.
  - intros ancestors ty props Henc Hk.
    repeat match goal with
           | H : Encloses ?e _ (ENode _ _) |- _ =>
               tryif is_var e then fail else (inversion H; clear H; subst)
           | H : In _ (below _) |- _ => progress cbn in H
           | H : _ \/ _ |- _ => destruct H as [<-|H]
           | H : False |- _ => destruct H
           end; try discriminate; reflexivity.
  - reflexivity.
Defined.

End Port.

(* ===================================================================== *)
(** ** Method and path resolution *)
(* ===================================================================== *)

Module Resolution.

Import Transport Ambient Compiler Engine.

Lemma addMethod_lookup (m : gmap string (list string)) (r : RouteDefinition) (p : string) :
  addMethod m r !! p =
    if String.eqb (r_path r) p
    then Some (once (default [] (m !! p)) (toUpperCase (r_method r)))
    else m !! p.
Proof.
  unfold addMethod, once.
  destruct (String.eqb_spec (r_path r) p) as [->|Hne].
  - destruct (m !! p) as [l|] eqn:Hl.
    + rewrite Hl. cbn [from_option id].
      destruct (includes l (toUpperCase (r_method r))); cbn [negb].
      * exact Hl.
      * apply lookup_insert_eq.
    + rewrite lookup_insert_eq. cbn. apply lookup_insert_eq.
  - destruct (m !! r_path r) as [l|] eqn:Hl.
    + rewrite Hl. cbn [from_option id].
      destruct (includes l (toUpperCase (r_method r))); cbn [negb]; [reflexivity|].
      now rewrite lookup_insert_ne.
    + rewrite lookup_insert_eq. cbn. now rewrite !lookup_insert_ne.
Qed.

(** The index built by the loop: a path has an entry exactly when a
    regular route was declared with it, and the entry is [allowedFor]. *)
Lemma collectMethods_lookup (regularRoutes : list RouteDefinition) (p : string) :
  collectMethods regularRoutes !! p =
    match List.filter (fun r => String.eqb (r_path r) p) regularRoutes with
    | [] => None
    | _ => Some (allowedFor p regularRoutes)
    end.
Proof.
  unfold collectMethods, allowedFor.
  assert (Hgen : forall rs (m0 : gmap string (list string)),
            fold_left addMethod rs m0 !! p =
              match List.filter (fun r => String.eqb (r_path r) p) rs with
              | [] => m0 !! p
              | l => Some (fold_left once (map (fun r => toUpperCase (r_method r)) l)
                             (default [] (m0 !! p)))
              end).
  { induction rs as [|r rs IH]; intros m0; [reflexivity|].
    cbn [fold_left List.filter]. rewrite IH, addMethod_lookup.
    destruct (String.eqb (r_path r) p); [|reflexivity].
    cbn [map fold_left from_option id].
    destruct (List.filter (fun r0 => String.eqb (r_path r0) p) rs); reflexivity. }
  rewrite Hgen. rewrite lookup_empty.
  destruct (List.filter (fun r => String.eqb (r_path r) p) regularRoutes); reflexivity.
Qed.

Section Routing.

Variable matches : string -> string -> Request -> bool.

(** Handlers that do not match hand the request on. *)
Lemma dispatch_unmatched (regularRoutes : list RouteDefinition) (rest : list Layer)
    (req : Request) (w : World) :
  (forall r, In r regularRoutes ->
     includes registrar (toLowerCase (r_method r)) = true ->
     matches (toLowerCase (r_method r)) (r_path r) req = false) ->
  dispatch matches (registered regularRoutes ++ rest) req w =
    dispatch matches rest req w.
Proof.
  induction regularRoutes as [|r rs IH]; intros Hno; [reflexivity|].
  unfold registered in *. cbn [flat_map].
  destruct (includes registrar (toLowerCase (r_method r))) eqn:Hreg.
  - cbn [app dispatch]. rewrite (Hno r (or_introl eq_refl) Hreg).
    apply IH. intros r' Hin. apply Hno. now right.
  - cbn [app]. apply IH. intros r' Hin. apply Hno. now right.
Qed.

(** The first handler that matches takes the request. *)
Lemma dispatch_matched (pre post : list RouteDefinition) (r : RouteDefinition)
    (rest : list Layer) (req : Request) (w : World) :
  (forall r', In r' pre ->
     includes registrar (toLowerCase (r_method r')) = true ->
     matches (toLowerCase (r_method r')) (r_path r') req = false) ->
  includes registrar (toLowerCase (r_method r)) = true ->
  matches (toLowerCase (r_method r)) (r_path r) req = true ->
  dispatch matches (registered (pre ++ r :: post) ++ rest) req w =
    createExpressHandler (r_handler r) (r_middlewares r)
      (r_bodySchema r) (r_querySchema r) req w.
Proof.
  intros Hpre Hreg Hmatch. unfold registered. rewrite flat_map_app, <- app_assoc.
  fold (registered pre). rewrite dispatch_unmatched by exact Hpre.
  cbn [flat_map]. rewrite Hreg. cbn [app dispatch]. now rewrite Hmatch.
Qed.

(** X24. What the 405 pass does answer, for a request that the [cors]
    layer hands on (there is none, or the default one and the method is not
    OPTIONS; a preflight never gets here). A request whose path is, letter
    for letter, the declared path of at least one regular
    route, whose method is not among the methods allowed for that path,
    and which no method handler took, is answered by the 405 pass:
    status 405, header [Allow] with the allowed upper-cased methods joined
    by a comma (and a space), when the transport accepts that value, and
    the JSON body naming the path and the method. The pass comes after the
    method handlers: a request that one of them takes never reaches it. *)
Theorem method_not_allowed_405 (st : Store) (req : Request) (w : World) :
  let regularRoutes := List.filter (fun r => negb (is_wildcard r)) (routes st) in
  let allowed := allowedFor (req_path req) regularRoutes in
  handed_on (register st) req = true ->
  ((exists r, In r regularRoutes /\ r_path r = req_path req) ->
   includes allowed (req_method req) = false ->
   accepts "Allow" (JStr (join ", " allowed)) = true ->
   (forall r, In r regularRoutes ->
      includes registrar (toLowerCase (r_method r)) = true ->
      matches (toLowerCase (r_method r)) (r_path r) req = false) ->
   headersSent (res w) = false ->
   dispatch matches (stack (register st)) req w =
     Some (None,
           set_res
             (mkRes true (JNum 405)
                (<["allow" := JStr (join ", " allowed)]> (headers (res w)))
                (Some (BodyJson
                   (JObj [("error", JStr "Method Not Allowed");
                          ("message",
                           JStr ("Method " +:+ req_method req +:+
                                 " is not allowed for path " +:+ req_path req));
                          ("path", JStr (req_path req));
                          ("method", JStr (req_method req))]))))
             w)) /\
  (forall pre r post,
     regularRoutes = pre ++ r :: post ->
     (forall r', In r' pre ->
        includes registrar (toLowerCase (r_method r')) = true ->
        matches (toLowerCase (r_method r')) (r_path r') req = false) ->
     includes registrar (toLowerCase (r_method r)) = true ->
     matches (toLowerCase (r_method r)) (r_path r) req = true ->
     dispatch matches (stack (register st)) req w =
       createExpressHandler (r_handler r) (r_middlewares r)
         (r_bodySchema r) (r_querySchema r) req w).
Proof.
  intros regularRoutes allowed _. split.
  - intros (r & Hin & Hpath) Hnot Hallow Hno Hunsent.
    unfold register. cbn [stack]. fold regularRoutes.
    rewrite dispatch_unmatched by exact Hno.
    cbn [app dispatch]. rewrite collectMethods_lookup.
    destruct (List.filter (fun r0 => String.eqb (r_path r0) (req_path req)) regularRoutes)
      as [|r0 l] eqn:Hf.
    + exfalso. assert (Hr : In r []).
      { rewrite <- Hf. apply List.filter_In. split; [exact Hin|].
        rewrite Hpath. apply String.eqb_refl. }
      destruct Hr.
    + fold allowed. rewrite Hnot. cbn [negb].
      unfold onRes, methodNotAllowed, bind, setHeader, status, json, put.
      rewrite Hunsent. unfold accepts in Hallow.
      destruct (refused "Allow" (JStr (join ", " allowed))); [discriminate Hallow|].
      reflexivity.
  - intros pre r post Hsplit Hpre Hreg Hmatch.
    unfold register. cbn [stack]. fold regularRoutes. rewrite Hsplit.
    now apply dispatch_matched.
Qed.

End Routing.

Lemma method_not_allowed_405_witness :
  dispatch Examples.express (stack (register Examples.app_store))
    (Examples.request "POST" "/api/protected/me" []) Examples.idle =
    Some (None,
          set_res
            (mkRes true (JNum 405) (<["allow" := JStr "GET"]> ∅)
               (Some (BodyJson
                  (JObj [("error", JStr "Method Not Allowed");
                         ("message",
                          JStr "Method POST is not allowed for path /api/protected/me");
                         ("path", JStr "/api/protected/me");
                         ("method", JStr "POST")]))))
            Examples.idle).
Proof.
  apply (proj1 (method_not_allowed_405 Examples.express Examples.app_store
                  (Examples.request "POST" "/api/protected/me" []) Examples.idle
                  eq_refl)).
  - exists Examples.me_def. split; [right; left; reflexivity|reflexivity].
  - reflexivity.
  - reflexivity.
  - intros r [<-|[<-|[]]] _; reflexivity.
  - reflexivity.
Defined.

(** C4, on the code. The claim is that a request whose path has a
    registered method, but not its own, gets 405 with [Allow]. The table of
    the example has GET registered for [/api/users/:id], which is the route
    that serves [GET /api/users/42]; no handler takes [DELETE
    /api/users/42]. The index of the 405 pass has the declared path, not the
    requested one, as its key, so the pass finds nothing and the request
    gets the 404 of the default handler, without [Allow]. *)
Theorem parametrised_path_gets_404 :
  Examples.express "get" "/api/users/:id"
    (Examples.request "GET" "/api/users/42" []) = true /\
  (forall r, In r (routes Examples.app_store) ->
     Examples.express (toLowerCase (r_method r)) (r_path r)
       (Examples.request "DELETE" "/api/users/42" []) = false) /\
  collectMethods (routes Examples.app_store) !! "/api/users/:id" = Some ["GET"] /\
  collectMethods (routes Examples.app_store) !! "/api/users/42" = None /\
  dispatch Examples.express (stack (register Examples.app_store))
    (Examples.request "DELETE" "/api/users/42" []) Examples.idle =
    Some (None,
          set_res
            (mkRes true (JNum 404) ∅
               (Some (BodyJson
                  (JObj [("error", JStr "Not Found");
                         ("message", JStr "Route DELETE /api/users/42 not found");
                         ("path", JStr "/api/users/42");
                         ("method", JStr "DELETE")]))))
            Examples.idle).
Proof.
  split; [reflexivity|]. split.
  - intros r [<-|[<-|[]]]; reflexivity.
  - split; [|split].
    + rewrite collectMethods_lookup. reflexivity.
    + rewrite collectMethods_lookup. reflexivity.
    + reflexivity.
Qed.

End Resolution.

(* ===================================================================== *)
(** ** The two context stores *)
(* ===================================================================== *)

Module Context.

Import Transport Ambient Compiler Engine ChainFacts.

Lemma map_get_insert (m : gmap string JsValue) (k : string) (v : JsValue) :
  map_get (<[k := v]> m) k = v.
Proof. unfold map_get. now rewrite lookup_insert_eq. Qed.

Lemma map_get_insert_ne (m : gmap string JsValue) (k k' : string) (v : JsValue) :
  k <> k' -> map_get (<[k := v]> m) k' = map_get m k'.
Proof. intros Hne. unfold map_get. now rewrite lookup_insert_ne. Qed.

(** The entries of the scope after a write: the structured fields are not
    part of them. *)
Lemma useSetContext_entries (k : string) (v : JsValue) (w : World) (rc : RouteContext) :
  routeContext w = Some rc ->
  exists rc', routeContext (useSetContext k v w) = Some rc' /\
              middlewareContext rc' = <[k := v]> (middlewareContext rc) /\
              rc_req rc' = rc_req rc /\
              globalContext (useSetContext k v w) = globalContext w /\
              res (useSetContext k v w) = res w.
Proof.
  intros Hrc. unfold useSetContext. rewrite Hrc. eexists. split; [reflexivity|].
  destruct (String.eqb k "body"); [cbn; auto|].
  destruct (String.eqb k "query"); [cbn; auto|].
  destruct (String.eqb k "params"); cbn; auto.
Qed.

(** X1. Outside a request, [useSetContext] writes the global store: the
    value is what [useContext] then reads under the key, other keys read as
    before, and a request served afterwards reads it too, unless its own
    scope has an entry (that is not undefined) under the key. *)
Theorem global_write_is_read_back (k : string) (v : JsValue) (w : World) :
  routeContext w = None ->
  useContext k (useSetContext k v w) = v /\
  (forall k', k' <> k -> useContext k' (useSetContext k v w) = useContext k' w) /\
  (forall rc,
     useContext k (set_routeContext (Some rc) (useSetContext k v w)) =
       if defined (map_get (middlewareContext rc) k)
       then map_get (middlewareContext rc) k else v).
Proof.
  intros Hrc. unfold useSetContext, useContext. rewrite Hrc. cbn.
  split; [apply map_get_insert|]. split.
  - intros k' Hne. apply map_get_insert_ne. congruence.
  - intros rc. now rewrite map_get_insert.
Qed.

Lemma global_write_is_read_back_witness :
  useContext "config" (useSetContext "config" (JNum 1) Examples.idle) = JNum 1 /\
  useContext "config"
    (set_routeContext
       (Some (seeded (Examples.request "GET" "/" []) []))
       (useSetContext "config" (JNum 1) Examples.idle)) = JNum 1.
Proof.
  destruct (global_write_is_read_back "config" (JNum 1) Examples.idle eq_refl)
    as (Hread & _ & Hlater).
  split; [exact Hread|].
  exact (Hlater (seeded (Examples.request "GET" "/" []) [])).
Defined.

Lemma write_then_read (k : string) (v : JsValue) (w : World) (rc : RouteContext) :
  routeContext w = Some rc ->
  useContext k (useSetContext k v w) =
    if defined v then v else map_get (globalContext w) k.
Proof.
  intros Hrc.
  destruct (useSetContext_entries k v w rc Hrc) as (rc' & Hrc' & Hm & _ & Hg & _).
  unfold useContext. rewrite Hrc', Hm, Hg. now rewrite map_get_insert.
Qed.

Lemma write_frame (k k' : string) (v : JsValue) (w : World) (rc : RouteContext) :
  routeContext w = Some rc ->
  k' <> k -> useContext k' (useSetContext k v w) = useContext k' w.
Proof.
  intros Hrc Hne.
  destruct (useSetContext_entries k v w rc Hrc) as (rc' & Hrc' & Hm & _ & Hg & _).
  unfold useContext. rewrite Hrc', Hrc, Hm, Hg.
  rewrite map_get_insert_ne by congruence. reflexivity.
Qed.

(** X2. During a request, [useSetContext] writes the scope of the request
    and leaves the global store alone. A value that is not undefined hides
    the global value of the key; writing undefined hides nothing, the read
    falls through to the global store. Other keys read as before. *)
Theorem scoped_write_hides_global (k : string) (v : JsValue) (w : World)
    (rc : RouteContext) :
  routeContext w = Some rc ->
  useContext k (useSetContext k v w) =
    (if defined v then v else map_get (globalContext w) k) /\
  (forall k', k' <> k -> useContext k' (useSetContext k v w) = useContext k' w) /\
  globalContext (useSetContext k v w) = globalContext w.
Proof.
  intros Hrc. split; [now apply (write_then_read k v w rc)|]. split.
  - intros k' Hne. now apply (write_frame k k' v w rc).
  - now destruct (useSetContext_entries k v w rc Hrc) as (rc' & _ & _ & _ & Hg & _).
Qed.

Lemma scoped_write_hides_global_witness :
  let w := set_routeContext
             (Some (seeded (Examples.request "GET" "/" []) []))
             (useSetContext "user" (JStr "global") Examples.idle) in
  useContext "user" (useSetContext "user" (JStr "scoped") w) = JStr "scoped" /\
  useContext "user" (useSetContext "user" JUndefined w) = JStr "global".
Proof.
  intros w.
  split.
  - exact (proj1 (scoped_write_hides_global "user" (JStr "scoped") w _ eq_refl)).
  - exact (proj1 (scoped_write_hides_global "user" JUndefined w _ eq_refl)).
Defined.

(** The entries a request handler puts into the scope it opens. *)
Lemma seeded_lookup (req : Request) (bodySchema querySchema : JsValue) (k : string) :
  middlewareContext (seeded req [("_bodySchema", bodySchema);
                                 ("_querySchema", querySchema)]) !! k =
    if String.eqb k "_querySchema" then (if truthy querySchema then Some querySchema else None)
    else if String.eqb k "_bodySchema" then (if truthy bodySchema then Some bodySchema else None)
    else if String.eqb k "body" then Some (req_body req)
    else if String.eqb k "query" then Some (req_query req)
    else if String.eqb k "headers" then Some (req_headers req)
    else if String.eqb k "method" then Some (JStr (req_method req))
    else if String.eqb k "path" then Some (JStr (req_path req))
    else if String.eqb k "params" then Some (req_params req)
    else if String.eqb k "res" then Some (JHost HRes)
    else if String.eqb k "req" then Some (JHost HReq)
    else None.
Proof.
  unfold seeded. cbn [fold_left fst snd].
  destruct (String.eqb_spec k "_querySchema") as [->|Hq].
  { destruct (truthy querySchema); [apply lookup_insert_eq|].
    destruct (truthy bodySchema); reflexivity. }
  destruct (String.eqb_spec k "_bodySchema") as [->|Hb].
  { destruct (truthy querySchema), (truthy bodySchema); reflexivity. }
  assert (Hskip : forall rc : RouteContext,
            middlewareContext
              (if truthy querySchema
               then ctx_set "_querySchema" querySchema
                      (if truthy bodySchema then ctx_set "_bodySchema" bodySchema rc else rc)
               else if truthy bodySchema then ctx_set "_bodySchema" bodySchema rc else rc)
              !! k = middlewareContext rc !! k).
  { intros rc. destruct (truthy querySchema), (truthy bodySchema);
      cbn [ctx_set middlewareContext]; rewrite ?lookup_insert_ne by congruence;
      reflexivity. }
  rewrite Hskip. cbn [ctx_set middlewareContext rc_query rc_body].
  repeat match goal with
         | |- context [String.eqb k ?s] =>
             destruct (String.eqb_spec k s) as [->|?];
               [reflexivity|rewrite lookup_insert_ne by congruence]
         end.
  apply lookup_empty.
Qed.

(** X3. The scope a request handler opens: [req], [res], [path] and
    [method] read as the request's; [params], [query], [body] and [headers]
    read as the request's when they are not undefined, and fall through to
    the global store when they are; a schema of the route is there under
    its key when it is truthy; and [useRoute()] gives the request with its
    params, query and body. *)
Theorem request_scope_is_seeded (req : Request) (bodySchema querySchema : JsValue)
    (w : World) :
  let w1 := set_routeContext
              (Some (seeded req [("_bodySchema", bodySchema);
                                 ("_querySchema", querySchema)])) w in
  useContext "req" w1 = JHost HReq /\
  useContext "res" w1 = JHost HRes /\
  useContext "path" w1 = JStr (req_path req) /\
  useContext "method" w1 = JStr (req_method req) /\
  Forall (fun kv => useContext (fst kv) w1 =
                      if defined (snd kv) then snd kv
                      else map_get (globalContext w) (fst kv))
         [("params", req_params req); ("query", req_query req);
          ("body", req_body req); ("headers", req_headers req)] /\
  Forall (fun kv => useContext (fst kv) w1 =
                      if truthy (snd kv) then snd kv
                      else map_get (globalContext w) (fst kv))
         [("_bodySchema", bodySchema); ("_querySchema", querySchema)] /\
  exists rc, useRoute w1 = inr rc /\ rc_req rc = req /\
             rc_params rc = req_params req /\ rc_query rc = req_query req /\
             rc_body rc = req_body req.
Proof.
  intros w1.
  assert (Hread : forall k, useContext k w1 =
            let v := default JUndefined
                       (middlewareContext
                          (seeded req [("_bodySchema", bodySchema);
                                       ("_querySchema", querySchema)]) !! k) in
            if defined v then v else map_get (globalContext w) k) by reflexivity.
  assert (Hdef : forall v, truthy v = true -> defined v = true)
    by (intros v; destruct v; (discriminate || reflexivity)).
  repeat match goal with
         | |- _ /\ _ => split
         | |- Forall _ (_ :: _) => apply List.Forall_cons
         | |- Forall _ [] => apply List.Forall_nil
         end; cbn [fst snd];
    try (rewrite Hread, seeded_lookup; cbn [String.eqb Ascii.eqb Bool.eqb from_option id];
         cbv zeta; try reflexivity).
  - destruct (truthy bodySchema) eqn:Hb; cbn [from_option id];
      [now rewrite (Hdef _ Hb)|reflexivity].
  - destruct (truthy querySchema) eqn:Hq; cbn [from_option id];
      [now rewrite (Hdef _ Hq)|reflexivity].
  - unfold w1, useRoute, seeded. cbn [routeContext set_routeContext fold_left fst snd].
    eexists. split; [reflexivity|].
    destruct (truthy querySchema), (truthy bodySchema); cbn; auto.
Qed.

End Context.

(* ===================================================================== *)
(** ** What a request handler does to the response *)
(* ===================================================================== *)

Module Request.

Import Transport Ambient Compiler Engine ChainFacts.

Section Invariant.

(** A property of the world that context writes and calls on the response
    keep is kept by every body, and by the whole chain. *)
Variable I : World -> Prop.
Hypothesis I_set : forall k v w, I w -> I (useSetContext k v w).
Hypothesis I_res : forall op w, I w -> I (set_res (snd (run_op op (res w))) w).

Lemma interp_world {N} (next : N -> St -> option (Completion * St)) :
  (forall n st c st', I (world st) -> next n st = Some (c, st') -> I (world st')) ->
  forall p st c st', I (world st) -> interp next p st = Some (c, st') -> I (world st').
Proof.
  intros Hnext.
  induction p as [v|e|n k IH|key value k IH|key k IH|k IH|k IH|op k IH];
    intros st c st' Hst Hrun; cbn [interp] in Hrun.
  - now inversion Hrun; subst.
  - now inversion Hrun; subst.
  - destruct (next n st) as [[c1 s1]|] eqn:Hn; [|discriminate].
    eapply IH; [|exact Hrun]. eapply Hnext; eassumption.
  - eapply IH; [|exact Hrun]. cbn. now apply I_set.
  - eapply IH; eassumption.
  - eapply IH; eassumption.
  - destruct (useRoute (world st)); [now inversion Hrun; subst|].
    eapply IH; eassumption.
  - pose proof (I_res op _ Hst) as Hr.
    destruct (run_op op (res (world st))) as [[e|[]] r']; cbn [snd] in Hr.
    + now inversion Hrun; subst.
    + eapply IH; [|exact Hrun]. exact Hr.
Qed.

Lemma exec_world (req : Request) (handler : Handler) (middlewares : list Middleware) :
  forall fuel st c st',
    I (world st) ->
    executeNextMiddleware fuel req handler middlewares st = Some (c, st') ->
    I (world st').
Proof.
  induction fuel as [|fuel IH]; intros st c st' Hst Hrun; [discriminate|].
  rewrite exec_S in Hrun.
  destruct (length middlewares <=? middlewareIndex st)%nat.
  - eapply (interp_world no_next); [intros []| |exact Hrun]. exact Hst.
  - destruct (middlewares !! middlewareIndex st) as [m|].
    + eapply interp_world; [| |exact Hrun]; [|exact Hst].
      intros n s c1 s1 Hs H1. eapply IH; eassumption.
    + now inversion Hrun; subst.
Qed.

End Invariant.

Lemma Keeps_bind {A B} (m : T A) (f : A -> T B) :
  Keeps m -> (forall a, Keeps (f a)) -> Keeps (bind m f).
Proof.
  intros Hm Hf r x r' Hr Hrun. unfold bind in Hrun.
  destruct (m r) as [[e|a] r1] eqn:Hm1.
  - inversion Hrun; subst. eapply Hm; eassumption.
  - destruct (Hm _ _ _ Hr Hm1) as (H1 & H2 & H3).
    destruct (Hf a _ _ _ H1 Hrun) as (H4 & H5 & H6).
    split; [exact H4|]. split; congruence.
Qed.

Lemma Keeps_ret {A} (a : A) : Keeps (ret a).
Proof. intros r x r' Hr H. inversion H; subst. split; auto. Qed.

Lemma Keeps_when (c : bool) (m : T unit) : Keeps m -> Keeps (when c m).
Proof. intros Hm. destruct c; [exact Hm|apply Keeps_ret]. Qed.

Lemma Keeps_op (op : ResOp) : Keeps (run_op op).
Proof.
  intros r x r' Hr Hrun.
  destruct op; cbn in Hrun;
    unfold status, type, setHeader, send, json, put, end_, redirect in Hrun;
    try rewrite Hr in Hrun; try destruct (valid_status code);
    inversion Hrun; subst; split; auto.
Qed.

Lemma Keeps_setHeaders (es : list (string * JsValue)) : Keeps (setHeaders es).
Proof.
  induction es as [|[h v] es IH]; [apply Keeps_ret|].
  cbn [setHeaders]. apply Keeps_bind; [apply (Keeps_op (OpSetHeader h v))|].
  intros _. exact IH.
Qed.

Lemma Keeps_guarded (m : T unit) :
  Keeps (bind getHeadersSent (fun wasSent => when (negb wasSent) m)).
Proof.
  intros r x r' Hr Hrun. unfold bind, getHeadersSent in Hrun. rewrite Hr in Hrun.
  inversion Hrun; subst. split; auto.
Qed.

Lemma Keeps_sendResponseNode (props : JsValue) : Keeps (sendResponseNode props).
Proof.
  unfold sendResponseNode.
  apply Keeps_bind; [apply Keeps_when, Keeps_setHeaders|]. intros _.
  repeat match goal with
         | |- Keeps (if ?c then _ else _) => destruct c
         | |- Keeps (bind _ _) => apply Keeps_bind; [|intros _]
         | |- Keeps (when _ _) => apply Keeps_when
         | |- Keeps (Transport.status ?c) => apply (Keeps_op (OpStatus c))
         | |- Keeps (Transport.type ?t) => apply (Keeps_op (OpType t))
         | |- Keeps (Transport.send ?s) => apply (Keeps_op (OpSend s))
         | |- Keeps (Transport.json ?v) => apply (Keeps_op (OpJson v))
         | |- Keeps Transport.end_ => apply (Keeps_op OpEnd)
         | |- Keeps (Transport.redirect ?c ?u) => apply (Keeps_op (OpRedirect c u))
         end.
Qed.

Lemma Keeps_sendResponseFromOutput (output : JsValue) :
  Keeps (sendResponseFromOutput output).
Proof.
  unfold sendResponseFromOutput.
  destruct (negb (truthy output)); [apply Keeps_guarded|].
  destruct (typeof_object output); [|apply (Keeps_op (OpSend _))].
  destruct (isResponseElement output); [apply Keeps_sendResponseNode|apply Keeps_guarded].
Qed.

Lemma Sends_bind {A B} (m : T A) (f : A -> T B) :
  (forall a, Sends (f a)) -> Sends (bind m f).
Proof.
  intros Hf r b r' Hrun. unfold bind in Hrun.
  destruct (m r) as [[e|a] r1]; [discriminate|]. eapply Hf. exact Hrun.
Qed.

Lemma Sends_put (b : Body) : Sends (put b).
Proof.
  intros r a r' H. unfold put in H. destruct (headersSent r); [discriminate|].
  now inversion H.
Qed.

Lemma Sends_end : Sends end_.
Proof.
  intros r a r' H. unfold end_ in H. destruct (headersSent r) eqn:Hr;
    inversion H; subst; [exact Hr|reflexivity].
Qed.

Lemma Sends_redirect (code url : JsValue) : Sends (redirect code url).
Proof.
  intros r a r' H. unfold redirect in H. destruct (headersSent r); [discriminate|].
  destruct (valid_status code); [|discriminate]. now inversion H.
Qed.

Lemma Sends_guarded (m : T unit) :
  Sends m -> Sends (bind getHeadersSent (fun wasSent => when (negb wasSent) m)).
Proof.
  intros Hm r a r' Hrun. unfold bind, getHeadersSent in Hrun.
  destruct (headersSent r) eqn:Hr; cbn in Hrun.
  - inversion Hrun; subst. exact Hr.
  - eapply Hm. exact Hrun.
Qed.

Lemma Sends_sendResponseFromOutput (output : JsValue) :
  Sends (sendResponseFromOutput output).
Proof.
  assert (Hfail : forall msg,
            Sends (bind getHeadersSent (fun wasSent =>
                     when (negb wasSent)
                       (bind (Transport.status (JNum 500))
                             (fun _ => Transport.json (error_body msg)))))).
  { intros msg. apply Sends_guarded, Sends_bind. intros _. apply Sends_put. }
  unfold sendResponseFromOutput.
  destruct (negb (truthy output)); [apply Hfail|].
  destruct (typeof_object output); [|apply Sends_put].
  destruct (isResponseElement output); [|apply Hfail].
  unfold sendResponseNode. apply Sends_bind. intros _.
  repeat match goal with
         | |- Sends (if ?c then _ else _) => destruct c
         | |- Sends (bind _ _) => apply Sends_bind; intros _
         | |- Sends (Transport.send _) => apply Sends_put
         | |- Sends (Transport.json _) => apply Sends_put
         | |- Sends Transport.end_ => apply Sends_end
         | |- Sends (Transport.redirect _ _) => apply Sends_redirect
         end.
Qed.

(** X6. Every request that reaches a request handler is answered: when
    the handler is done, the response has been sent, whatever the
    middlewares and the handler returned or threw. *)
Theorem every_request_is_answered (req : Request) (handler : Element)
    (middlewares : list Middleware) (schemas : list (string * JsValue)) (w : World) :
  exists w',
    scoped req handler middlewares schemas w = Some (None, w') /\
    headersSent (res w') = true.
Proof.
  unfold scoped.
  destruct (Scope.runChain_total req handler middlewares
              (set_routeContext (Some (seeded req schemas)) w)) as (c & st & Hrun).
  rewrite Hrun.
  assert (Hcatch : forall r, headersSent (snd (catchBlock r)) = true /\
                             fst (catchBlock r) = inr tt).
  { intros r. rewrite Scope.catchBlock_spec. cbn [fst snd].
    destruct (headersSent r) eqn:Hr; auto. }
  destruct c as [output|e].
  - destruct (sendResponseFromOutput output (res (world st))) as [[e|[]] r] eqn:Hsend.
    + destruct (Hcatch r) as [H1 H2]. rewrite H2. eexists. split; [reflexivity|exact H1].
    + cbn [fst snd]. eexists. split; [reflexivity|].
      cbn. eapply Sends_sendResponseFromOutput. exact Hsend.
  - destruct (Hcatch (res (world st))) as [H1 H2]. rewrite H2.
    eexists. split; [reflexivity|exact H1].
Qed.

(** X7. A response that has been sent stands. Once the response is sent,
    nothing that runs later in the chain changes its body or its headers;
    and when the chain is over with the response sent (a middleware or the
    handler answered on [res] itself), the request handler adds nothing:
    neither the normalization of what the chain returned nor the handling
    of what it threw touches body or headers. *)
Theorem sent_response_stands (req : Request) :
  (forall (handler : Handler) (middlewares : list Middleware) fuel st c st',
     headersSent (res (world st)) = true ->
     executeNextMiddleware fuel req handler middlewares st = Some (c, st') ->
     stands (res (world st)) (res (world st'))) /\
  (forall (handler : Element) (middlewares : list Middleware)
          (schemas : list (string * JsValue)) (w : World) c st,
     runChain req handler middlewares
       (set_routeContext (Some (seeded req schemas)) w) = Some (c, st) ->
     headersSent (res (world st)) = true ->
     exists w',
       scoped req handler middlewares schemas w = Some (None, w') /\
       stands (res (world st)) (res w')).
Proof.
  split.
  - intros handler middlewares fuel st c st' Hsent Hrun.
    eapply (exec_world (fun w' => stands (res (world st)) (res w')));
      [| | |exact Hrun].
    + intros k v w0 Hw0. unfold useSetContext.
      destruct (routeContext w0); exact Hw0.
    + intros op w0 (H1 & H2 & H3).
      destruct (run_op op (res w0)) as [x r'] eqn:Hop.
      destruct (Keeps_op op _ _ _ H1 Hop) as (H4 & H5 & H6).
      cbn. split; [exact H4|]. split; congruence.
    + split; auto.
  - intros handler middlewares schemas w c st Hrun Hsent.
    unfold scoped. rewrite Hrun.
    assert (Hcatch : forall r, headersSent r = true -> catchBlock r = (inr tt, r)).
    { intros r Hr. rewrite Scope.catchBlock_spec. now rewrite Hr. }
    destruct c as [output|e].
    + destruct (sendResponseFromOutput output (res (world st))) as [[e|[]] r] eqn:Hsend;
        destruct (Keeps_sendResponseFromOutput _ _ _ _ Hsent Hsend) as (H1 & H2 & H3).
      * rewrite (Hcatch r H1). eexists. split; [reflexivity|]. now split.
      * eexists. split; [reflexivity|]. now split.
    + rewrite (Hcatch _ Hsent). eexists. split; [reflexivity|]. now split.
Qed.

Lemma sent_response_stands_witness :
  exists w',
    scoped (Examples.request "DELETE" "/item" []) (EFun Examples.answers_itself) [] []
      Examples.idle = Some (None, w') /\
    sent (res w') = Some BodyEmpty /\ headers (res w') = ∅.
Proof.
  destruct (proj2 (sent_response_stands (Examples.request "DELETE" "/item" []))
              (EFun Examples.answers_itself) [] [] Examples.idle _ _ eq_refl eq_refl)
    as (w' & Hrun & _ & Hbody & Hheaders).
  exists w'. split; [exact Hrun|]. split; [exact Hbody|exact Hheaders].
Defined.

End Request.

(* ===================================================================== *)
(** ** More on the compiled tree *)
(* ===================================================================== *)

Module Tree.

Import Ambient Compiler Engine CompilerFacts.

Lemma collected_other (c : Element) :
  is_middleware_node c = false -> collected c = [].
Proof.
  destruct c as [| | | |ty props|name props rendered]; try reflexivity; cbn.
  - now intros ->.
  - now intros ->.
Qed.

(** The first pass only looks at the Middleware nodes. *)
Lemma collected_filter (items : list Element) :
  flat_map collected items = flat_map collected (List.filter is_middleware_node items).
Proof.
  induction items as [|c items IH]; [reflexivity|].
  cbn [flat_map List.filter]. destruct (is_middleware_node c) eqn:Hc.
  - cbn [flat_map]. now rewrite IH.
  - now rewrite (collected_other _ Hc), IH.
Qed.

(** X8. Where a Middleware node stands among the children of a RouteGroup
    does not matter: two lists of children with the same Middleware nodes,
    in the same order, and the same other children, in the same order,
    compile alike. A Middleware node declared after a Route guards that
    Route as well. *)
Theorem group_middleware_position_free (ty : NodeType) (props : Props Element)
    (items items' : list Element) (pathPrefix : string)
    (middlewares : list Middleware) (st : Store) :
  is_kind ty "RouteGroup" = true ->
  List.filter is_middleware_node items = List.filter is_middleware_node items' ->
  List.filter (fun c => negb (is_middleware_node c)) items =
    List.filter (fun c => negb (is_middleware_node c)) items' ->
  processElement (ENode ty (with_children props (EArr items))) pathPrefix middlewares st =
  processElement (ENode ty (with_children props (EArr items'))) pathPrefix middlewares st.
Proof.
  intros Hg Hmw Hrest. rewrite !processElement_node.
  rewrite (is_kind_only _ _ "App" Hg), Bool.andb_false_r by discriminate.
  rewrite Hg, (is_kind_truthy _ _ Hg) by discriminate. cbn [andb].
  rewrite !others_filter.
  cbn [with_children children prefix middleware elem_truthy as_array].
  rewrite Hrest, (collected_filter items), (collected_filter items'), Hmw.
  reflexivity.
Qed.

Lemma group_middleware_position_free_witness :
  processElement Examples.protected_late "" [] empty_store =
    (None,
     {| routes := [{| r_method := "get"; r_path := "/api/protected/me";
                      r_handler := EFun Examples.me;
                      r_middlewares := [Examples.authMiddleware];
                      r_querySchema := JUndefined; r_bodySchema := JUndefined |}];
        appConfig := appConfig empty_store |}).
Proof.
  unfold Examples.protected_late.
  rewrite (group_middleware_position_free (TyStr "RouteGroup") Examples.protected_p
             [Examples.me_route; Examples.auth_node]
             [Examples.auth_node; Examples.me_route] "" [] empty_store
             eq_refl eq_refl eq_refl).
  reflexivity.
Defined.

Lemma forEach_skip (f : Element -> Store -> Outcome) (m : Element)
    (pre post : list Element) (st : Store) :
  (forall s, f m s = (None, s)) ->
  forEach f (pre ++ m :: post) st = forEach f (pre ++ post) st.
Proof.
  intros Hm. revert st. induction pre as [|c pre IH]; intros st; cbn [app forEach].
  - now rewrite Hm.
  - destruct (f c st) as [[e|] st1]; [reflexivity|apply IH].
Qed.

(** X9. A Middleware node only works as the direct child of a RouteGroup.
    Among the children of an App, or in an array of elements, it adds its
    middleware to no route: the tree compiles exactly as without the
    node. *)
Theorem middleware_node_needs_a_group (p u : Props Element) (pre post : list Element)
    (pathPrefix : string) (middlewares : list Middleware) (st : Store) :
  let node := jsx "Middleware" MiddlewareNode u in
  processElement (App (with_children p (EArr (pre ++ node :: post))))
    pathPrefix middlewares st =
  processElement (App (with_children p (EArr (pre ++ post)))) pathPrefix middlewares st /\
  processElement (EArr (pre ++ node :: post)) pathPrefix middlewares st =
  processElement (EArr (pre ++ post)) pathPrefix middlewares st.
Proof.
  intros node.
  assert (Hnode : forall pfx mws s, processElement node pfx mws s = (None, s))
    by reflexivity.
  split.
  - unfold App. rewrite !processElement_node.
    cbn [type_truthy is_kind String.eqb Ascii.eqb Bool.eqb negb andb
         with_children children middleware port cors as_array].
    apply forEach_skip. intros s. apply Hnode.
  - cbn [processElement]. apply forEach_skip. intros s. apply Hnode.
Qed.

(** Compilation that did not throw went through every element of the
    tree. *)
Lemma processElement_reaches (e : Element) (ancestors : list Element) (target : Element) :
  Encloses e ancestors target ->
  forall pathPrefix middlewares st st',
    processElement e pathPrefix middlewares st = (None, st') ->
    exists pathPrefix' middlewares' st1 st2,
      processElement target pathPrefix' middlewares' st1 = (None, st2).
Proof.
  induction 1 as [e|e c anc target Hin Henc IH]; intros pfx mws st st' Hrun; [eauto 6|].
  destruct (below_processed _ _ _ _ _ _ Hrun Hin) as (st1 & st2 & new & Hc & _).
  eapply IH. exact Hc.
Qed.

(** X10. A Route with a path and a handler and no method (or an empty one)
    throws "Route with path ... is missing a required "method" property",
    and a tree that holds such a Route anywhere cannot be served: [serve]
    throws before any handler is registered. *)
Theorem route_without_method_is_refused (root : Element) (ancestors : list Element)
    (ty : NodeType) (props : Props Element) :
  Encloses root ancestors (ENode ty props) ->
  is_kind ty "Route" = true ->
  present (path props) = true ->
  elem_truthy (children props) = true ->
  present (method props) = false ->
  (forall pathPrefix middlewares st,
     processElement (ENode ty props) pathPrefix middlewares st =
       (Some (missing_method (path props)), st)) /\
  exists e, fst (compile root) = Some e /\ serve root = inl e.
Proof.
  intros Henc Hk Hp Hc Hm.
  assert (Hnode : forall pathPrefix middlewares st,
            processElement (ENode ty props) pathPrefix middlewares st =
              (Some (missing_method (path props)), st)).
  { intros pfx mws st. rewrite processElement_node.
    rewrite (is_kind_only _ _ "App" Hk), (is_kind_only _ _ "RouteGroup" Hk),
      !Bool.andb_false_r by discriminate.
    rewrite Hk, (is_kind_truthy _ _ Hk) by discriminate. cbn [andb].
    unfold processRoute. now rewrite Hp, Hc, Hm. }
  split; [exact Hnode|].
  unfold serve. destruct (compile root) as [[e|] st'] eqn:Hrun; [eauto|].
  exfalso.
  destruct (processElement_reaches _ _ _ Henc _ _ _ _ Hrun) as (pfx & mws & s1 & s2 & H).
  rewrite Hnode in H. discriminate H.
Qed.

Lemma route_without_method_is_refused_witness :
  serve Examples.methodless_group = inl (missing_method (Some "/me")).
Proof.
  assert (Henc : Encloses Examples.methodless_group [Examples.methodless_group]
                   (ENode (TyStr "Route") Examples.methodless_p))
    by (eapply down; [left; reflexivity|apply here]).
  destruct (route_without_method_is_refused Examples.methodless_group
              [Examples.methodless_group] (TyStr "Route") Examples.methodless_p
              Henc eq_refl eq_refl eq_refl eq_refl)
    as (_ & e & He & Hserve).
  rewrite Hserve. cbn in He. inversion He; subst. reflexivity.
Defined.

(** X11. The 6969 of [serve] is the port of a tree without any App node:
    such a tree, when it compiles, is served on port 6969 and without
    CORS. *)
Theorem tree_without_App_listens_on_6969 (root : Element) (server : Server) :
  (forall ancestors ty props,
     Encloses root ancestors (ENode ty props) -> is_kind ty "App" = false) ->
  serve root = inr server ->
  listening server = JNum 6969 /\ corsOptions server = JUndefined.
Proof.
  intros Hnone Hserve. unfold serve in Hserve.
  destruct (compile root) as [[e|] st] eqn:Hc; [discriminate|].
  inversion Hserve; subst. cbn [listening corsOptions register].
  destruct (Port.processElement_configures _ _ _ _ _ _ Hc) as [Heq|Hfrom].
  - rewrite Heq. cbn. auto.
  - destruct Hfrom as (anc & ty & props & Henc & Hk & _).
    rewrite (Hnone _ _ _ Henc) in Hk. discriminate Hk.
Qed.

Lemma tree_without_App_listens_on_6969_witness :
  exists server,
    serve Examples.protected_group = inr server /\
    listening server = JNum 6969 /\ corsOptions server = JUndefined.
Proof.
  eexists. split; [reflexivity|].
  apply (tree_without_App_listens_on_6969 Examples.protected_group).
  - intros ancestors ty props Henc.
    repeat match goal with
           | H : Encloses ?e _ (ENode _ _) |- _ =>
               tryif is_var e then fail else (inversion H; clear H; subst)
           | H : In _ (below _) |- _ => progress cbn in H
           | H : _ \/ _ |- _ => destruct H as [<-|H]
           | H : False |- _ => destruct H
           end; reflexivity.
  - reflexivity.
Defined.

(** X12. The port and the CORS setting of the App node are the ones of
    the server: when the root of the tree is an App node and the App nodes
    of the tree (there is one, as a rule) have the (truthy) port [v] and
    the CORS setting [c], the server listens on [v], with [c]. *)
Theorem App_port_and_cors_are_used (root : Element) (server : Server)
    (v c : JsValue) :
  AppRooted root ->
  (forall ancestors ty props,
     Encloses root ancestors (ENode ty props) -> is_kind ty "App" = true ->
     port props = v /\ cors props = c) ->
  truthy v = true ->
  serve root = inr server ->
  listening server = v /\ corsOptions server = c.
Proof.
  intros Hroot Hall Hv Hserve. unfold serve in Hserve.
  destruct (compile root) as [[e|] st] eqn:Hc; [discriminate|].
  inversion Hserve; subst. cbn [listening corsOptions register].
  destruct (Port.AppRooted_configured _ Hroot _ _ _ _ _ Hc)
    as (anc & ty & props & Henc & Hk & ->).
  destruct (Hall _ _ _ Henc Hk) as [-> ->]. cbn [cfg_port cfg_cors].
  unfold js_or. now rewrite !Hv.
Qed.

Lemma App_port_and_cors_are_used_witness :
  exists server,
    serve Examples.app_on_3000 = inr server /\
    listening server = JNum 3000 /\ corsOptions server = JBool true.
Proof.
  eexists. split; [reflexivity|].
  apply (App_port_and_cors_are_used Examples.app_on_3000).
  - apply app_component, app_node. reflexivity.
  - intros ancestors ty props Henc Hk.
    repeat match goal with
           | H : Encloses ?e _ (ENode _ _) |- _ =>
               tryif is_var e then fail else (inversion H; clear H; subst)
           | H : In _ (below _) |- _ => progress cbn in H
           | H : _ \/ _ |- _ => destruct H as [<-|H]
           | H : False |- _ => destruct H
           end; try discriminate; auto.
  - reflexivity.
  - reflexivity.
Defined.

Lemma append_is_star (a b : string) :
  a +:+ b = "*" -> b <> "" -> a = "" /\ b = "*".
Proof.
  destruct a as [|x a]; [auto|].
  change (String x a +:+ b) with (String x (a +:+ b)).
  intros H Hb. inversion H as [[Hx Hrest]].
  destruct a; [now destruct Hb|discriminate Hrest].
Qed.

(** X13. A Route is the catch-all of the application only when it is
    declared with the path "*" outside every prefixed RouteGroup: each
    route that [serve] sets aside as a wildcard route comes from a Route
    node with path "*" whose enclosing groups add no prefix. Under a group
    with prefix "/api" the path "*" compiles to "/api*", an ordinary
    path. *)
Theorem catch_all_needs_bare_path (root : Element) (out : option JsValue)
    (st : Store) (r : RouteDefinition) :
  compile root = (out, st) ->
  In r (routes st) ->
  is_wildcard r = true ->
  exists ancestors ty props,
    Encloses root ancestors (ENode ty props) /\
    is_kind ty "Route" = true /\
    path props = Some "*" /\
    concatenation (group_prefixes ancestors) = "" /\
    r_handler r = children props.
Proof.
  intros Hc Hin Hw.
  destruct (processElement_emits _ _ _ _ _ _ Hc) as (new & Hnew & Hall).
  cbn in Hnew. subst new. rewrite List.Forall_forall in Hall.
  destruct (Hall r Hin) as (anc & ty & props & Henc & Hk & Hp & _ & _ & _ & ->).
  unfold is_wildcard in Hw. cbn [r_path] in Hw. apply String.eqb_eq in Hw.
  change ("" +:+ concatenation (group_prefixes anc) +:+ text (path props))
    with (concatenation (group_prefixes anc) +:+ text (path props)) in Hw.
  destruct (path props) as [p|] eqn:Hpath; [|discriminate Hp].
  cbn [text from_option id] in Hw.
  destruct (append_is_star _ _ Hw) as [Hpre ->].
  { intros ->. discriminate Hp. }
  exists anc, ty, props. rewrite Hpath. cbn [r_handler]. auto.
Qed.

Lemma catch_all_needs_bare_path_witness :
  exists ancestors ty props,
    Encloses Examples.app_with_fallback ancestors (ENode ty props) /\
    is_kind ty "Route" = true /\
    path props = Some "*" /\
    concatenation (group_prefixes ancestors) = "" /\
    EFun Examples.greet = children props.
Proof.
  exact (catch_all_needs_bare_path Examples.app_with_fallback None
           {| routes := [Examples.me_def_bare; Examples.fallback_def];
              appConfig := {| cfg_port := JNum 9000; cfg_cors := JBool true |} |}
           Examples.fallback_def eq_refl (or_intror (or_introl eq_refl)) eq_refl).
Defined.

End Tree.

(* ===================================================================== *)
(** ** The methods of a path *)
(* ===================================================================== *)

Module Methods.

Import Transport Ambient Compiler Engine CompilerFacts RouteTable Resolution.

Lemma once_In (acc : list string) (m x : string) :
  In x (once acc m) <-> In x acc \/ x = m.
Proof.
  unfold once. destruct (includes acc m) eqn:Hi.
  - apply includes_In in Hi. split; [auto|]. intros [H| ->]; assumption.
  - rewrite in_app_iff. cbn. intuition congruence.
Qed.

Lemma once_NoDup (acc : list string) (m : string) :
  List.NoDup acc -> List.NoDup (once acc m).
Proof.
  intros Hnd. unfold once. destruct (includes acc m) eqn:Hi; [exact Hnd|].
  assert (Hm : ~ In m acc).
  { intros Hin. apply includes_In in Hin. congruence. }
  clear Hi. induction Hnd as [|x l Hx Hl IH]; cbn.
  - constructor; [intros []|constructor].
  - constructor.
    + rewrite in_app_iff. cbn. intros [H|[H|[]]]; [now apply Hx|].
      subst. apply Hm. now left.
    + apply IH. intros H. apply Hm. now right.
Qed.

Lemma fold_once (l acc : list string) :
  (List.NoDup acc -> List.NoDup (fold_left once l acc)) /\
  forall x, In x (fold_left once l acc) <-> In x acc \/ In x l.
Proof.
  revert acc. induction l as [|m l IH]; intros acc; cbn [fold_left].
  - split; [auto|]. intros x. cbn. tauto.
  - destruct (IH (once acc m)) as [Hnd Hin]. split.
    + intros H. now apply Hnd, once_NoDup.
    + intros x. rewrite Hin, once_In. cbn. intuition congruence.
Qed.

(** X14. The index of the 405 pass is exact. A path has an entry exactly
    when a regular route was declared with that very path; the entry has
    no method twice, and it holds the upper-cased methods of the routes
    declared with the path, and nothing else. *)
Theorem allowed_methods_exact (regularRoutes : list RouteDefinition) (p : string) :
  (collectMethods regularRoutes !! p = None <->
   forall r, In r regularRoutes -> r_path r <> p) /\
  (forall allowed,
     collectMethods regularRoutes !! p = Some allowed ->
     List.NoDup allowed /\
     forall m, In m allowed <->
               exists r, In r regularRoutes /\ r_path r = p /\
                         toUpperCase (r_method r) = m).
Proof.
  rewrite collectMethods_lookup.
  assert (Hf : forall r, In r (List.filter (fun r => String.eqb (r_path r) p) regularRoutes)
                         <-> In r regularRoutes /\ r_path r = p).
  { intros r. rewrite List.filter_In, String.eqb_eq. tauto. }
  split.
  - destruct (List.filter (fun r => String.eqb (r_path r) p) regularRoutes) as [|r0 l].
    + split; [|reflexivity]. intros _ r Hin Hp. now apply (proj2 (Hf r)).
    + split; [discriminate|]. intros Hno. exfalso.
      destruct (proj1 (Hf r0) (or_introl eq_refl)) as [Hin Hp]. now apply (Hno r0).
  - intros allowed Hsome.
    assert (Hall : allowed = allowedFor p regularRoutes).
    { destruct (List.filter (fun r => String.eqb (r_path r) p) regularRoutes);
        [discriminate|]. now inversion Hsome. }
    subst allowed. unfold allowedFor.
    destruct (fold_once
                (map (fun r => toUpperCase (r_method r))
                     (List.filter (fun r => String.eqb (r_path r) p) regularRoutes)) [])
      as [Hnd Hin].
    split; [apply Hnd; constructor|].
    intros m. rewrite Hin, in_map_iff. split.
    + intros [[]|(r & Hm & Hr)]. apply Hf in Hr as [Hr Hp]. eauto.
    + intros (r & Hr & Hp & Hm). right. exists r. split; [exact Hm|]. now apply Hf.
Qed.

Lemma allowed_methods_exact_witness :
  collectMethods (routes Examples.app_store) !! "/api/users/:id" = Some ["GET"] /\
  List.NoDup ["GET"] /\
  (exists r, In r (routes Examples.app_store) /\ r_path r = "/api/users/:id" /\
             toUpperCase (r_method r) = "GET").
Proof.
  assert (Hentry : collectMethods (routes Examples.app_store) !! "/api/users/:id"
                   = Some ["GET"])
    by (rewrite collectMethods_lookup; reflexivity).
  destruct (proj2 (allowed_methods_exact (routes Examples.app_store) "/api/users/:id")
              ["GET"] Hentry) as [Hnd Hin].
  split; [exact Hentry|]. split; [exact Hnd|].
  apply Hin. now left.
Defined.

Lemma addMethod_known (m : gmap string (list string)) (r : RouteDefinition)
    (l : list string) :
  m !! r_path r = Some l -> In (toUpperCase (r_method r)) l -> addMethod m r = m.
Proof.
  intros Hl Hin. unfold addMethod. rewrite Hl. cbn [from_option id].
  rewrite Hl. cbn [from_option id].
  now rewrite (proj2 (includes_In _ _) Hin).
Qed.

Lemma collect_has (rs : list RouteDefinition) (m : gmap string (list string))
    (p u : string) :
  (exists l, m !! p = Some l /\ In u l) \/
  (exists r, In r rs /\ r_path r = p /\ toUpperCase (r_method r) = u) ->
  exists l, fold_left addMethod rs m !! p = Some l /\ In u l.
Proof.
  revert m. induction rs as [|x rs IH]; intros m H; cbn [fold_left].
  - destruct H as [H|(r & [] & _)]. exact H.
  - apply IH. rewrite addMethod_lookup.
    destruct H as [(l & Hl & Hu)|(r & [<-|Hr] & Hp & Hu)].
    + left. destruct (String.eqb (r_path x) p); [|eauto].
      eexists. split; [reflexivity|]. apply once_In. left. now rewrite Hl.
    + left. rewrite (proj2 (String.eqb_eq _ _) Hp).
      eexists. split; [reflexivity|]. apply once_In. now right.
    + right. eauto.
Qed.

(** Declaring a method again for a path leaves the index as it is. *)
Lemma collectMethods_again (front back : list RouteDefinition) (r1 r2 : RouteDefinition) :
  In r1 front ->
  r_path r2 = r_path r1 ->
  toUpperCase (r_method r2) = toUpperCase (r_method r1) ->
  collectMethods (front ++ r2 :: back) = collectMethods (front ++ back).
Proof.
  intros Hin Hp Hu. unfold collectMethods. rewrite !fold_left_app. cbn [fold_left].
  f_equal.
  destruct (collect_has front ∅ (r_path r2) (toUpperCase (r_method r2)))
    as (l & Hl & Hm); [right; exists r1; auto|].
  eapply addMethod_known; eassumption.
Qed.

Section Shadowing.

Variable matches : string -> string -> Request -> bool.

(** A method handler registered behind one with the same verb and path is
    never reached. *)
Lemma registered_again (front back : list RouteDefinition) (r2 : RouteDefinition)
    (rest : list Layer) (req : Request) (w : World) :
  (exists r1, In r1 front /\ r_path r1 = r_path r2 /\
              toLowerCase (r_method r1) = toLowerCase (r_method r2)) \/
  includes registrar (toLowerCase (r_method r2)) = false \/
  matches (toLowerCase (r_method r2)) (r_path r2) req = false ->
  dispatch matches (registered (front ++ r2 :: back) ++ rest) req w =
  dispatch matches (registered (front ++ back) ++ rest) req w.
Proof.
  induction front as [|x front IH]; intros H.
  - destruct H as [(r1 & [] & _)|H]. unfold registered. cbn [app flat_map].
    destruct (includes registrar (toLowerCase (r_method r2))) eqn:Hreg; [|reflexivity].
    destruct H as [H|H]; [discriminate|].
    cbn [app dispatch]. now rewrite H.
  - unfold registered in *. cbn [app flat_map].
    destruct (includes registrar (toLowerCase (r_method x))) eqn:Hreg.
    + cbn [app dispatch].
      destruct (matches (toLowerCase (r_method x)) (r_path x) req) eqn:Hx; [reflexivity|].
      apply IH. destruct H as [(r1 & [<-|Hr1] & Hp & Hm)|H]; [|eauto 6|auto].
      right. right. now rewrite <- Hp, <- Hm.
    + cbn [app]. apply IH.
      destruct H as [(r1 & [<-|Hr1] & Hp & Hm)|H]; [|eauto 6|auto].
      right. left. now rewrite <- Hm.
Qed.

(** X15. A Route declared again with the method and the path of an
    earlier one is dead: every request is answered exactly as if the second
    declaration were not there. The first handler takes what both match,
    and the index of the 405 pass does not change. *)
Theorem redeclared_route_is_dead (pre mid post : list RouteDefinition)
    (r1 r2 : RouteDefinition) (cfg : AppConfig) (req : Request) (w : World) :
  r_path r2 = r_path r1 ->
  toLowerCase (r_method r2) = toLowerCase (r_method r1) ->
  is_wildcard r1 = false ->
  dispatch matches
    (stack (register {| routes := pre ++ r1 :: mid ++ r2 :: post; appConfig := cfg |}))
    req w =
  dispatch matches
    (stack (register {| routes := pre ++ r1 :: mid ++ post; appConfig := cfg |}))
    req w.
Proof.
  intros Hp Hm Hw1.
  assert (Hw2 : is_wildcard r2 = false) by (unfold is_wildcard in *; now rewrite Hp).
  unfold register. cbn [stack routes].
  set (keep := fun r => negb (is_wildcard r)).
  assert (Hreg : List.filter keep (pre ++ r1 :: mid ++ r2 :: post) =
                 (List.filter keep pre ++ r1 :: List.filter keep mid) ++
                 r2 :: List.filter keep post).
  { rewrite List.filter_app. cbn [List.filter]. unfold keep at 2. rewrite Hw1.
    cbn [negb]. rewrite List.filter_app. cbn [List.filter]. unfold keep at 3.
    rewrite Hw2. cbn [negb]. now rewrite <- app_assoc. }
  assert (Hreg' : List.filter keep (pre ++ r1 :: mid ++ post) =
                  (List.filter keep pre ++ r1 :: List.filter keep mid) ++
                  List.filter keep post).
  { rewrite List.filter_app. cbn [List.filter]. unfold keep at 2. rewrite Hw1.
    cbn [negb]. rewrite List.filter_app. now rewrite <- app_assoc. }
  assert (Hwild : List.filter (fun r => is_wildcard r) (pre ++ r1 :: mid ++ r2 :: post) =
                  List.filter (fun r => is_wildcard r) (pre ++ r1 :: mid ++ post)).
  { rewrite !List.filter_app. cbn [List.filter]. rewrite Hw1.
    rewrite !List.filter_app. cbn [List.filter]. now rewrite Hw2. }
  rewrite Hreg, Hreg', Hwild.
  assert (Hfront : In r1 (List.filter keep pre ++ r1 :: List.filter keep mid))
    by (apply in_or_app; right; now left).
  rewrite (collectMethods_again _ _ r1 r2 Hfront Hp).
  - apply registered_again. left. exists r1. auto.
  - now rewrite <- (toUpperCase_toLowerCase (r_method r2)), Hm, toUpperCase_toLowerCase.
Qed.

End Shadowing.

Lemma redeclared_route_is_dead_witness :
  dispatch Examples.express
    (stack (register
       {| routes := [Examples.users_def; Examples.me_def; Examples.users_again];
          appConfig := appConfig Examples.app_store |}))
    (Examples.request "GET" "/api/users/42" []) Examples.idle =
  dispatch Examples.express (stack (register Examples.app_store))
    (Examples.request "GET" "/api/users/42" []) Examples.idle.
Proof.
  exact (redeclared_route_is_dead Examples.express [] [Examples.me_def] []
           Examples.users_def Examples.users_again (appConfig Examples.app_store)
           (Examples.request "GET" "/api/users/42" []) Examples.idle
           eq_refl eq_refl eq_refl).
Defined.

(** X16. A Route whose method the transport has no registrar for (TRACE,
    say) is compiled, and then only warned about: no handler is registered
    for it, so it serves no request. Its method is advertised all the same:
    the index of the 405 pass lists it for the path. So a request for the
    path with that very method, which no other handler takes, passes the
    405 pass and ends with the handlers behind it (the 404 handler, or the
    wildcard routes). *)
Theorem unsupported_method_is_advertised (st : Store) (r : RouteDefinition) :
  In r (routes st) ->
  is_wildcard r = false ->
  includes registrar (toLowerCase (r_method r)) = false ->
  let regularRoutes := List.filter (fun r => negb (is_wildcard r)) (routes st) in
  let wildcardRoutes := List.filter (fun r => is_wildcard r) (routes st) in
  (forall verb, ~ In (OnMethod verb r) (stack (register st))) /\
  (exists index allowed,
     In (MethodNotAllowed index) (stack (register st)) /\
     index !! r_path r = Some allowed /\
     In (toUpperCase (r_method r)) allowed) /\
  (forall matches req w,
     req_path req = r_path r ->
     req_method req = toUpperCase (r_method r) ->
     (forall r', In r' regularRoutes ->
        includes registrar (toLowerCase (r_method r')) = true ->
        matches (toLowerCase (r_method r')) (r_path r') req = false) ->
     dispatch matches (stack (register st)) req w =
       dispatch matches
         (if negb (length wildcardRoutes =? 0)%nat
          then map Wildcard wildcardRoutes else [NotFound]) req w).
Proof.
  intros Hin Hw Hreg regular wild.
  assert (Hr : In r regular)
    by (apply List.filter_In; split; [exact Hin|now rewrite Hw]).
  destruct (collect_has regular ∅ (r_path r) (toUpperCase (r_method r)))
    as (allowed & Hentry & Hal); [right; exists r; auto|].
  split; [|split].
  - intros verb Hl. unfold register in Hl. cbn [stack] in Hl. fold regular in Hl.
    apply in_app_or in Hl as [Hl|[Hl|Hl]]; [|discriminate Hl|].
    + unfold registered in Hl. apply in_flat_map in Hl as (r' & _ & Hl).
      destruct (includes registrar (toLowerCase (r_method r'))) eqn:Hreg'; [|destruct Hl].
      destruct Hl as [Hl|[]]. inversion Hl; subst. congruence.
    + destruct (negb _); [|destruct Hl as [Hl|[]]; discriminate Hl].
      apply in_map_iff in Hl as (r' & Hl & _). discriminate Hl.
  - exists (collectMethods regular), allowed. split; [|split; assumption].
    unfold register. cbn [stack]. fold regular.
    apply in_or_app. right. now left.
  - intros matches req w Hpath Hmethod Hno.
    unfold register. cbn [stack]. fold regular. fold wild.
    rewrite dispatch_unmatched by exact Hno.
    cbn [app dispatch]. rewrite Hpath. fold (collectMethods regular).
    unfold collectMethods in Hentry |- *. rewrite Hentry, Hmethod.
    now rewrite (proj2 (includes_In _ _) Hal).
Qed.

Lemma unsupported_method_is_advertised_witness :
  ~ In (OnMethod "trace" Examples.trace_def) (stack (register Examples.trace_store)) /\
  dispatch Examples.express (stack (register Examples.trace_store))
    (Examples.request "TRACE" "/debug" []) Examples.idle =
  dispatch Examples.express [NotFound]
    (Examples.request "TRACE" "/debug" []) Examples.idle.
Proof.
  destruct (unsupported_method_is_advertised Examples.trace_store Examples.trace_def
              (or_introl eq_refl) eq_refl eq_refl) as (Hnone & _ & Hpass).
  split; [apply Hnone|].
  apply (Hpass Examples.express (Examples.request "TRACE" "/debug" []) Examples.idle
           eq_refl eq_refl).
  intros r' [<-|[]] Hr'. discriminate Hr'.
Defined.

Lemma lower_lower_ascii (c : ascii) : lower_ascii (lower_ascii c) = lower_ascii c.
Proof. destruct c as [[|] [|] [|] [|] [|] [|] [|] [|]]; reflexivity. Qed.

Lemma toLowerCase_again (s : string) : toLowerCase (toLowerCase s) = toLowerCase s.
Proof.
  induction s as [|c s IH]; [reflexivity|].
  unfold toLowerCase in *. cbn [map_string]. now rewrite IH, lower_lower_ascii.
Qed.

(** X17. The method of a Route is taken without regard to case. Every
    compiled route stores the method of its Route node in lower case, so
    "GET", "get" and "Get" declare the same route; a regular route is
    registered with the transport under exactly that lower-cased method,
    when the transport has a registrar for it, and under no other. *)
Theorem stored_method_is_lower_case (root : Element) (out : option JsValue)
    (st : Store) (r : RouteDefinition) :
  compile root = (out, st) ->
  In r (routes st) ->
  (exists ancestors ty props m,
     Encloses root ancestors (ENode ty props) /\
     is_kind ty "Route" = true /\
     method props = Some m /\
     r_method r = toLowerCase m) /\
  toLowerCase (r_method r) = r_method r /\
  (is_wildcard r = false ->
   forall verb,
     In (OnMethod verb r) (stack (register st)) <->
     verb = r_method r /\ includes registrar verb = true).
Proof.
  intros Hc Hin.
  destruct (processElement_emits _ _ _ _ _ _ Hc) as (new & Hnew & Hall).
  cbn in Hnew. subst new. rewrite List.Forall_forall in Hall.
  destruct (Hall r Hin) as (anc & ty & props & Henc & Hk & _ & _ & Hm & _ & Hr).
  destruct (method props) as [m|] eqn:Hmethod; [|discriminate Hm].
  assert (Hlow : r_method r = toLowerCase m) by (rewrite Hr; reflexivity).
  assert (Hidem : toLowerCase (r_method r) = r_method r)
    by (rewrite Hlow; apply toLowerCase_again).
  split; [exists anc, ty, props, m; auto|]. split; [exact Hidem|].
  intros Hw verb. unfold register. cbn [stack].
  set (regular := List.filter (fun r => negb (is_wildcard r)) (routes st)).
  assert (Hreg : In r regular)
    by (apply List.filter_In; split; [exact Hin|now rewrite Hw]).
  split.
  - intros Hl. apply in_app_or in Hl as [Hl|[Hl|Hl]]; [|discriminate Hl|].
    + unfold registered in Hl. apply in_flat_map in Hl as (r' & _ & Hl).
      destruct (includes registrar (toLowerCase (r_method r'))) eqn:Hreg'; [|destruct Hl].
      destruct Hl as [Hl|[]]. inversion Hl; subst r'. subst verb.
      rewrite Hidem in *. auto.
    + destruct (negb _); [|destruct Hl as [Hl|[]]; discriminate Hl].
      apply in_map_iff in Hl as (r' & Hl & _). discriminate Hl.
  - intros [-> Hv]. apply in_or_app. left. unfold registered.
    apply in_flat_map. exists r. split; [exact Hreg|].
    rewrite Hidem, Hv. now left.
Qed.

Lemma stored_method_is_lower_case_witness :
  compile (Route Examples.trace_p) = (None, Examples.trace_store) /\
  r_method Examples.trace_def = "trace" /\
  In (OnMethod "get" Examples.users_def) (stack (register Examples.app_store)).
Proof.
  split; [reflexivity|].
  destruct (stored_method_is_lower_case (Route Examples.trace_p) None
              Examples.trace_store Examples.trace_def eq_refl (or_introl eq_refl))
    as ((anc & ty & props & m & _) & Hlow & _).
  split; [exact (eq_sym Hlow)|].
  destruct (stored_method_is_lower_case Examples.app None Examples.app_store
              Examples.users_def compile_app (or_introl eq_refl))
    as (_ & _ & Hreg).
  apply (Hreg eq_refl "get"). split; reflexivity.
Defined.

End Methods.

(* ===================================================================== *)
(** ** Requests that no route takes *)
(* ===================================================================== *)

Module Fallback.

Import Transport Ambient Compiler Engine Resolution.

Section Unmatched.

Variable matches : string -> string -> Request -> bool.

(** The wildcard handlers, in order: the first whose method is "all" or
    the request's takes the request. *)
Lemma dispatch_wildcards (wildcardRoutes : list RouteDefinition) (req : Request) (w : World) :
  dispatch matches (map Wildcard wildcardRoutes) req w =
    match List.find (fun r => String.eqb (toLowerCase (r_method r)) "all" ||
                              String.eqb (toLowerCase (req_method req))
                                         (toLowerCase (r_method r)))
                    wildcardRoutes with
    | Some r => wildcardHandler r req w
    | None => Some (None, w)
    end.
Proof.
  induction wildcardRoutes as [|r l IH]; [reflexivity|].
  cbn [map dispatch List.find].
  destruct (String.eqb (toLowerCase (r_method r)) "all" ||
            String.eqb (toLowerCase (req_method req)) (toLowerCase (r_method r)));
    [reflexivity|exact IH].
Qed.

(** X18. A request that the [cors] layer hands on (there is none, or the
    default one and the method is not OPTIONS), that no method handler
    takes and that the 405 pass lets through ends as follows. Without a
    Route for the path "*", the
    default handler answers 404 with the JSON body that names the method
    and the original URL. With such Routes there is no default handler: the
    first of them whose method is ALL or the method of the request runs its
    chain; and when none fits, the engine leaves the response untouched. *)
Theorem unmatched_request_falls_through (st : Store) (req : Request) (w : World) :
  let regularRoutes := List.filter (fun r => negb (is_wildcard r)) (routes st) in
  let wildcardRoutes := List.filter (fun r => is_wildcard r) (routes st) in
  handed_on (register st) req = true ->
  (forall r, In r regularRoutes ->
     includes registrar (toLowerCase (r_method r)) = true ->
     matches (toLowerCase (r_method r)) (r_path r) req = false) ->
  (forall allowed,
     collectMethods regularRoutes !! req_path req = Some allowed ->
     includes allowed (req_method req) = true) ->
  dispatch matches (stack (register st)) req w =
    match wildcardRoutes with
    | [] => Some (onRes (notFound req) w)
    | _ =>
        match List.find (fun r => String.eqb (toLowerCase (r_method r)) "all" ||
                                  String.eqb (toLowerCase (req_method req))
                                             (toLowerCase (r_method r)))
                        wildcardRoutes with
        | Some r => wildcardHandler r req w
        | None => Some (None, w)
        end
    end /\
  (headersSent (res w) = false ->
   onRes (notFound req) w =
     (None,
      set_res
        (mkRes true (JNum 404) (headers (res w))
           (Some (BodyJson
              (JObj [("error", JStr "Not Found");
                     ("message", JStr ("Route " +:+ req_method req +:+ " " +:+
                                       req_originalUrl req +:+ " not found"));
                     ("path", JStr (req_originalUrl req));
                     ("method", JStr (req_method req))]))))
        w)).
Proof.
  intros regular wild _ Hno Hallowed. split.
  - unfold register. cbn [stack]. fold regular. fold wild.
    rewrite dispatch_unmatched by exact Hno.
    assert (Hpass : forall rest,
              dispatch matches ([MethodNotAllowed (collectMethods regular)] ++ rest) req w =
              dispatch matches rest req w).
    { intros rest. cbn [app dispatch].
      destruct (collectMethods regular !! req_path req) as [allowed|] eqn:Hl;
        [|reflexivity].
      now rewrite (Hallowed _ eq_refl). }
    rewrite Hpass.
    destruct wild as [|r l]; [reflexivity|].
    cbn [length Nat.eqb negb]. apply dispatch_wildcards.
  - intros Hunsent. unfold onRes, notFound, bind, status, json, put.
    cbn [headersSent]. rewrite Hunsent. reflexivity.
Qed.

End Unmatched.

Lemma unmatched_request_falls_through_witness :
  dispatch Examples.express (stack (register Examples.trace_store))
    (Examples.request "GET" "/nowhere" []) Examples.idle =
    Some (None,
          set_res
            (mkRes true (JNum 404) ∅
               (Some (BodyJson
                  (JObj [("error", JStr "Not Found");
                         ("message", JStr "Route GET /nowhere not found");
                         ("path", JStr "/nowhere");
                         ("method", JStr "GET")]))))
            Examples.idle) /\
  dispatch Examples.express
    (stack (register {| routes := [Examples.me_def_bare; Examples.fallback_def];
                        appConfig := appConfig empty_store |}))
    (Examples.request "POST" "/nowhere" []) Examples.idle =
    wildcardHandler Examples.fallback_def
      (Examples.request "POST" "/nowhere" []) Examples.idle.
Proof.
  split.
  - destruct (unmatched_request_falls_through Examples.express Examples.trace_store
                (Examples.request "GET" "/nowhere" []) Examples.idle)
      as [Hrun Hbody].
    + reflexivity.
    + intros r [<-|[]] Hr. discriminate Hr.
    + intros allowed Hl. rewrite collectMethods_lookup in Hl. discriminate Hl.
    + rewrite Hrun. cbn [List.filter]. now rewrite (Hbody eq_refl).
  - destruct (unmatched_request_falls_through Examples.express
                {| routes := [Examples.me_def_bare; Examples.fallback_def];
                   appConfig := appConfig empty_store |}
                (Examples.request "POST" "/nowhere" []) Examples.idle)
      as [Hrun _].
    + reflexivity.
    + intros r [<-|[]] Hr. reflexivity.
    + intros allowed Hl. rewrite collectMethods_lookup in Hl. discriminate Hl.
    + exact Hrun.
Defined.

End Fallback.

(* ===================================================================== *)
(** ** Calling the continuation again *)
(* ===================================================================== *)

Module Again.

Import Ambient Compiler Engine ChainFacts.



End Again.

(* ===================================================================== *)
(** ** The example middlewares in the chain *)
(* ===================================================================== *)

Module Guards.

Import Transport Ambient Compiler Engine ChainFacts.

(** A Response node with a status and a JSON object, on a response not yet
    sent. *)
Lemma reply_json (code : Z) (fields : list (string * JsValue)) (r : Res) :
  headersSent r = false ->
  valid_status (JNum code) = true ->
  sendResponseFromOutput
    (Compiler.Response [("status", JNum code); ("json", JObj fields)]) r =
    (inr tt, mkRes true (JNum code) (headers r) (Some (BodyJson (JObj fields)))).
Proof.
  intros Hr Hc. destruct r as [hs sc h s]. cbn in Hr. subst hs.
  unfold sendResponseFromOutput, Compiler.Response. cbn.
  unfold sendResponseNode. cbn.
  assert (Ht : (code =? 0)%Z = false).
  { apply Z.eqb_neq. intros ->. discriminate Hc. }
  unfold bind, when, Transport.status, Transport.json, put, ret.
  rewrite Hc. cbn. rewrite Ht. reflexivity.
Qed.


(** What a request handler does with a chain whose first middleware
    answered with a status and a JSON object. *)
Lemma answered_at_once (req : Request) (handler : Element)
    (middlewares : list Middleware) (schemas : list (string * JsValue)) (w : World)
    (code : Z) (fields : list (string * JsValue)) (st : St) :
  runChain req handler middlewares (set_routeContext (Some (seeded req schemas)) w) =
    Some (Normal (Compiler.Response [("status", JNum code); ("json", JObj fields)]), st) ->
  res (world st) = res w ->
  headersSent (res w) = false ->
  valid_status (JNum code) = true ->
  scoped req handler middlewares schemas w =
    Some (None,
          set_routeContext None
            (set_res (mkRes true (JNum code) (headers (res w))
                        (Some (BodyJson (JObj fields)))) (world st))).
Proof.
  intros Hrun Hres Hunsent Hcode. unfold scoped. rewrite Hrun.
  rewrite Hres, (reply_json code fields (res w) Hunsent Hcode). reflexivity.
Qed.

Lemma next_Done (next : unit -> St -> option (Completion * St)) (st : St) :
  interp next (CallNext tt Done) st = next tt st.
Proof.
  cbn [interp]. destruct (next tt st) as [[c s]|]; [apply Chain.interp_Done|reflexivity].
Qed.




Section Validation.

Variable safeParse : JsValue -> JsValue -> JsValue + Examples.SafeParseResult.

Lemma interp_validated (next : unit -> St -> option (Completion * St))
    (schema input : JsValue) (key : string)
    (k : option (list Examples.ZodIssue) -> Script unit) (st : St) :
  interp next (Examples.validated safeParse schema input key k) st =
    if truthy schema then
      match safeParse schema input with
      | inl e => Some (Abrupt e, st)
      | inr (Examples.ParseFailure issues) => interp next (k (Some issues)) st
      | inr (Examples.ParseSuccess data) =>
          interp next (k None) (on_world (useSetContext key data) st)
      end
    else interp next (k None) st.
Proof.
  unfold Examples.validated. destruct (truthy schema); [|reflexivity].
  destruct (safeParse schema input) as [e|[data|issues]]; reflexivity.
Qed.


(** The validation middleware in a state in which it finds a body schema,
    and no other: it passes on with the parsed body in the scope when the
    schema accepts the body of the request, and answers 400 when it does
    not. *)
Lemma validation_passes_on (req : Request) (st : St) (schema data : JsValue) :
  useContext "_bodySchema" (world st) = schema ->
  useContext "_querySchema" (world st) = JUndefined ->
  useContext "_paramsSchema" (world st) = JUndefined ->
  truthy schema = true ->
  safeParse schema (req_body req) = inr (Examples.ParseSuccess data) ->
  PassesOn (Examples.validationMiddleware safeParse req) st
    (useSetContext "body" data) (fun _ w => w).
Proof.
  intros Rb Rq Rp Hb Hok next.
  unfold Examples.validationMiddleware. cbn [interp]. rewrite Rb, Rq, Rp.
  rewrite interp_validated, Hb, Hok.
  rewrite interp_validated. cbn [truthy].
  rewrite interp_validated. cbn [truthy].
  rewrite next_Done.
  destruct (next tt _) as [[c [i t w']]|]; reflexivity.
Qed.

Lemma validation_answers (req : Request) (st : St) (schema : JsValue)
    (issues : list Examples.ZodIssue) :
  useContext "_bodySchema" (world st) = schema ->
  useContext "_querySchema" (world st) = JUndefined ->
  useContext "_paramsSchema" (world st) = JUndefined ->
  truthy schema = true ->
  safeParse schema (req_body req) = inr (Examples.ParseFailure issues) ->
  AnswersWith (Examples.validationMiddleware safeParse req) st
    (Examples.validation_failed (Examples.formattedErrors (Some issues) None None))
    (fun w => w).
Proof.
  intros Rb Rq Rp Hb Hfail next.
  unfold Examples.validationMiddleware. cbn [interp]. rewrite Rb, Rq, Rp.
  rewrite interp_validated, Hb, Hfail.
  rewrite interp_validated. cbn [truthy].
  rewrite interp_validated. cbn [truthy interp].
  destruct st; reflexivity.
Qed.



End Validation.





(** X23. The auth middleware of the example, first in a chain. With the
    token "valid-token" as the second word of the [authorization] header it
    puts the user into the scope and hands on, so the rest of the chain
    runs from its second middleware with [user] readable. With any other
    header, or none, the request is answered 401, with the error
    "Unauthorized" when there is no token and "Invalid token" otherwise,
    and nothing after the middleware runs. *)
Theorem auth_middleware_guards (req : Request) (handler : Element)
    (rest : list Middleware) (schemas : list (string * JsValue)) (w : World) :
  let token := match get (req_headers req) "authorization" with
               | JStr s => Examples.second_piece s
               | _ => None
               end in
  let chain := Examples.authMiddleware :: rest in
  let w1 := set_routeContext (Some (seeded req schemas)) w in
  let user := JObj [("id", JNum 1); ("name", JStr "Titanium");
                    ("email", JStr "admin@example.com")] in
  (token = Some "valid-token" ->
   runChain req handler chain w1 =
     executeNextMiddleware (S (length rest)) req (call handler) chain
       (mkSt 1 [RanMiddleware 0] (useSetContext "user" user w1)) /\
   useContext "user" (useSetContext "user" user w1) = user) /\
  (token <> Some "valid-token" ->
   headersSent (res w) = false ->
   (exists v st, runChain req handler chain w1 = Some (Normal v, st) /\
                 ran st = [RanMiddleware 0]) /\
   exists w',
     scoped req handler chain schemas w = Some (None, w') /\
     res w' =
       mkRes true (JNum 401) (headers (res w))
         (Some (BodyJson
            (JObj [("error",
                    JStr (match token with
                          | None | Some "" => "Unauthorized"
                          | Some _ => "Invalid token"
                          end))])))).
Proof.
  intros token chain w1 user. subst chain.
  assert (Hscope : exists rc, routeContext w1 = Some rc) by (eexists; reflexivity).
  destruct Hscope as (rc1 & Hrc1).
  assert (Hw1 : w1 = set_routeContext (Some (seeded req schemas)) w) by reflexivity.
  clearbody w1.
  assert (Hstep : runChain req handler (Examples.authMiddleware :: rest) w1 =
                  interp (fun _ => executeNextMiddleware (S (length rest)) req
                                     (call handler) (Examples.authMiddleware :: rest))
                         match token with
                         | None | Some "" =>
                             Return (Compiler.Response
                                       [("status", JNum 401);
                                        ("json", JObj [("error", JStr "Unauthorized")])])
                         | Some t =>
                             if negb (String.eqb t "valid-token") then
                               Return (Compiler.Response
                                         [("status", JNum 401);
                                          ("json", JObj [("error", JStr "Invalid token")])])
                             else UseSetContext "user" user (CallNext tt Done)
                         end
                         (mkSt 1 [RanMiddleware 0] w1)).
  { unfold runChain. rewrite exec_S. reflexivity. }
  split.
  - intros Htoken. split.
    + rewrite Hstep, Htoken.
      cbn [String.eqb Ascii.eqb Bool.eqb negb]. cbn [interp].
      change (on_world (useSetContext "user" user) (mkSt 1 [RanMiddleware 0] w1))
        with (mkSt 1 [RanMiddleware 0] (useSetContext "user" user w1)).
      destruct (executeNextMiddleware (S (length rest)) req (call handler)
                  (Examples.authMiddleware :: rest)
                  (mkSt 1 [RanMiddleware 0] (useSetContext "user" user w1)))
        as [[c s]|]; [apply Chain.interp_Done|reflexivity].
    + now rewrite (Context.write_then_read "user" user w1 rc1 Hrc1).
  - intros Htoken Hunsent.
    assert (Hanswer : exists msg,
              msg = match token with
                    | None | Some "" => "Unauthorized"
                    | Some _ => "Invalid token"
                    end /\
              runChain req handler (Examples.authMiddleware :: rest) w1 =
                Some (Normal (Compiler.Response
                                [("status", JNum 401);
                                 ("json", JObj [("error", JStr msg)])]),
                      mkSt 1 [RanMiddleware 0] w1)).
    { rewrite Hstep.
      destruct token as [t|]; [|eexists; split; reflexivity].
      destruct t as [|a t']; [eexists; split; reflexivity|].
      destruct (negb (String.eqb (String a t') "valid-token")) eqn:Hv.
      - eexists. split; reflexivity.
      - exfalso. apply Htoken. apply Bool.negb_false_iff, String.eqb_eq in Hv.
        now rewrite Hv. }
    destruct Hanswer as (msg & Hmsg & Hrun).
    split; [eauto|].
    subst w1.
    rewrite (answered_at_once req handler _ schemas w 401 _ _ Hrun eq_refl Hunsent)
      by reflexivity.
    eexists. split; [reflexivity|]. cbn [res set_routeContext set_res]. now rewrite Hmsg.
Qed.

Lemma auth_middleware_guards_witness :
  (exists w',
     scoped (Examples.request "GET" "/api/protected/me"
               [("authorization", JStr "Bearer nope")])
       (EFun Examples.me) [Examples.authMiddleware] [] Examples.idle = Some (None, w') /\
     res w' = mkRes true (JNum 401) ∅
                (Some (BodyJson (JObj [("error", JStr "Invalid token")])))) /\
  useContext "user"
    (useSetContext "user"
       (JObj [("id", JNum 1); ("name", JStr "Titanium");
              ("email", JStr "admin@example.com")])
       (set_routeContext
          (Some (seeded (Examples.request "GET" "/api/protected/me"
                           [("authorization", JStr "Bearer valid-token")]) []))
          Examples.idle)) =
    JObj [("id", JNum 1); ("name", JStr "Titanium"); ("email", JStr "admin@example.com")].
Proof.
  split.
  - destruct (auth_middleware_guards
                (Examples.request "GET" "/api/protected/me"
                   [("authorization", JStr "Bearer nope")])
                (EFun Examples.me) [] [] Examples.idle) as [_ Hdenied].
    destruct (Hdenied ltac:(discriminate) eq_refl) as (_ & w' & Hrun & Hres).
    exists w'. split; [exact Hrun|exact Hres].
  - destruct (auth_middleware_guards
                (Examples.request "GET" "/api/protected/me"
                   [("authorization", JStr "Bearer valid-token")])
                (EFun Examples.me) [] [] Examples.idle) as [Hvalid _].
    exact (proj2 (Hvalid eq_refl)).
Defined.

(** The route [POST /hello] of [Examples.hello_app]: with a body that the
    schema accepts, the logging and the validation middleware pass on and
    the handler answers with the parsed body; with a body that it rejects,
    the validation middleware answers and the handler does not run. *)
Lemma chain_order_and_short_circuit_witness :
  let accepted := JObj [("name", JStr "Ada"); ("admin", JBool true)] in
  let parsed := JObj [("name", JStr "Ada")] in
  let rejected := JObj [("age", JNum 3)] in
  let scope b :=
    set_routeContext
      (Some (seeded (Examples.hello b)
               [("_bodySchema", Examples.schema); ("_querySchema", JUndefined)]))
      Examples.idle in
  runChain (Examples.hello accepted) (r_handler Examples.hello_def)
    (r_middlewares Examples.hello_def) (scope accepted) =
    Some (Normal (Compiler.Response [("json", parsed)]),
          mkSt 2 [RanMiddleware 0; RanMiddleware 1; RanHandler]
            (useSetContext "body" parsed
               (useSetContext "requestTimestamp" (JNum 5) (scope accepted)))) /\
  runChain (Examples.hello rejected) (r_handler Examples.hello_def)
    (r_middlewares Examples.hello_def) (scope rejected) =
    Some (Normal (Examples.validation_failed
                    (Examples.formattedErrors
                       (Some [Examples.mkIssue [JStr "name"] "Required" "invalid_type"])
                       None None)),
          mkSt 2 [RanMiddleware 0; RanMiddleware 1]
            (useSetContext "requestTimestamp" (JNum 5) (scope rejected))).
Proof.
  intros accepted parsed rejected scope.
  assert (Hcompiled : compile Examples.hello_app = (None, Examples.hello_store))
    by reflexivity.
  assert (Hreads : forall b,
            let w := useSetContext "requestTimestamp" (JNum 5) (scope b) in
            useContext "_bodySchema" w = Examples.schema /\
            useContext "_querySchema" w = JUndefined /\
            useContext "_paramsSchema" w = JUndefined).
  { intros b. repeat split; vm_compute; reflexivity. }
  split.
  - destruct (Chain.chain_order_and_short_circuit Examples.hello_app None
                Examples.hello_store Examples.hello_def (Examples.hello accepted)
                (scope accepted) Hcompiled (or_introl eq_refl))
      as (_ & _ & Hall & _).
    destruct (Hreads accepted) as (Rb & Rq & Rp).
    edestruct (Hall Examples.greet
                 (mkSt 2 [RanMiddleware 0; RanMiddleware 1]
                    (useSetContext "body" parsed
                       (useSetContext "requestTimestamp" (JNum 5) (scope accepted)))))
      as (c & sth & Hh & _ & Hrun).
    + reflexivity.
    + eapply passed_one; [reflexivity|apply Chain.PassesOn_set|].
      eapply passed_one; [reflexivity| |apply passed_none].
      eapply (validation_passes_on Examples.parse_name);
        [exact Rb|exact Rq|exact Rp|reflexivity|reflexivity].
    + reflexivity.
    + rewrite Hrun. cbn [Examples.greet interp at_handler world] in Hh.
      assert (Hbody : useContext "body"
                        (useSetContext "body" parsed
                           (useSetContext "requestTimestamp" (JNum 5) (scope accepted))) =
                      parsed) by (vm_compute; reflexivity).
      rewrite Hbody in Hh. inversion Hh; subst c sth. reflexivity.
  - destruct (Chain.chain_order_and_short_circuit Examples.hello_app None
                Examples.hello_store Examples.hello_def (Examples.hello rejected)
                (scope rejected) Hcompiled (or_introl eq_refl))
      as (_ & _ & _ & Hanswer).
    destruct (Hreads rejected) as (Rb & Rq & Rp).
    edestruct Hanswer
      with (m := Examples.validationMiddleware Examples.parse_name)
           (st_j := mkSt 1 [RanMiddleware 0]
                      (useSetContext "requestTimestamp" (JNum 5) (scope rejected)))
      as (_ & Hrun).
    + eapply passed_one; [reflexivity|apply Chain.PassesOn_set|apply passed_none].
    + reflexivity.
    + eapply (validation_answers Examples.parse_name);
        [exact Rb|exact Rq|exact Rp|reflexivity|reflexivity].
    + rewrite Hrun. reflexivity.
Defined.

End Guards.

(* ===================================================================== *)
(** ** A Route whose children is no function *)
(* ===================================================================== *)

Module Misuse.

Import Transport Ambient Compiler Engine CompilerFacts.

(** X25. The children of a Route are not checked to be a function. A
    Route with a path, a method and any truthy children (a text, an
    element) compiles and is put into the table with those children as its
    handler; the failure comes with the first request, for which calling
    the handler throws, and the answer is 500 "Internal server error". *)
Theorem non_function_handler_fails_at_run_time (ty : NodeType) (props : Props Element)
    (pathPrefix : string) (middlewares : list Middleware) (st : Store)
    (req : Request) (schemas : list (string * JsValue)) (w : World) :
  is_kind ty "Route" = true ->
  present (path props) = true ->
  present (method props) = true ->
  truthy (body props) = false ->
  elem_truthy (children props) = true ->
  (forall h, children props <> EFun h) ->
  (exists r,
     processElement (ENode ty props) pathPrefix middlewares st =
       (None, {| routes := routes st ++ [r]; appConfig := appConfig st |}) /\
     r_handler r = children props) /\
  (headersSent (res w) = false ->
   exists w',
     scoped req (children props) [] schemas w = Some (None, w') /\
     res w' = mkRes true (JNum 500) (headers (res w))
                (Some (BodyJson (error_body "Internal server error")))).
Proof.
  intros Hk Hp Hm Hb Hc Hnf. split.
  - rewrite processElement_node.
    rewrite (is_kind_only _ _ "App" Hk), (is_kind_only _ _ "RouteGroup" Hk),
      !Bool.andb_false_r by discriminate.
    rewrite Hk, (is_kind_truthy _ _ Hk) by discriminate. cbn [andb].
    unfold processRoute. rewrite Hp, Hc, Hm, Hb. cbn [andb negb].
    eexists. split; reflexivity.
  - intros Hunsent. unfold scoped, runChain.
    cbn [length executeNextMiddleware middlewareIndex Nat.leb ran world app].
    assert (Hcall : exists e, call (children props) = Throw e).
    { destruct (children props) as [| |h| | |]; try (eexists; reflexivity).
      now destruct (Hnf h). }
    destruct Hcall as [e ->]. cbn [interp world].
    rewrite Scope.catchBlock_spec. cbn [res set_routeContext]. rewrite Hunsent.
    eexists. split; reflexivity.
Qed.

Lemma non_function_handler_fails_at_run_time_witness :
  (exists r, compile (Route Examples.text_route_p) =
               (None, {| routes := [r]; appConfig := appConfig empty_store |}) /\
             r_handler r = EText "hello") /\
  exists w',
    scoped (Examples.request "GET" "/hello" []) (EText "hello") [] [] Examples.idle =
      Some (None, w') /\
    res w' = mkRes true (JNum 500) ∅
               (Some (BodyJson (error_body "Internal server error"))).
Proof.
  destruct (non_function_handler_fails_at_run_time (TyStr "Route")
              Examples.text_route_p "" [] empty_store
              (Examples.request "GET" "/hello" []) [] Examples.idle
              eq_refl eq_refl eq_refl eq_refl eq_refl) as [Hbuild Hrun].
  - intros h. discriminate.
  - split; [exact Hbuild|]. exact (Hrun eq_refl).
Defined.

End Misuse.

(* ===================================================================== *)
(** ** The order of the table *)
(* ===================================================================== *)

Module Order.

Import Ambient Compiler Engine CompilerFacts.

(** A compilation step adds the same routes, and throws or not, whatever
    the store holds when it starts. *)
Lemma forEach_frame (f : Element -> Store -> Outcome) (items : list Element) :
  Forall (fun el => forall st,
            fst (f el st) = fst (f el empty_store) /\
            routes (snd (f el st)) = routes st ++ routes (snd (f el empty_store)))
         items ->
  forall st,
    fst (forEach f items st) = fst (forEach f items empty_store) /\
    routes (snd (forEach f items st)) =
      routes st ++ routes (snd (forEach f items empty_store)).
Proof.
  induction 1 as [|el items Hel Hitems IH]; intros st; cbn [forEach].
  - cbn. now rewrite app_nil_r.
  - destruct (Hel st) as [Ho Hr].
    destruct (f el st) as [[e|] s1], (f el empty_store) as [[e'|] s1'];
      cbn [fst snd] in *; try discriminate.
    + cbn. auto.
    + destruct (IH s1) as [H1 H2], (IH s1') as [H3 H4].
      split; [congruence|]. rewrite H2, H4, Hr. cbn. now rewrite app_assoc.
Qed.

Lemma processElement_frame (e : Element) :
  forall pathPrefix middlewares st,
    fst (processElement e pathPrefix middlewares st) =
      fst (processElement e pathPrefix middlewares empty_store) /\
    routes (snd (processElement e pathPrefix middlewares st)) =
      routes st ++ routes (snd (processElement e pathPrefix middlewares empty_store)).
Proof.
  induction e as [|s|h|items IH|ty props IH|name props rendered IH]
    using Element_nested_ind; intros pfx mws st.
  - cbn. now rewrite app_nil_r.
  - cbn. now rewrite app_nil_r.
  - cbn. now rewrite app_nil_r.
  - cbn [processElement]. apply forEach_frame.
    eapply List.Forall_impl; [|exact IH]. intros el Hel st0. apply Hel.
  - assert (Hloop : forall items p m,
              incl items (as_array (children props)) ->
              forall st0,
                fst (forEach (fun el => processElement el p m) items st0) =
                  fst (forEach (fun el => processElement el p m) items empty_store) /\
                routes (snd (forEach (fun el => processElement el p m) items st0)) =
                  routes st0 ++
                  routes (snd (forEach (fun el => processElement el p m) items
                                 empty_store))).
    { intros items p m Hincl. apply forEach_frame.
      apply List.Forall_forall. intros el Hel st0.
      rewrite List.Forall_forall in IH. apply IH. apply Hincl, Hel. }
    rewrite !processElement_node.
    destruct (type_truthy ty && is_kind ty "App").
    { set (cfg := {| cfg_port := js_or (port props) (JNum 9000);
                     cfg_cors := cors props |}).
      destruct (Hloop (as_array (children props)) pfx
                  (mws ++ pushed (middleware props)) (incl_refl _)
                  {| routes := routes st; appConfig := cfg |}) as [H1 H2].
      destruct (Hloop (as_array (children props)) pfx
                  (mws ++ pushed (middleware props)) (incl_refl _)
                  {| routes := routes empty_store; appConfig := cfg |}) as [H3 H4].
      split; [congruence|]. rewrite H2, H4. reflexivity. }
    destruct (type_truthy ty && is_kind ty "RouteGroup").
    { rewrite !others_filter. apply Hloop. apply incl_filter. }
    destruct (type_truthy ty && is_kind ty "Route").
    { unfold processRoute.
      destruct (present (path props) && elem_truthy (children props));
        [|cbn; now rewrite app_nil_r].
      destruct (negb (present (method props))); [cbn; now rewrite app_nil_r|].
      destruct (truthy (body props) && _); cbn; [now rewrite app_nil_r|auto]. }
    apply Hloop. apply incl_refl.
  - cbn [processElement]. apply IH.
Qed.

Lemma forEach_app (f : Element -> Store -> Outcome) (xs ys : list Element) (st : Store) :
  forEach f (xs ++ ys) st =
    match forEach f xs st with
    | (Some e, s) => (Some e, s)
    | (None, s) => forEach f ys s
    end.
Proof.
  revert st. induction xs as [|x xs IH]; intros st; [reflexivity|].
  cbn [app forEach]. destruct (f x st) as [[e|] s1]; [reflexivity|apply IH].
Qed.

(** X26. The table follows the order of the document. What an element
    adds to the table, and whether compiling it throws, does not depend on
    what was compiled before it; and the routes of the elements of an
    array are in the table in the order of the array, those of earlier
    siblings first. (The first handler that matches a request takes it, so
    among routes that match alike the earlier sibling wins.) *)
Theorem table_follows_document_order (xs ys : list Element) (pathPrefix : string)
    (middlewares : list Middleware) :
  (forall e st,
     fst (processElement e pathPrefix middlewares st) =
       fst (processElement e pathPrefix middlewares empty_store) /\
     routes (snd (processElement e pathPrefix middlewares st)) =
       routes st ++ routes (snd (processElement e pathPrefix middlewares empty_store))) /\
  (forall st st',
     processElement (EArr (xs ++ ys)) pathPrefix middlewares st = (None, st') ->
     routes st' =
       routes st ++
       routes (snd (processElement (EArr xs) pathPrefix middlewares empty_store)) ++
       routes (snd (processElement (EArr ys) pathPrefix middlewares empty_store))).
Proof.
  split; [intros e st; apply processElement_frame|].
  intros st st' Hrun. cbn [processElement] in Hrun. rewrite forEach_app in Hrun.
  destruct (processElement_frame (EArr xs) pathPrefix middlewares st) as [_ Hx].
  cbn [processElement] in Hx |- *.
  destruct (forEach (fun el => processElement el pathPrefix middlewares) xs st)
    as [[e|] s1]; [discriminate|]. cbn [snd] in Hx.
  destruct (processElement_frame (EArr ys) pathPrefix middlewares s1) as [_ Hy].
  cbn [processElement] in Hy. rewrite Hrun in Hy. cbn [snd] in Hy.
  rewrite Hy, Hx. now rewrite app_assoc.
Qed.

Lemma table_follows_document_order_witness :
  routes (snd (compile (EArr ([Examples.api_group] ++ [Examples.protected_group])))) =
    [{| r_method := "get"; r_path := "/api/users/:id";
        r_handler := EFun Examples.user42;
        r_middlewares := [Examples.adminLogMiddleware; Examples.slowRouteMiddleware 7];
        r_querySchema := JUndefined; r_bodySchema := JUndefined |};
     {| r_method := "get"; r_path := "/api/protected/me";
        r_handler := EFun Examples.me;
        r_middlewares := [Examples.authMiddleware];
        r_querySchema := JUndefined; r_bodySchema := JUndefined |}].
Proof.
  rewrite (proj2 (table_follows_document_order [Examples.api_group]
                    [Examples.protected_group] "" [])
             empty_store
             (snd (compile (EArr ([Examples.api_group] ++ [Examples.protected_group]))))
             eq_refl).
  reflexivity.
Defined.

End Order.

(* ===================================================================== *)
(** ** A middleware that drops the result *)
(* ===================================================================== *)

Module Dropped.

Import Transport Ambient Compiler Engine ChainFacts.

(** X27. A middleware has to return what [next()] gave. When the first
    middleware awaits [next()] and returns nothing, the rest of the chain
    and the handler do run, but what they returned is lost: the chain ends
    with undefined, and, unless something was sent on [res] by then, the
    request is answered 500 "No response generated". *)
Theorem dropped_result_is_answered_500 (req : Request) (handler : Element)
    (rest : list Middleware) (schemas : list (string * JsValue)) (w : World)
    (v : JsValue) (st : St) :
  executeNextMiddleware (S (length rest)) req (call handler)
    (Examples.forgetful :: rest)
    (mkSt 1 [RanMiddleware 0] (set_routeContext (Some (seeded req schemas)) w)) =
    Some (Normal v, st) ->
  headersSent (res (world st)) = false ->
  runChain req handler (Examples.forgetful :: rest)
    (set_routeContext (Some (seeded req schemas)) w) = Some (Normal JUndefined, st) /\
  exists w',
    scoped req handler (Examples.forgetful :: rest) schemas w = Some (None, w') /\
    res w' = mkRes true (JNum 500) (headers (res (world st)))
               (Some (BodyJson (error_body "No response generated"))).
Proof.
  intros Hrest Hunsent.
  assert (Hrun : runChain req handler (Examples.forgetful :: rest)
                   (set_routeContext (Some (seeded req schemas)) w) =
                 Some (Normal JUndefined, st)).
  { unfold runChain. rewrite exec_S.
    change (interp (fun _ => executeNextMiddleware (S (length rest)) req (call handler)
                               (Examples.forgetful :: rest))
                   (CallNext tt (fun c => match c with
                                          | Normal _ => Return JUndefined
                                          | Abrupt e => Throw e
                                          end))
                   (mkSt 1 [RanMiddleware 0]
                      (set_routeContext (Some (seeded req schemas)) w)) =
            Some (Normal JUndefined, st)).
    cbn [interp]. now rewrite Hrest. }
  split; [exact Hrun|].
  unfold scoped. rewrite Hrun.
  unfold sendResponseFromOutput. cbn [truthy negb].
  unfold bind, getHeadersSent, when. rewrite Hunsent. cbn [negb].
  unfold Transport.status, Transport.json, put, bind. cbn [headersSent].
  rewrite Hunsent. eexists. split; reflexivity.
Qed.

Lemma dropped_result_is_answered_500_witness :
  exists w',
    scoped (Examples.request "GET" "/me" []) (EFun Examples.me)
      [Examples.forgetful] [] Examples.idle = Some (None, w') /\
    res w' = mkRes true (JNum 500) ∅
               (Some (BodyJson (error_body "No response generated"))).
Proof.
  destruct (dropped_result_is_answered_500 (Examples.request "GET" "/me" [])
              (EFun Examples.me) [] [] Examples.idle _ _ eq_refl eq_refl)
    as (_ & w' & Hrun & Hres).
  exists w'. split; [exact Hrun|exact Hres].
Defined.

End Dropped.
